(** * JaeOS nucleus: a shallow embedding of the phase-1 and phase-2 sources

    The development follows the layout of the repository:
    - [h/const.h] and [h/types.h]: constants and the C structures;
    - [phase1/pcb.c]: the PCB free list, process queues and process trees;
    - [phase1/asl.c]: the active semaphore list;
    - [phase2/initial.c], [scheduler.c], [exceptions.c], [interrupts.c].

    C objects live in an explicit kernel state.  The two static tables
    ([procTable], [semdTable]) are lists; a pointer into a table is an
    [option nat] ([None] is [NULL]).  Pointers to [int] and to [state_t]
    are addresses in [Z] ([0] is [NULL]).  Every C function becomes a
    computation in a state monad that can stop: the ROM services [LDST],
    [HALT], [PANIC] and [WAIT] never return to their caller, and a
    dereference of [NULL] has no defined continuation either. *)

From Stdlib Require Import ZArith Lia Bool List.
From stdpp Require Import base tactics option list.
Import ListNotations.
Local Open Scope Z_scope.

(** ** Machine integers *)

(** [int] and [unsigned int] are 32 bits wide on the target. *)
Definition wrap_int (z : Z) : Z := (z + 2 ^ 31) mod 2 ^ 32 - 2 ^ 31.
Definition wrap_uint (z : Z) : Z := z mod 2 ^ 32.

(** ** h/const.h *)

Definition MAXPROC : nat := 20.
Definition ALLOFF : Z := 0x00000000.
Definition INTSDISABLED : Z := 0x000000C0.
Definition INTSENABLED : Z := 0xFFFFFF3F.
Definition USERMODE : Z := 0x00000010.
Definition SYSMODE : Z := 0x0000001F.

Definition INTOLDADD : Z := 0x00007000.
Definition INTNEWADD : Z := 0x00007058.
Definition TLBOLDADD : Z := 0x000070B0.
Definition TLBNEWADD : Z := 0x00007108.
Definition PGMTOLDADD : Z := 0x00007160.
Definition PGMTNEWADD : Z := 0x000071B8.
Definition SYSOLDADD : Z := 0x00007210.
Definition SYSNEWADD : Z := 0x00007268.

Definition MAXSEMA4 : Z := 49.
Definition PCPREFETCH : Z := 4.
Definition RI : Z := 20.

Definition QUANTUM : Z := 5000.
Definition INTERVAL : Z := 100000.
Definition CLOCKINDEX : Z := 48.

Definition CREATEPROCESS : Z := 1.
Definition TERMINATEPROCESS : Z := 2.
Definition VERHOGEN : Z := 3.
Definition PASSEREN : Z := 4.
Definition SPECTRAPVEC : Z := 5.
Definition GETCPUTIME : Z := 6.
Definition WAITCLOCK : Z := 7.
Definition WAITIO : Z := 8.

Definition TLBTRAP : Z := 0.
Definition PGMTRAP : Z := 1.
Definition SYSTRAP : Z := 2.

Definition SUCCESS : Z := 0.
Definition FAILURE : Z := -1.

Definition LINENUMTWO : Z := 2.
Definition LINENUMTHREE : Z := 3.
Definition LINENUMFOUR : Z := 4.
Definition LINENUMFIVE : Z := 5.
Definition LINENUMSIX : Z := 6.
Definition LINENUMSEVEN : Z := 7.

(** [LINEZERO] .. [LINESEVEN] and [DEVICEZERO] .. [DEVICESEVEN]: one bit
    each, in priority order. *)
Definition lineBits : list Z := [0x01; 0x02; 0x04; 0x08; 0x10; 0x20; 0x40; 0x80].
Definition deviceBits : list Z := [0x01; 0x02; 0x04; 0x08; 0x10; 0x20; 0x40; 0x80].

Definition DEVICEREADY : Z := 1.
Definition ACK : Z := 1.
(** [RECEIVING] is [TRUE] and [TRANSMITTING] is [FALSE]. *)
Definition RECEIVING : bool := true.
Definition TRANSMITTING : bool := false.
Definition ISOLATEREADY : Z := 0x0000000F.

Definition DEVICEOFFSET : Z := 3.
Definition TOTALDEVICES : Z := 8.
Definition TOTALLINENUMS : Z := 8.
Definition DEVBASEADDRESS : Z := 0x00000040.
Definition DEVWORDLENGTH : Z := 0x00000010.
Definition LASTSEMINDEX : Z := 48.

Definition TERMINALINTMAP : Z := 0x00006FF0.
Definition PRINTERINTMAP : Z := 0x00006FEC.
Definition NETWORKINTMAP : Z := 0x00006FE8.
Definition TAPEINTMAP : Z := 0x00006FE4.
Definition DISKINTMAP : Z := 0x00006FE0.

Definition LINENUMOFFSET : Z := 24.

(** ** h/types.h *)

Abbreviation pcb_PTR := (option nat).
Abbreviation semd_PTR := (option nat).
Abbreviation NULL := (@None nat).

(** Device register: the union of [dtpreg_t] and [termreg_t]; the four
    words carry the [dtp] names, the [term] names are views on them. *)
Record devreg_t : Type := {
  status : Z;
  command : Z;
  data0 : Z;
  data1 : Z
}.

Definition recv_status (d : devreg_t) : Z := status d.
Definition transm_status (d : devreg_t) : Z := data0 d.

Definition set_command (v : Z) (d : devreg_t) : devreg_t :=
  Build_devreg_t (status d) v (data0 d) (data1 d).
Definition set_recv_command (v : Z) (d : devreg_t) : devreg_t :=
  set_command v d.
Definition set_transm_command (v : Z) (d : devreg_t) : devreg_t :=
  Build_devreg_t (status d) (command d) (data0 d) v.

Record state_t : Type := {
  a1 : Z; a2 : Z; a3 : Z; a4 : Z;
  v1 : Z; v2 : Z; v3 : Z; v4 : Z; v5 : Z; v6 : Z;
  sl : Z; fp : Z; ip : Z; sp : Z; lr : Z; pc : Z;
  cpsr : Z;
  CP15_Control : Z;
  CP15_EntryHi : Z;
  CP15_Cause : Z;
  TOD_Hi : Z;
  TOD_Low : Z
}.

Definition set_a1 (v : Z) (s : state_t) : state_t :=
  Build_state_t v (a2 s) (a3 s) (a4 s) (v1 s) (v2 s) (v3 s) (v4 s) (v5 s)
    (v6 s) (sl s) (fp s) (ip s) (sp s) (lr s) (pc s) (cpsr s) (CP15_Control s)
    (CP15_EntryHi s) (CP15_Cause s) (TOD_Hi s) (TOD_Low s).

Definition set_sp (v : Z) (s : state_t) : state_t :=
  Build_state_t (a1 s) (a2 s) (a3 s) (a4 s) (v1 s) (v2 s) (v3 s) (v4 s) (v5 s)
    (v6 s) (sl s) (fp s) (ip s) v (lr s) (pc s) (cpsr s) (CP15_Control s)
    (CP15_EntryHi s) (CP15_Cause s) (TOD_Hi s) (TOD_Low s).

Definition set_pc (v : Z) (s : state_t) : state_t :=
  Build_state_t (a1 s) (a2 s) (a3 s) (a4 s) (v1 s) (v2 s) (v3 s) (v4 s) (v5 s)
    (v6 s) (sl s) (fp s) (ip s) (sp s) (lr s) v (cpsr s) (CP15_Control s)
    (CP15_EntryHi s) (CP15_Cause s) (TOD_Hi s) (TOD_Low s).

Definition set_cpsr (v : Z) (s : state_t) : state_t :=
  Build_state_t (a1 s) (a2 s) (a3 s) (a4 s) (v1 s) (v2 s) (v3 s) (v4 s) (v5 s)
    (v6 s) (sl s) (fp s) (ip s) (sp s) (lr s) (pc s) v (CP15_Control s)
    (CP15_EntryHi s) (CP15_Cause s) (TOD_Hi s) (TOD_Low s).

Definition set_CP15_Control (v : Z) (s : state_t) : state_t :=
  Build_state_t (a1 s) (a2 s) (a3 s) (a4 s) (v1 s) (v2 s) (v3 s) (v4 s) (v5 s)
    (v6 s) (sl s) (fp s) (ip s) (sp s) (lr s) (pc s) (cpsr s) v
    (CP15_EntryHi s) (CP15_Cause s) (TOD_Hi s) (TOD_Low s).

Definition set_CP15_Cause (v : Z) (s : state_t) : state_t :=
  Build_state_t (a1 s) (a2 s) (a3 s) (a4 s) (v1 s) (v2 s) (v3 s) (v4 s) (v5 s)
    (v6 s) (sl s) (fp s) (ip s) (sp s) (lr s) (pc s) (cpsr s) (CP15_Control s)
    (CP15_EntryHi s) v (TOD_Hi s) (TOD_Low s).


Definition zero_state : state_t :=
  Build_state_t 0 0 0 0 0 0 0 0 0 0 0 0 0 0 0 0 0 0 0 0 0 0.

Record p_states : Type := {
  oldState : Z;
  newState : Z
}.

Record pcb_t : Type := {
  p_next : pcb_PTR;
  p_prev : pcb_PTR;
  p_prnt : pcb_PTR;
  p_child : pcb_PTR;
  p_nextSib : pcb_PTR;
  p_prevSib : pcb_PTR;
  p_s : state_t;
  p_time : Z;
  p_semAdd : Z;
  stateArray : list p_states
}.

Definition set_p_next (v : pcb_PTR) (b : pcb_t) : pcb_t :=
  Build_pcb_t v (p_prev b) (p_prnt b) (p_child b) (p_nextSib b) (p_prevSib b)
    (p_s b) (p_time b) (p_semAdd b) (stateArray b).

Definition set_p_prev (v : pcb_PTR) (b : pcb_t) : pcb_t :=
  Build_pcb_t (p_next b) v (p_prnt b) (p_child b) (p_nextSib b) (p_prevSib b)
    (p_s b) (p_time b) (p_semAdd b) (stateArray b).

Definition set_p_prnt (v : pcb_PTR) (b : pcb_t) : pcb_t :=
  Build_pcb_t (p_next b) (p_prev b) v (p_child b) (p_nextSib b) (p_prevSib b)
    (p_s b) (p_time b) (p_semAdd b) (stateArray b).

Definition set_p_child (v : pcb_PTR) (b : pcb_t) : pcb_t :=
  Build_pcb_t (p_next b) (p_prev b) (p_prnt b) v (p_nextSib b) (p_prevSib b)
    (p_s b) (p_time b) (p_semAdd b) (stateArray b).

Definition set_p_nextSib (v : pcb_PTR) (b : pcb_t) : pcb_t :=
  Build_pcb_t (p_next b) (p_prev b) (p_prnt b) (p_child b) v (p_prevSib b)
    (p_s b) (p_time b) (p_semAdd b) (stateArray b).

Definition set_p_prevSib (v : pcb_PTR) (b : pcb_t) : pcb_t :=
  Build_pcb_t (p_next b) (p_prev b) (p_prnt b) (p_child b) (p_nextSib b) v
    (p_s b) (p_time b) (p_semAdd b) (stateArray b).

Definition set_p_s (v : state_t) (b : pcb_t) : pcb_t :=
  Build_pcb_t (p_next b) (p_prev b) (p_prnt b) (p_child b) (p_nextSib b)
    (p_prevSib b) v (p_time b) (p_semAdd b) (stateArray b).

Definition set_p_time (v : Z) (b : pcb_t) : pcb_t :=
  Build_pcb_t (p_next b) (p_prev b) (p_prnt b) (p_child b) (p_nextSib b)
    (p_prevSib b) (p_s b) v (p_semAdd b) (stateArray b).

Definition set_p_semAdd (v : Z) (b : pcb_t) : pcb_t :=
  Build_pcb_t (p_next b) (p_prev b) (p_prnt b) (p_child b) (p_nextSib b)
    (p_prevSib b) (p_s b) (p_time b) v (stateArray b).

Definition set_stateArray (v : list p_states) (b : pcb_t) : pcb_t :=
  Build_pcb_t (p_next b) (p_prev b) (p_prnt b) (p_child b) (p_nextSib b)
    (p_prevSib b) (p_s b) (p_time b) (p_semAdd b) v.


(** A zero-initialised [pcb_t] (static storage). *)
Definition zero_pcb : pcb_t :=
  Build_pcb_t NULL NULL NULL NULL NULL NULL zero_state 0 0
    [Build_p_states 0 0; Build_p_states 0 0; Build_p_states 0 0].

(** ** The semaphore descriptor of phase1/asl.c *)

Record semd_t : Type := {
  s_next : semd_PTR;
  s_semAdd : Z;
  s_procQ : pcb_PTR
}.

Definition set_s_next (v : semd_PTR) (d : semd_t) : semd_t :=
  Build_semd_t v (s_semAdd d) (s_procQ d).

Definition set_s_semAdd (v : Z) (d : semd_t) : semd_t :=
  Build_semd_t (s_next d) v (s_procQ d).

Definition set_s_procQ (v : pcb_PTR) (d : semd_t) : semd_t :=
  Build_semd_t (s_next d) (s_semAdd d) v.


Definition zero_semd : semd_t := Build_semd_t NULL 0 NULL.

(** ** The kernel state

    The statics and globals of the six modules, and the part of the
    machine the nucleus touches: [intMem] holds the [int] objects that
    semaphore addresses point to (among them [g_lotOfSemaphores]),
    [stateMem] the [state_t] objects addressed by pointer (the old and
    new areas and the states handed in by processes), [devRegs] the
    device registers, [pendingMap] the pending-interrupt bitmaps,
    [timerReg] and [statusReg] the values last passed to [setTIMER] and
    [setSTATUS].  [todReads n] is what the [n]-th call of [getTODLO]
    returns; [todCount] counts the calls made so far. *)
Record kstate : Type := {
  procTable : list pcb_t;
  pcbList_h : pcb_PTR;
  semdTable : list semd_t;
  semd_h : semd_PTR;
  semdFree_h : semd_PTR;
  g_procCount : Z;
  g_softBlockCount : Z;
  g_startTOD : Z;
  g_endTOD : Z;
  g_accTime : Z;
  g_endOfInterval : Z;
  g_currentProc : pcb_PTR;
  g_readyQueue : pcb_PTR;
  g_deviceStatus : Z -> Z;
  intMem : Z -> Z;
  stateMem : Z -> state_t;
  devRegs : Z -> devreg_t;
  pendingMap : Z -> Z;
  timerReg : Z;
  statusReg : Z;
  todReads : nat -> Z;
  todCount : nat
}.

Definition set_procTable (v : list pcb_t) (k : kstate) : kstate :=
  Build_kstate v (pcbList_h k) (semdTable k) (semd_h k) (semdFree_h k)
    (g_procCount k) (g_softBlockCount k) (g_startTOD k) (g_endTOD k)
    (g_accTime k) (g_endOfInterval k) (g_currentProc k) (g_readyQueue k)
    (g_deviceStatus k) (intMem k) (stateMem k) (devRegs k) (pendingMap k)
    (timerReg k) (statusReg k) (todReads k) (todCount k).

Definition set_pcbList_h (v : pcb_PTR) (k : kstate) : kstate :=
  Build_kstate (procTable k) v (semdTable k) (semd_h k) (semdFree_h k)
    (g_procCount k) (g_softBlockCount k) (g_startTOD k) (g_endTOD k)
    (g_accTime k) (g_endOfInterval k) (g_currentProc k) (g_readyQueue k)
    (g_deviceStatus k) (intMem k) (stateMem k) (devRegs k) (pendingMap k)
    (timerReg k) (statusReg k) (todReads k) (todCount k).

Definition set_semdTable (v : list semd_t) (k : kstate) : kstate :=
  Build_kstate (procTable k) (pcbList_h k) v (semd_h k) (semdFree_h k)
    (g_procCount k) (g_softBlockCount k) (g_startTOD k) (g_endTOD k)
    (g_accTime k) (g_endOfInterval k) (g_currentProc k) (g_readyQueue k)
    (g_deviceStatus k) (intMem k) (stateMem k) (devRegs k) (pendingMap k)
    (timerReg k) (statusReg k) (todReads k) (todCount k).

Definition set_semd_h (v : semd_PTR) (k : kstate) : kstate :=
  Build_kstate (procTable k) (pcbList_h k) (semdTable k) v (semdFree_h k)
    (g_procCount k) (g_softBlockCount k) (g_startTOD k) (g_endTOD k)
    (g_accTime k) (g_endOfInterval k) (g_currentProc k) (g_readyQueue k)
    (g_deviceStatus k) (intMem k) (stateMem k) (devRegs k) (pendingMap k)
    (timerReg k) (statusReg k) (todReads k) (todCount k).

Definition set_semdFree_h (v : semd_PTR) (k : kstate) : kstate :=
  Build_kstate (procTable k) (pcbList_h k) (semdTable k) (semd_h k) v
    (g_procCount k) (g_softBlockCount k) (g_startTOD k) (g_endTOD k)
    (g_accTime k) (g_endOfInterval k) (g_currentProc k) (g_readyQueue k)
    (g_deviceStatus k) (intMem k) (stateMem k) (devRegs k) (pendingMap k)
    (timerReg k) (statusReg k) (todReads k) (todCount k).

Definition set_g_procCount (v : Z) (k : kstate) : kstate :=
  Build_kstate (procTable k) (pcbList_h k) (semdTable k) (semd_h k)
    (semdFree_h k) v (g_softBlockCount k) (g_startTOD k) (g_endTOD k)
    (g_accTime k) (g_endOfInterval k) (g_currentProc k) (g_readyQueue k)
    (g_deviceStatus k) (intMem k) (stateMem k) (devRegs k) (pendingMap k)
    (timerReg k) (statusReg k) (todReads k) (todCount k).

Definition set_g_softBlockCount (v : Z) (k : kstate) : kstate :=
  Build_kstate (procTable k) (pcbList_h k) (semdTable k) (semd_h k)
    (semdFree_h k) (g_procCount k) v (g_startTOD k) (g_endTOD k) (g_accTime k)
    (g_endOfInterval k) (g_currentProc k) (g_readyQueue k) (g_deviceStatus k)
    (intMem k) (stateMem k) (devRegs k) (pendingMap k) (timerReg k)
    (statusReg k) (todReads k) (todCount k).

Definition set_g_startTOD (v : Z) (k : kstate) : kstate :=
  Build_kstate (procTable k) (pcbList_h k) (semdTable k) (semd_h k)
    (semdFree_h k) (g_procCount k) (g_softBlockCount k) v (g_endTOD k)
    (g_accTime k) (g_endOfInterval k) (g_currentProc k) (g_readyQueue k)
    (g_deviceStatus k) (intMem k) (stateMem k) (devRegs k) (pendingMap k)
    (timerReg k) (statusReg k) (todReads k) (todCount k).

Definition set_g_endTOD (v : Z) (k : kstate) : kstate :=
  Build_kstate (procTable k) (pcbList_h k) (semdTable k) (semd_h k)
    (semdFree_h k) (g_procCount k) (g_softBlockCount k) (g_startTOD k) v
    (g_accTime k) (g_endOfInterval k) (g_currentProc k) (g_readyQueue k)
    (g_deviceStatus k) (intMem k) (stateMem k) (devRegs k) (pendingMap k)
    (timerReg k) (statusReg k) (todReads k) (todCount k).

Definition set_g_accTime (v : Z) (k : kstate) : kstate :=
  Build_kstate (procTable k) (pcbList_h k) (semdTable k) (semd_h k)
    (semdFree_h k) (g_procCount k) (g_softBlockCount k) (g_startTOD k)
    (g_endTOD k) v (g_endOfInterval k) (g_currentProc k) (g_readyQueue k)
    (g_deviceStatus k) (intMem k) (stateMem k) (devRegs k) (pendingMap k)
    (timerReg k) (statusReg k) (todReads k) (todCount k).

Definition set_g_endOfInterval (v : Z) (k : kstate) : kstate :=
  Build_kstate (procTable k) (pcbList_h k) (semdTable k) (semd_h k)
    (semdFree_h k) (g_procCount k) (g_softBlockCount k) (g_startTOD k)
    (g_endTOD k) (g_accTime k) v (g_currentProc k) (g_readyQueue k)
    (g_deviceStatus k) (intMem k) (stateMem k) (devRegs k) (pendingMap k)
    (timerReg k) (statusReg k) (todReads k) (todCount k).

Definition set_g_currentProc (v : pcb_PTR) (k : kstate) : kstate :=
  Build_kstate (procTable k) (pcbList_h k) (semdTable k) (semd_h k)
    (semdFree_h k) (g_procCount k) (g_softBlockCount k) (g_startTOD k)
    (g_endTOD k) (g_accTime k) (g_endOfInterval k) v (g_readyQueue k)
    (g_deviceStatus k) (intMem k) (stateMem k) (devRegs k) (pendingMap k)
    (timerReg k) (statusReg k) (todReads k) (todCount k).

Definition set_g_readyQueue (v : pcb_PTR) (k : kstate) : kstate :=
  Build_kstate (procTable k) (pcbList_h k) (semdTable k) (semd_h k)
    (semdFree_h k) (g_procCount k) (g_softBlockCount k) (g_startTOD k)
    (g_endTOD k) (g_accTime k) (g_endOfInterval k) (g_currentProc k) v
    (g_deviceStatus k) (intMem k) (stateMem k) (devRegs k) (pendingMap k)
    (timerReg k) (statusReg k) (todReads k) (todCount k).

Definition set_g_deviceStatus (v : Z -> Z) (k : kstate) : kstate :=
  Build_kstate (procTable k) (pcbList_h k) (semdTable k) (semd_h k)
    (semdFree_h k) (g_procCount k) (g_softBlockCount k) (g_startTOD k)
    (g_endTOD k) (g_accTime k) (g_endOfInterval k) (g_currentProc k)
    (g_readyQueue k) v (intMem k) (stateMem k) (devRegs k) (pendingMap k)
    (timerReg k) (statusReg k) (todReads k) (todCount k).

Definition set_intMem (v : Z -> Z) (k : kstate) : kstate :=
  Build_kstate (procTable k) (pcbList_h k) (semdTable k) (semd_h k)
    (semdFree_h k) (g_procCount k) (g_softBlockCount k) (g_startTOD k)
    (g_endTOD k) (g_accTime k) (g_endOfInterval k) (g_currentProc k)
    (g_readyQueue k) (g_deviceStatus k) v (stateMem k) (devRegs k)
    (pendingMap k) (timerReg k) (statusReg k) (todReads k) (todCount k).

Definition set_stateMem (v : Z -> state_t) (k : kstate) : kstate :=
  Build_kstate (procTable k) (pcbList_h k) (semdTable k) (semd_h k)
    (semdFree_h k) (g_procCount k) (g_softBlockCount k) (g_startTOD k)
    (g_endTOD k) (g_accTime k) (g_endOfInterval k) (g_currentProc k)
    (g_readyQueue k) (g_deviceStatus k) (intMem k) v (devRegs k)
    (pendingMap k) (timerReg k) (statusReg k) (todReads k) (todCount k).

Definition set_devRegs (v : Z -> devreg_t) (k : kstate) : kstate :=
  Build_kstate (procTable k) (pcbList_h k) (semdTable k) (semd_h k)
    (semdFree_h k) (g_procCount k) (g_softBlockCount k) (g_startTOD k)
    (g_endTOD k) (g_accTime k) (g_endOfInterval k) (g_currentProc k)
    (g_readyQueue k) (g_deviceStatus k) (intMem k) (stateMem k) v
    (pendingMap k) (timerReg k) (statusReg k) (todReads k) (todCount k).

Definition set_timerReg (v : Z) (k : kstate) : kstate :=
  Build_kstate (procTable k) (pcbList_h k) (semdTable k) (semd_h k)
    (semdFree_h k) (g_procCount k) (g_softBlockCount k) (g_startTOD k)
    (g_endTOD k) (g_accTime k) (g_endOfInterval k) (g_currentProc k)
    (g_readyQueue k) (g_deviceStatus k) (intMem k) (stateMem k) (devRegs k)
    (pendingMap k) v (statusReg k) (todReads k) (todCount k).

Definition set_statusReg (v : Z) (k : kstate) : kstate :=
  Build_kstate (procTable k) (pcbList_h k) (semdTable k) (semd_h k)
    (semdFree_h k) (g_procCount k) (g_softBlockCount k) (g_startTOD k)
    (g_endTOD k) (g_accTime k) (g_endOfInterval k) (g_currentProc k)
    (g_readyQueue k) (g_deviceStatus k) (intMem k) (stateMem k) (devRegs k)
    (pendingMap k) (timerReg k) v (todReads k) (todCount k).

Definition set_todCount (v : nat) (k : kstate) : kstate :=
  Build_kstate (procTable k) (pcbList_h k) (semdTable k) (semd_h k)
    (semdFree_h k) (g_procCount k) (g_softBlockCount k) (g_startTOD k)
    (g_endTOD k) (g_accTime k) (g_endOfInterval k) (g_currentProc k)
    (g_readyQueue k) (g_deviceStatus k) (intMem k) (stateMem k) (devRegs k)
    (pendingMap k) (timerReg k) (statusReg k) (todReads k) v.


(** ** The nucleus monad *)

(** Why a computation stopped.  The first four are the ROM services that
    do not return; the last three are the undefined continuations of the
    C program (a dereference of [NULL], an index outside a static array,
    a loop that outruns the size of the table it walks). *)
Inductive stop : Type :=
  | LoadState
  | Halt
  | Panic
  | Wait
  | NullDeref
  | BadIndex
  | OutOfFuel.

Inductive result (A : Type) : Type :=
  | Ret (a : A) (k : kstate)
  | Stop (e : stop) (k : kstate).
Arguments Ret {A} a k.
Arguments Stop {A} e k.

Definition M (A : Type) : Type := kstate -> result A.

Definition ret {A : Type} (a : A) : M A := fun k => Ret a k.

Definition bind {A B : Type} (m : M A) (f : A -> M B) : M B :=
  fun k => match m k with
           | Ret a k' => f a k'
           | Stop e k' => Stop e k'
           end.

Definition gets {A : Type} (f : kstate -> A) : M A := fun k => Ret (f k) k.
Definition modify (f : kstate -> kstate) : M unit := fun k => Ret tt (f k).
Definition stopWith {A : Type} (e : stop) : M A := fun k => Stop e k.

Declare Scope nucleus_scope.
Delimit Scope nucleus_scope with nucleus.
Notation "x <- m ;; f" := (bind m (fun x => f))
  (at level 20, m at level 99, f at level 200) : nucleus_scope.
Notation "m ;; f" := (bind m (fun _ => f))
  (at level 100, f at level 200, right associativity) : nucleus_scope.
Local Open Scope nucleus_scope.

(** [if (c) { body }] with no [else]. *)
Definition when (c : bool) (body : M unit) : M unit :=
  if c then body else ret tt.

(** Pointer equality and the test against [NULL]. *)
Definition ptr_eqb (p q : option nat) : bool :=
  match p, q with
  | None, None => true
  | Some i, Some j => Nat.eqb i j
  | _, _ => false
  end.

Definition isNull (p : option nat) : bool :=
  match p with None => true | Some _ => false end.

(** Update of one cell of a memory indexed by address. *)
Definition store {A : Type} (a : Z) (v : A) (m : Z -> A) : Z -> A :=
  fun x => if Z.eqb x a then v else m x.

(** *** Access to the tables and memories *)

(** [p->field] for a [pcb_PTR]. *)
Definition rdPcb {A : Type} (p : pcb_PTR) (field : pcb_t -> A) : M A :=
  fun k => match p with
           | None => Stop NullDeref k
           | Some i => match procTable k !! i with
                       | Some b => Ret (field b) k
                       | None => Stop BadIndex k
                       end
           end.

(** [p->field = v], given as the update of the structure. *)
Definition wrPcb (p : pcb_PTR) (upd : pcb_t -> pcb_t) : M unit :=
  fun k => match p with
           | None => Stop NullDeref k
           | Some i => match procTable k !! i with
                       | Some b => Ret tt (set_procTable (<[i := upd b]> (procTable k)) k)
                       | None => Stop BadIndex k
                       end
           end.

(** [d->field] and [d->field = v] for a pointer to a [semd_t]. *)
Definition rdSemd {A : Type} (d : semd_PTR) (field : semd_t -> A) : M A :=
  fun k => match d with
           | None => Stop NullDeref k
           | Some i => match semdTable k !! i with
                       | Some x => Ret (field x) k
                       | None => Stop BadIndex k
                       end
           end.

Definition wrSemd (d : semd_PTR) (upd : semd_t -> semd_t) : M unit :=
  fun k => match d with
           | None => Stop NullDeref k
           | Some i => match semdTable k !! i with
                       | Some x => Ret tt (set_semdTable (<[i := upd x]> (semdTable k)) k)
                       | None => Stop BadIndex k
                       end
           end.

(** [*a] and [*a = v] for an [int *]. *)
Definition rdInt (a : Z) : M Z :=
  fun k => if Z.eqb a 0 then Stop NullDeref k else Ret (intMem k a) k.

Definition wrInt (a : Z) (v : Z) : M unit :=
  fun k => if Z.eqb a 0 then Stop NullDeref k
           else Ret tt (set_intMem (store a v (intMem k)) k).

(** [*a] and [*a = v] for a [state_t *] into [stateMem]. *)
Definition rdState (a : Z) : M state_t :=
  fun k => if Z.eqb a 0 then Stop NullDeref k else Ret (stateMem k a) k.

Definition wrState (a : Z) (v : state_t) : M unit :=
  fun k => if Z.eqb a 0 then Stop NullDeref k
           else Ret tt (set_stateMem (store a v (stateMem k)) k).

(** The objects a [pcb_PTR *] of the sources points to: the callers of
    the queue functions pass [&pcbList_h], [&g_readyQueue] or
    [&(semd->s_procQ)]. *)
Inductive tailLoc : Type :=
  | At_pcbList_h
  | At_g_readyQueue
  | At_s_procQ (d : semd_PTR).

(** [*tp] *)
Definition rdTail (tp : tailLoc) : M pcb_PTR :=
  match tp with
  | At_pcbList_h => gets pcbList_h
  | At_g_readyQueue => gets g_readyQueue
  | At_s_procQ d => rdSemd d s_procQ
  end.

(** [*tp = p] *)
Definition wrTail (tp : tailLoc) (p : pcb_PTR) : M unit :=
  match tp with
  | At_pcbList_h => modify (set_pcbList_h p)
  | At_g_readyQueue => modify (set_g_readyQueue p)
  | At_s_procQ d => wrSemd d (set_s_procQ p)
  end.

(** ** phase1/pcb.c *)

Definition emptyProcQ (tp : pcb_PTR) : bool := isNull tp.

Definition mkEmptyProcQ : pcb_PTR := NULL.

Definition headProcQ (tp : pcb_PTR) : M pcb_PTR :=
  if emptyProcQ tp then ret NULL else rdPcb tp p_next.

Definition insertProcQ (tp : tailLoc) (p : pcb_PTR) : M unit :=
  t <- rdTail tp ;;
  (if emptyProcQ t then
     wrPcb p (set_p_next p) ;;
     wrPcb p (set_p_prev p)
   else
     t <- rdTail tp ;;
     n <- rdPcb t p_next ;;
     wrPcb p (set_p_next n) ;;
     t <- rdTail tp ;;
     n <- rdPcb t p_next ;;
     wrPcb n (set_p_prev p) ;;
     t <- rdTail tp ;;
     wrPcb t (set_p_next p) ;;
     t <- rdTail tp ;;
     wrPcb p (set_p_prev t)) ;;
  wrTail tp p.

Definition removeProcQ (tp : tailLoc) : M pcb_PTR :=
  t <- rdTail tp ;;
  if emptyProcQ t then ret NULL
  else
    n <- rdPcb t p_next ;;
    if ptr_eqb n t then
      wrTail tp NULL ;;
      ret t
    else
      t <- rdTail tp ;;
      r <- rdPcb t p_next ;;
      nn <- rdPcb r p_next ;;
      wrPcb t (set_p_next nn) ;;
      t <- rdTail tp ;;
      n <- rdPcb t p_next ;;
      wrPcb n (set_p_prev t) ;;
      wrPcb r (set_p_next NULL) ;;
      wrPcb r (set_p_prev NULL) ;;
      ret r.

(** The [while (pcbAfterTP != *tp)] loop of [outProcQ]; a queue holds at
    most all the ProcBlks of the table, which bounds the walk. *)
Fixpoint outProcQ_while (fuel : nat) (tp : tailLoc) (p pcbAfterTP : pcb_PTR)
  : M pcb_PTR :=
  match fuel with
  | O => stopWith OutOfFuel
  | S fuel' =>
    t <- rdTail tp ;;
    if ptr_eqb pcbAfterTP t then ret NULL
    else if ptr_eqb pcbAfterTP p then
      n <- rdPcb pcbAfterTP p_next ;;
      pr <- rdPcb pcbAfterTP p_prev ;;
      wrPcb n (set_p_prev pr) ;;
      pr <- rdPcb pcbAfterTP p_prev ;;
      n <- rdPcb pcbAfterTP p_next ;;
      wrPcb pr (set_p_next n) ;;
      wrPcb pcbAfterTP (set_p_next NULL) ;;
      wrPcb pcbAfterTP (set_p_prev NULL) ;;
      ret pcbAfterTP
    else
      n <- rdPcb pcbAfterTP p_next ;;
      outProcQ_while fuel' tp p n
  end.

Definition outProcQ (tp : tailLoc) (p : pcb_PTR) : M pcb_PTR :=
  t <- rdTail tp ;;
  if emptyProcQ t then ret NULL
  else if ptr_eqb p t then
    n <- rdPcb t p_next ;;
    (if negb (ptr_eqb n t) then
       t <- rdTail tp ;;
       n <- rdPcb t p_next ;;
       pr <- rdPcb t p_prev ;;
       wrPcb n (set_p_prev pr) ;;
       t <- rdTail tp ;;
       pr <- rdPcb t p_prev ;;
       n <- rdPcb t p_next ;;
       wrPcb pr (set_p_next n) ;;
       t <- rdTail tp ;;
       pr <- rdPcb t p_prev ;;
       wrTail tp pr
     else
       wrTail tp NULL) ;;
    ret p
  else
    pcbAfterTP <- rdPcb t p_next ;;
    fuel <- gets (fun k => S (length (procTable k))) ;;
    outProcQ_while fuel tp p pcbAfterTP.

Definition allocPcb : M pcb_PTR :=
  h <- gets pcbList_h ;;
  if isNull h then ret NULL
  else
    unusedPCB <- removeProcQ At_pcbList_h ;;
    wrPcb unusedPCB (set_p_next NULL) ;;
    wrPcb unusedPCB (set_p_prev NULL) ;;
    wrPcb unusedPCB (set_p_prnt NULL) ;;
    wrPcb unusedPCB (set_p_child NULL) ;;
    wrPcb unusedPCB (set_p_nextSib NULL) ;;
    wrPcb unusedPCB (set_p_prevSib NULL) ;;
    wrPcb unusedPCB (set_p_time 0) ;;
    ret unusedPCB.

Definition freePcb (p : pcb_PTR) : M unit :=
  insertProcQ At_pcbList_h p.

(** [for (int i = 0; i < n; i++) body(i)] over table indices. *)
Fixpoint forIndices (l : list nat) (body : nat -> M unit) : M unit :=
  match l with
  | [] => ret tt
  | i :: l' => body i ;; forIndices l' body
  end.

Definition initPcbs : M unit :=
  modify (set_pcbList_h mkEmptyProcQ) ;;
  forIndices (seq 0 MAXPROC) (fun i => freePcb (Some i)).

Definition emptyChild (p : pcb_PTR) : M bool :=
  c <- rdPcb p p_child ;;
  ret (isNull c).

Definition insertChild (prnt p : pcb_PTR) : M unit :=
  e <- emptyChild prnt ;;
  (if e then
     wrPcb p (set_p_prevSib NULL)
   else
     c <- rdPcb prnt p_child ;;
     wrPcb c (set_p_nextSib p) ;;
     c <- rdPcb prnt p_child ;;
     wrPcb p (set_p_prevSib c)) ;;
  wrPcb p (set_p_nextSib NULL) ;;
  wrPcb prnt (set_p_child p) ;;
  wrPcb p (set_p_prnt prnt).

Definition removeChild (prnt : pcb_PTR) : M pcb_PTR :=
  e <- emptyChild prnt ;;
  if e then ret NULL
  else
    firstChild <- rdPcb prnt p_child ;;
    ps <- rdPcb firstChild p_prevSib ;;
    if isNull ps then
      wrPcb firstChild (set_p_prnt NULL) ;;
      wrPcb prnt (set_p_child NULL) ;;
      ret firstChild
    else
      ps <- rdPcb firstChild p_prevSib ;;
      wrPcb prnt (set_p_child ps) ;;
      ps <- rdPcb firstChild p_prevSib ;;
      wrPcb ps (set_p_nextSib NULL) ;;
      wrPcb firstChild (set_p_prevSib NULL) ;;
      wrPcb firstChild (set_p_prnt NULL) ;;
      ret firstChild.

Definition outChild (p : pcb_PTR) : M pcb_PTR :=
  pr <- rdPcb p p_prnt ;;
  if isNull pr then ret NULL
  else
    pr <- rdPcb p p_prnt ;;
    c <- rdPcb pr p_child ;;
    if ptr_eqb p c then
      pr <- rdPcb p p_prnt ;;
      removeChild pr
    else
      ps <- rdPcb p p_prevSib ;;
      (if isNull ps then
         ns <- rdPcb p p_nextSib ;;
         wrPcb ns (set_p_prevSib NULL)
       else
         ns <- rdPcb p p_nextSib ;;
         ps <- rdPcb p p_prevSib ;;
         wrPcb ns (set_p_prevSib ps) ;;
         ps <- rdPcb p p_prevSib ;;
         ns <- rdPcb p p_nextSib ;;
         wrPcb ps (set_p_nextSib ns) ;;
         wrPcb p (set_p_prevSib NULL)) ;;
      wrPcb p (set_p_nextSib NULL) ;;
      wrPcb p (set_p_prnt NULL) ;;
      ret p.

(** ** phase1/asl.c *)

Definition freeSemd (semd : semd_PTR) : M unit :=
  h <- gets semdFree_h ;;
  if isNull h then
    modify (set_semdFree_h semd) ;;
    h <- gets semdFree_h ;;
    wrSemd h (set_s_next NULL)
  else
    h <- gets semdFree_h ;;
    wrSemd semd (set_s_next h) ;;
    modify (set_semdFree_h semd).

Definition allocateSemd : M semd_PTR :=
  h <- gets semdFree_h ;;
  if isNull h then ret NULL
  else
    freeSemd' <- gets semdFree_h ;;
    h <- gets semdFree_h ;;
    n <- rdSemd h s_next ;;
    (if isNull n then
       modify (set_semdFree_h NULL)
     else
       h <- gets semdFree_h ;;
       n <- rdSemd h s_next ;;
       modify (set_semdFree_h n) ;;
       wrSemd freeSemd' (set_s_next NULL)) ;;
    wrSemd freeSemd' (set_s_next NULL) ;;
    wrSemd freeSemd' (set_s_semAdd 0) ;;
    wrSemd freeSemd' (set_s_procQ NULL) ;;
    ret freeSemd'.

(** The loop of [findPrevSemd].  Its condition is
    [(currentSemd->s_next->s_semAdd < semAdd) && (currentSemd->s_next != NULL)]:
    the left operand is evaluated first and reads through [s_next]. *)
Fixpoint findPrevSemd_while (fuel : nat) (semAdd : Z) (currentSemd : semd_PTR)
  : M semd_PTR :=
  match fuel with
  | O => stopWith OutOfFuel
  | S fuel' =>
    n <- rdSemd currentSemd s_next ;;
    key <- rdSemd n s_semAdd ;;
    if Z.ltb key semAdd then
      n <- rdSemd currentSemd s_next ;;
      if negb (isNull n) then
        n <- rdSemd currentSemd s_next ;;
        findPrevSemd_while fuel' semAdd n
      else ret currentSemd
    else ret currentSemd
  end.

Definition findPrevSemd (semAdd : Z) : M semd_PTR :=
  currentSemd <- gets semd_h ;;
  fuel <- gets (fun k => S (length (semdTable k))) ;;
  findPrevSemd_while fuel semAdd currentSemd.

(** [0xFFFFFF], the key of the bottom dummy node. *)
Definition MAXADDR : Z := 0xFFFFFF.

Definition initASL : M unit :=
  modify (set_semdFree_h NULL) ;;
  forIndices (seq 0 (MAXPROC + 2)) (fun i => freeSemd (Some i)) ;;
  topDummyNode <- allocateSemd ;;
  wrSemd topDummyNode (set_s_next NULL) ;;
  wrSemd topDummyNode (set_s_semAdd 0) ;;
  bottomDummyNode <- allocateSemd ;;
  wrSemd bottomDummyNode (set_s_next NULL) ;;
  wrSemd bottomDummyNode (set_s_semAdd MAXADDR) ;;
  modify (set_semd_h topDummyNode).

(** Returns [TRUE] (here [true]) only when no descriptor is left. *)
Definition insertBlocked (semAdd : Z) (p : pcb_PTR) : M bool :=
  prevSemd <- findPrevSemd semAdd ;;
  n <- rdSemd prevSemd s_next ;;
  inactive <- (if isNull n then ret true
               else
                 n <- rdSemd prevSemd s_next ;;
                 key <- rdSemd n s_semAdd ;;
                 ret (negb (Z.eqb key semAdd))) ;;
  if (inactive : bool) then
    newSemd <- allocateSemd ;;
    if isNull newSemd then ret true
    else
      wrSemd newSemd (set_s_semAdd semAdd) ;;
      key <- rdSemd newSemd s_semAdd ;;
      wrPcb p (set_p_semAdd key) ;;
      wrSemd newSemd (set_s_procQ mkEmptyProcQ) ;;
      insertProcQ (At_s_procQ newSemd) p ;;
      n <- rdSemd prevSemd s_next ;;
      wrSemd newSemd (set_s_next n) ;;
      wrSemd prevSemd (set_s_next newSemd) ;;
      ret false
  else
    n <- rdSemd prevSemd s_next ;;
    insertProcQ (At_s_procQ n) p ;;
    wrPcb p (set_p_semAdd semAdd) ;;
    ret false.

(** The guard shared by [removeBlocked], [outBlocked] and [headBlocked]:
    [(prevSemd->s_next->s_semAdd != semAdd) || (prevSemd->s_next == NULL)]. *)
Definition notOnASL (prevSemd : semd_PTR) (semAdd : Z) : M bool :=
  n <- rdSemd prevSemd s_next ;;
  key <- rdSemd n s_semAdd ;;
  if negb (Z.eqb key semAdd) then ret true
  else
    n <- rdSemd prevSemd s_next ;;
    ret (isNull n).

(** The tail shared by [removeBlocked] and [outBlocked]: when the queue
    of the descriptor has become empty, unweave it and free it. *)
Definition releaseIfEmpty (prevSemd : semd_PTR) : M unit :=
  n <- rdSemd prevSemd s_next ;;
  q <- rdSemd n s_procQ ;;
  when (emptyProcQ q)
    (retSemd <- rdSemd prevSemd s_next ;;
     n <- rdSemd retSemd s_next ;;
     wrSemd prevSemd (set_s_next n) ;;
     wrSemd retSemd (set_s_next NULL) ;;
     freeSemd retSemd).

Definition removeBlocked (semAdd : Z) : M pcb_PTR :=
  prevSemd <- findPrevSemd semAdd ;;
  absent <- notOnASL prevSemd semAdd ;;
  if (absent : bool) then ret NULL
  else
    n <- rdSemd prevSemd s_next ;;
    retPcb <- removeProcQ (At_s_procQ n) ;;
    releaseIfEmpty prevSemd ;;
    ret retPcb.

Definition outBlocked (p : pcb_PTR) : M pcb_PTR :=
  semAdd <- rdPcb p p_semAdd ;;
  prevSemd <- findPrevSemd semAdd ;;
  semAdd <- rdPcb p p_semAdd ;;
  absent <- notOnASL prevSemd semAdd ;;
  if (absent : bool) then ret NULL
  else
    n <- rdSemd prevSemd s_next ;;
    retPcb <- outProcQ (At_s_procQ n) p ;;
    if isNull retPcb then ret NULL
    else
      releaseIfEmpty prevSemd ;;
      ret retPcb.

Definition headBlocked (semAdd : Z) : M pcb_PTR :=
  prevSemd <- findPrevSemd semAdd ;;
  absent <- notOnASL prevSemd semAdd ;;
  if (absent : bool) then ret NULL
  else
    n <- rdSemd prevSemd s_next ;;
    q <- rdSemd n s_procQ ;;
    headProcQ q.

(** ** Phase 2: what the link and the platform fix *)

(** The address the linker gives [g_lotOfSemaphores], and the values the
    platform headers and the link give to [RAM_TOP], [FRAME_SIZE] and to
    the entry points that [main] writes into the new areas. *)
Record layout : Type := {
  lotOfSemaphores : Z;
  RAM_TOP : Z;
  FRAME_SIZE : Z;
  entry_SYSCallHandler : Z;
  entry_PGMTrapHandler : Z;
  entry_TLBTrapHandler : Z;
  entry_interruptHandler : Z;
  entry_test : Z
}.

(** Where a [state_t *] of the sources points: into [stateMem], or at
    the [p_s] member of a ProcBlk. *)
Inductive stateLoc : Type :=
  | AtAddr (a : Z)
  | At_p_s (p : pcb_PTR).

Definition rdStateLoc (l : stateLoc) : M state_t :=
  match l with
  | AtAddr a => rdState a
  | At_p_s p => rdPcb p p_s
  end.

Definition wrStateLoc (l : stateLoc) (v : state_t) : M unit :=
  match l with
  | AtAddr a => wrState a v
  | At_p_s p => wrPcb p (set_p_s v)
  end.

(** The ROM services and register accessors of the platform library.
    [getTODLO] returns an [unsigned int]. *)
Definition getTODLO : M Z :=
  fun k => Ret (wrap_uint (todReads k (todCount k))) (set_todCount (S (todCount k)) k).

Definition setTIMER (v : Z) : M unit := modify (set_timerReg (wrap_uint v)).
Definition setSTATUS (v : Z) : M unit := modify (set_statusReg (wrap_uint v)).
Definition HALT : M unit := stopWith Halt.
Definition PANIC : M unit := stopWith Panic.
Definition WAIT : M unit := stopWith Wait.

(** [LDST(&(p->p_s))]: the state is read, control never comes back. *)
Definition LDST (p : pcb_PTR) : M unit :=
  rdPcb p p_s ;;
  stopWith LoadState.

Definition oldPGM : Z := PGMTOLDADD.
Definition oldTLB : Z := TLBOLDADD.
Definition oldSYS : Z := SYSOLDADD.

(** ** phase2/exceptions.c, helpers *)

Definition copyState (origin destination : stateLoc) : M unit :=
  o <- rdStateLoc origin ;;
  rdStateLoc destination ;;
  wrStateLoc destination
    (Build_state_t (a1 o) (a2 o) (a3 o) (a4 o) (v1 o) (v2 o) (v3 o) (v4 o)
       (v5 o) (v6 o) (sl o) (fp o) (ip o) (sp o) (lr o) (pc o) (cpsr o)
       (CP15_Control o) (CP15_EntryHi o) (CP15_Cause o) (TOD_Hi o) (TOD_Low o)).

Definition loadState : M unit :=
  c <- gets g_currentProc ;;
  LDST c.

Definition updateTime : M unit :=
  t <- getTODLO ;;
  modify (set_g_endTOD (wrap_int t)) ;;
  e <- gets g_endTOD ;;
  s <- gets g_startTOD ;;
  modify (set_g_accTime (wrap_int (e - s))) ;;
  c <- gets g_currentProc ;;
  pt <- rdPcb c p_time ;;
  acc <- gets g_accTime ;;
  wrPcb c (set_p_time (wrap_int (pt + acc))) ;;
  e <- gets g_endTOD ;;
  modify (set_g_startTOD e).

(** ** phase2/scheduler.c *)

Definition scheduler : M unit :=
  rq <- gets g_readyQueue ;;
  when (emptyProcQ rq)
    (n <- gets g_procCount ;;
     when (Z.eqb n 0) HALT ;;
     sb <- gets g_softBlockCount ;;
     when (Z.eqb sb 0) PANIC ;;
     setSTATUS (Z.lor (Z.land ALLOFF INTSENABLED) SYSMODE) ;;
     t <- getTODLO ;;
     modify (set_g_endOfInterval (wrap_int (t + INTERVAL))) ;;
     e <- gets g_endOfInterval ;;
     t <- getTODLO ;;
     setTIMER (e - t) ;;
     WAIT) ;;
  p <- removeProcQ At_g_readyQueue ;;
  modify (set_g_currentProc p) ;;
  e <- gets g_endOfInterval ;;
  t <- getTODLO ;;
  full <- (if Z.ltb (wrap_uint (e - t)) 0 then ret true
           else
             e <- gets g_endOfInterval ;;
             t <- getTODLO ;;
             ret (Z.leb QUANTUM (wrap_uint (e - t)))) ;;
  (if (full : bool) then setTIMER QUANTUM
   else
     e <- gets g_endOfInterval ;;
     t <- getTODLO ;;
     setTIMER (e - t)) ;;
  t <- getTODLO ;;
  modify (set_g_startTOD (wrap_int t)) ;;
  loadState.

(** ** phase2/exceptions.c and phase2/interrupts.c *)

Section Nucleus.

Variable L : layout.

(** [&(g_lotOfSemaphores[i])] *)
Definition semAt (i : Z) : Z := lotOfSemaphores L + 4 * i.

(** [g_lotOfSemaphores[i]] and [g_lotOfSemaphores[i] = v] *)
Definition rdSem (i : Z) : M Z := gets (fun k => intMem k (semAt i)).
Definition wrSem (i : Z) (v : Z) : M unit :=
  modify (fun k => set_intMem (store (semAt i) v (intMem k)) k).

(** [p->stateArray[trapType]] *)
Definition rdSlot (p : pcb_PTR) (trapType : Z) : M p_states :=
  arr <- rdPcb p stateArray ;;
  if Z.ltb trapType 0 then stopWith BadIndex
  else match arr !! Z.to_nat trapType with
       | Some x => ret x
       | None => stopWith BadIndex
       end.

Definition wrSlot (p : pcb_PTR) (trapType : Z) (upd : p_states -> p_states)
  : M unit :=
  x <- rdSlot p trapType ;;
  arr <- rdPcb p stateArray ;;
  wrPcb p (set_stateArray (<[Z.to_nat trapType := upd x]> arr)).

Definition set_oldState (v : Z) (x : p_states) : p_states :=
  Build_p_states v (newState x).
Definition set_newState (v : Z) (x : p_states) : p_states :=
  Build_p_states (oldState x) v.

Definition getSemaphoreIndex (trueLineNumber deviceNumber : Z) : Z :=
  let trueLineNumber := wrap_int (trueLineNumber - DEVICEOFFSET) in
  wrap_int (wrap_int (TOTALDEVICES * trueLineNumber) + deviceNumber).

(** The [while] of [depthFirstMurder] and its recursive call; a process
    tree has no more nodes than the table has ProcBlks, which bounds
    both the depth and the number of children. *)
Fixpoint depthFirstMurder (fuel : nat) (observedProcess : pcb_PTR) : M unit :=
  match fuel with
  | O => stopWith OutOfFuel
  | S fuel' =>
    (fix while (n : nat) : M unit :=
       match n with
       | O => stopWith OutOfFuel
       | S n' =>
         e <- emptyChild observedProcess ;;
         if negb e then
           c <- removeChild observedProcess ;;
           depthFirstMurder fuel' c ;;
           while n'
         else ret tt
       end) fuel ;;
    c <- gets g_currentProc ;;
    (if ptr_eqb c observedProcess then
       outChild observedProcess ;;
       modify (set_g_currentProc NULL)
     else
       sa <- rdPcb observedProcess p_semAdd ;;
       if Z.eqb sa 0 then
         outProcQ At_g_readyQueue observedProcess ;;
         ret tt
       else
         outBlocked observedProcess ;;
         sa <- rdPcb observedProcess p_semAdd ;;
         inLot <- (if Z.leb (semAt 0) sa then
                     sa <- rdPcb observedProcess p_semAdd ;;
                     ret (Z.leb sa (semAt LASTSEMINDEX))
                   else ret false) ;;
         if (inLot : bool) then
           n <- gets g_softBlockCount ;;
           modify (set_g_softBlockCount (wrap_int (n - 1)))
         else
           sa <- rdPcb observedProcess p_semAdd ;;
           v <- rdInt sa ;;
           sa <- rdPcb observedProcess p_semAdd ;;
           wrInt sa (wrap_int (v + 1))) ;;
    freePcb observedProcess ;;
    n <- gets g_procCount ;;
    modify (set_g_procCount (wrap_int (n - 1)))
  end.

Definition terminateProcess : M unit :=
  c <- gets g_currentProc ;;
  fuel <- gets (fun k => S (length (procTable k))) ;;
  depthFirstMurder fuel c ;;
  scheduler.

Definition passUpOrDie (trapType : Z) (oldArea : Z) : M unit :=
  c <- gets g_currentProc ;;
  x <- rdSlot c trapType ;;
  when (Z.eqb (newState x) 0) terminateProcess ;;
  c <- gets g_currentProc ;;
  x <- rdSlot c trapType ;;
  copyState (AtAddr oldArea) (AtAddr (oldState x)) ;;
  c <- gets g_currentProc ;;
  x <- rdSlot c trapType ;;
  c' <- gets g_currentProc ;;
  copyState (AtAddr (newState x)) (At_p_s c') ;;
  loadState.

Definition PGMTrapHandler : M unit := passUpOrDie PGMTRAP oldPGM.
Definition TLBTrapHandler : M unit := passUpOrDie TLBTRAP oldTLB.

Definition createProcess (parentState : Z) : M unit :=
  newPcb <- allocPcb ;;
  (if negb (isNull newPcb) then
     copyState (AtAddr parentState) (At_p_s newPcb) ;;
     c <- gets g_currentProc ;;
     insertChild c newPcb ;;
     insertProcQ At_g_readyQueue newPcb ;;
     n <- gets g_procCount ;;
     modify (set_g_procCount (wrap_int (n + 1))) ;;
     st <- rdState parentState ;;
     wrState parentState (set_a1 (wrap_uint SUCCESS) st)
   else
     st <- rdState parentState ;;
     wrState parentState (set_a1 (wrap_uint FAILURE) st)) ;;
  loadState.

Definition verhogen (semAdd : Z) : M unit :=
  v <- rdInt semAdd ;;
  wrInt semAdd (wrap_int (v + 1)) ;;
  v <- rdInt semAdd ;;
  when (Z.leb v 0)
    (signaledProc <- removeBlocked semAdd ;;
     when (isNull signaledProc) PANIC ;;
     wrPcb signaledProc (set_p_semAdd 0) ;;
     insertProcQ At_g_readyQueue signaledProc) ;;
  loadState.

Definition passeren (semAdd : Z) : M unit :=
  v <- rdInt semAdd ;;
  wrInt semAdd (wrap_int (v - 1)) ;;
  v <- rdInt semAdd ;;
  when (Z.ltb v 0)
    (updateTime ;;
     c <- gets g_currentProc ;;
     insertBlocked semAdd c ;;
     modify (set_g_currentProc NULL) ;;
     scheduler) ;;
  loadState.

Definition spectrapvec (trapType : Z) (oldProcState newProcState : Z) : M unit :=
  c <- gets g_currentProc ;;
  x <- rdSlot c trapType ;;
  when (Z.eqb (oldState x) 0)
    (c <- gets g_currentProc ;;
     wrSlot c trapType (set_oldState oldProcState) ;;
     c <- gets g_currentProc ;;
     wrSlot c trapType (set_newState newProcState) ;;
     loadState) ;;
  terminateProcess.

Definition getCPUTime : M unit :=
  updateTime ;;
  c <- gets g_currentProc ;;
  t <- rdPcb c p_time ;;
  c <- gets g_currentProc ;;
  st <- rdPcb c p_s ;;
  wrPcb c (set_p_s (set_a1 (wrap_uint t) st)) ;;
  loadState.

Definition waitClock : M unit :=
  v <- rdSem CLOCKINDEX ;;
  wrSem CLOCKINDEX (wrap_int (v - 1)) ;;
  v <- rdSem CLOCKINDEX ;;
  when (Z.ltb v 0)
    (updateTime ;;
     c <- gets g_currentProc ;;
     insertBlocked (semAt CLOCKINDEX) c ;;
     n <- gets g_softBlockCount ;;
     modify (set_g_softBlockCount (wrap_int (n + 1))) ;;
     modify (set_g_currentProc NULL) ;;
     scheduler) ;;
  PANIC.

Definition waitIO (intlNO dnum waitForTermRead : Z) : M unit :=
  let semaphoreIndex := getSemaphoreIndex intlNO dnum in
  let semaphoreIndex :=
    if Z.eqb intlNO LINENUMSEVEN && Z.eqb waitForTermRead 0
    then wrap_int (semaphoreIndex + TOTALDEVICES)
    else semaphoreIndex in
  v <- rdSem semaphoreIndex ;;
  wrSem semaphoreIndex (wrap_int (v - 1)) ;;
  v <- rdSem semaphoreIndex ;;
  when (Z.ltb v 0)
    (updateTime ;;
     c <- gets g_currentProc ;;
     insertBlocked (semAt semaphoreIndex) c ;;
     n <- gets g_softBlockCount ;;
     modify (set_g_softBlockCount (wrap_int (n + 1))) ;;
     modify (set_g_currentProc NULL) ;;
     scheduler) ;;
  c <- gets g_currentProc ;;
  ds <- gets (fun k => g_deviceStatus k semaphoreIndex) ;;
  st <- rdPcb c p_s ;;
  wrPcb c (set_p_s (set_a1 (wrap_uint ds) st)) ;;
  loadState.

Definition SYSCallHandler : M unit :=
  c <- gets g_currentProc ;;
  copyState (AtAddr oldSYS) (At_p_s c) ;;
  old <- rdState oldSYS ;;
  let SYSNum := wrap_int (a1 old) in
  when (Z.ltb WAITIO SYSNum) (passUpOrDie SYSTRAP oldSYS) ;;
  c <- gets g_currentProc ;;
  st <- rdPcb c p_s ;;
  when (Z.eqb (Z.land (cpsr st) SYSMODE) SYSMODE)
    (if Z.eqb SYSNum CREATEPROCESS then
       old <- rdState oldSYS ;;
       createProcess (a2 old)
     else if Z.eqb SYSNum TERMINATEPROCESS then
       terminateProcess
     else if Z.eqb SYSNum VERHOGEN then
       old <- rdState oldSYS ;;
       verhogen (a2 old)
     else if Z.eqb SYSNum PASSEREN then
       old <- rdState oldSYS ;;
       passeren (a2 old)
     else if Z.eqb SYSNum SPECTRAPVEC then
       old <- rdState oldSYS ;;
       spectrapvec (wrap_int (a2 old)) (a3 old) (a4 old)
     else if Z.eqb SYSNum GETCPUTIME then
       getCPUTime
     else if Z.eqb SYSNum WAITCLOCK then
       waitClock
     else if Z.eqb SYSNum WAITIO then
       old <- rdState oldSYS ;;
       waitIO (wrap_int (a2 old)) (wrap_int (a3 old)) (wrap_int (a4 old))
     else ret tt) ;;
  copyState (AtAddr oldSYS) (AtAddr oldPGM) ;;
  st <- rdState oldPGM ;;
  wrState oldPGM (set_CP15_Cause RI st) ;;
  PGMTrapHandler.

(** *** phase2/interrupts.c *)

(** The [for] loops of [getLineNumber] and [getDeviceNumber]: the index
    of the first entry of [bitArray] that meets [word], if any. *)
Fixpoint firstBit (word : Z) (bitArray : list Z) (i : Z) : option Z :=
  match bitArray with
  | [] => None
  | b :: rest =>
    if negb (Z.eqb (Z.land word b) 0) then Some i
    else firstBit word rest (i + 1)
  end.

Definition getLineNumber (oldINT : Z) : M Z :=
  st <- rdState oldINT ;;
  let truncatedLineNumber := wrap_int (Z.shiftr (CP15_Cause st) LINENUMOFFSET) in
  match firstBit truncatedLineNumber lineBits 0 with
  | Some i => ret i
  | None => PANIC ;; ret 0
  end.

Definition getDeviceNumber (pendingIntMap : Z) : M Z :=
  word <- (fun k => if Z.eqb pendingIntMap 0 then Stop NullDeref k
                    else Ret (pendingMap k pendingIntMap) k) ;;
  match firstBit word deviceBits 0 with
  | Some i => ret i
  | None => PANIC ;; ret 0
  end.

(** The [while (observedProcess != NULL)] of [intervalTimerHandler]; one
    ProcBlk leaves the ASL per round. *)
Fixpoint intervalTimerHandler_while (fuel : nat) (observedProcess : pcb_PTR)
  : M unit :=
  match fuel with
  | O => stopWith OutOfFuel
  | S fuel' =>
    if negb (isNull observedProcess) then
      wrPcb observedProcess (set_p_semAdd 0) ;;
      insertProcQ At_g_readyQueue observedProcess ;;
      n <- gets g_softBlockCount ;;
      modify (set_g_softBlockCount (wrap_int (n - 1))) ;;
      observedProcess <- removeBlocked (semAt CLOCKINDEX) ;;
      intervalTimerHandler_while fuel' observedProcess
    else ret tt
  end.

Definition intervalTimerHandler : M unit :=
  observedProcess <- removeBlocked (semAt CLOCKINDEX) ;;
  fuel <- gets (fun k => S (length (procTable k))) ;;
  intervalTimerHandler_while fuel observedProcess ;;
  wrSem CLOCKINDEX 0 ;;
  setTIMER QUANTUM ;;
  t <- getTODLO ;;
  modify (set_g_endOfInterval (wrap_int (t + INTERVAL))) ;;
  c <- gets g_currentProc ;;
  when (negb (isNull c))
    (t <- getTODLO ;;
     modify (set_g_startTOD (wrap_int t)) ;;
     loadState) ;;
  scheduler.

Definition endOfQuantum : M unit :=
  c <- gets g_currentProc ;;
  when (negb (isNull c))
    (c <- gets g_currentProc ;;
     insertProcQ At_g_readyQueue c ;;
     modify (set_g_currentProc NULL)) ;;
  scheduler.

Definition lineTwoHandler : M unit :=
  t <- getTODLO ;;
  e <- gets g_endOfInterval ;;
  when (Z.leb (wrap_uint e) t) intervalTimerHandler ;;
  endOfQuantum.

(** [(devreg_t * ) (DEVBASEADDRESS + (semaphoreIndex * DEVWORDLENGTH))] *)
Definition deviceAddress (semaphoreIndex : Z) : Z :=
  wrap_uint (wrap_int (DEVBASEADDRESS + wrap_int (semaphoreIndex * DEVWORDLENGTH))).

Definition rdDev {A : Type} (dev : Z) (field : devreg_t -> A) : M A :=
  gets (fun k => field (devRegs k dev)).
Definition wrDev (dev : Z) (upd : devreg_t -> devreg_t) : M unit :=
  modify (fun k => set_devRegs (store dev (upd (devRegs k dev)) (devRegs k)) k).

(** The test that tells the two sub-devices of a terminal apart. *)
Definition isTransmitInterrupt (recvStatus : Z) : bool :=
  Z.eqb (Z.land recvStatus ISOLATEREADY) DEVICEREADY.

Definition externalDeviceHandler (semaphoreIndex trueLineNumber : Z) : M unit :=
  let interruptingDevice := deviceAddress semaphoreIndex in
  sel <- (if Z.eqb trueLineNumber LINENUMSEVEN then
            rs <- rdDev interruptingDevice recv_status ;;
            if isTransmitInterrupt rs
            then ret (wrap_int (semaphoreIndex + TOTALDEVICES), TRANSMITTING)
            else ret (semaphoreIndex, RECEIVING)
          else ret (semaphoreIndex, RECEIVING)) ;;
  let semaphoreIndex := fst sel in
  let terminalMode := snd sel in
  v <- rdSem semaphoreIndex ;;
  wrSem semaphoreIndex (wrap_int (v + 1)) ;;
  v <- rdSem semaphoreIndex ;;
  when (Z.leb v 0)
    (signaledProc <- removeBlocked (semAt semaphoreIndex) ;;
     if negb (Z.eqb trueLineNumber LINENUMSEVEN) then
       when (isNull signaledProc)
         (ds <- rdDev interruptingDevice status ;;
          modify (fun k => set_g_deviceStatus
                             (store semaphoreIndex (wrap_int ds) (g_deviceStatus k)) k)) ;;
       wrPcb signaledProc (set_p_semAdd 0) ;;
       n <- gets g_softBlockCount ;;
       modify (set_g_softBlockCount (wrap_int (n - 1))) ;;
       wrDev interruptingDevice (set_command ACK) ;;
       ds <- rdDev interruptingDevice status ;;
       st <- rdPcb signaledProc p_s ;;
       wrPcb signaledProc (set_p_s (set_a1 ds st)) ;;
       insertProcQ At_g_readyQueue signaledProc
     else
       when (negb (isNull signaledProc))
         (wrPcb signaledProc (set_p_semAdd 0) ;;
          n <- gets g_softBlockCount ;;
          modify (set_g_softBlockCount (wrap_int (n - 1))) ;;
          (if Bool.eqb terminalMode RECEIVING then
             rs <- rdDev interruptingDevice recv_status ;;
             st <- rdPcb signaledProc p_s ;;
             wrPcb signaledProc (set_p_s (set_a1 rs st)) ;;
             wrDev interruptingDevice (set_recv_command ACK)
           else
             ts <- rdDev interruptingDevice transm_status ;;
             st <- rdPcb signaledProc p_s ;;
             wrPcb signaledProc (set_p_s (set_a1 ts st)) ;;
             wrDev interruptingDevice (set_transm_command ACK)) ;;
          insertProcQ At_g_readyQueue signaledProc)) ;;
  c <- gets g_currentProc ;;
  when (negb (isNull c))
    (t <- getTODLO ;;
     modify (set_g_startTOD (wrap_int t)) ;;
     loadState) ;;
  scheduler.

Definition interruptHandler : M unit :=
  let oldINT := INTOLDADD in
  trueLineNumber <- getLineNumber oldINT ;;
  st <- rdState oldINT ;;
  wrState oldINT (set_pc (wrap_uint (pc st - PCPREFETCH)) st) ;;
  c <- gets g_currentProc ;;
  when (negb (isNull c))
    (updateTime ;;
     c <- gets g_currentProc ;;
     copyState (AtAddr oldINT) (At_p_s c)) ;;
  pendingIntMap <-
    (if Z.eqb trueLineNumber LINENUMTWO then lineTwoHandler ;; ret 0
     else if Z.eqb trueLineNumber LINENUMTHREE then ret DISKINTMAP
     else if Z.eqb trueLineNumber LINENUMFOUR then ret TAPEINTMAP
     else if Z.eqb trueLineNumber LINENUMFIVE then ret NETWORKINTMAP
     else if Z.eqb trueLineNumber LINENUMSIX then ret PRINTERINTMAP
     else if Z.eqb trueLineNumber LINENUMSEVEN then ret TERMINALINTMAP
     else PANIC ;; ret 0) ;;
  deviceNumber <- getDeviceNumber pendingIntMap ;;
  let semaphoreIndex := getSemaphoreIndex trueLineNumber deviceNumber in
  externalDeviceHandler semaphoreIndex trueLineNumber.

(** *** phase2/initial.c *)

(** The loop that zeroes the two arrays of [MAXSEMA4] entries. *)
Fixpoint clearDeviceArrays (n : nat) (i : Z) : M unit :=
  match n with
  | O => ret tt
  | S n' =>
    wrSem i 0 ;;
    modify (fun k => set_g_deviceStatus (store i 0 (g_deviceStatus k)) k) ;;
    clearDeviceArrays n' (i + 1)
  end.

(** One of the four new areas, as [main] fills it. *)
Definition populateNewArea (area handler : Z) : M unit :=
  st <- rdState area ;;
  wrState area (set_pc (wrap_uint handler) st) ;;
  st <- rdState area ;;
  wrState area (set_sp (RAM_TOP L) st) ;;
  st <- rdState area ;;
  wrState area (set_cpsr (Z.lor (Z.lor ALLOFF INTSDISABLED) SYSMODE) st) ;;
  st <- rdState area ;;
  wrState area (set_CP15_Control ALLOFF st).

Definition main : M unit :=
  modify (set_g_procCount 0) ;;
  modify (set_g_softBlockCount 0) ;;
  modify (set_g_startTOD 0) ;;
  modify (set_g_endTOD 0) ;;
  modify (set_g_accTime 0) ;;
  modify (set_g_currentProc NULL) ;;
  modify (set_g_readyQueue mkEmptyProcQ) ;;
  clearDeviceArrays (Z.to_nat MAXSEMA4) 0 ;;
  populateNewArea SYSNEWADD (entry_SYSCallHandler L) ;;
  populateNewArea PGMTNEWADD (entry_PGMTrapHandler L) ;;
  populateNewArea TLBNEWADD (entry_TLBTrapHandler L) ;;
  populateNewArea INTNEWADD (entry_interruptHandler L) ;;
  initPcbs ;;
  initASL ;;
  firstProc <- allocPcb ;;
  insertProcQ At_g_readyQueue firstProc ;;
  modify (set_g_procCount 1) ;;
  st <- rdPcb firstProc p_s ;;
  wrPcb firstProc (set_p_s (set_pc (wrap_uint (entry_test L)) st)) ;;
  st <- rdPcb firstProc p_s ;;
  wrPcb firstProc (set_p_s (set_sp (wrap_uint (RAM_TOP L - FRAME_SIZE L)) st)) ;;
  st <- rdPcb firstProc p_s ;;
  wrPcb firstProc (set_p_s (set_cpsr (Z.lor ALLOFF SYSMODE) st)) ;;
  st <- rdState INTNEWADD ;;
  wrState INTNEWADD (set_CP15_Control ALLOFF st) ;;
  t <- getTODLO ;;
  modify (set_g_endOfInterval (wrap_int (t + INTERVAL))) ;;
  setTIMER QUANTUM ;;
  scheduler ;;
  PANIC.

End Nucleus.

(** The machine at power-on, before [main]: the static tables and the
    globals are zeroed; what the memories, the device registers and the
    time-of-day clock hold is given. *)
Definition powerOn (im : Z -> Z) (sm : Z -> state_t) (dr : Z -> devreg_t)
    (pm : Z -> Z) (tod : nat -> Z) : kstate :=
  {| procTable := replicate MAXPROC zero_pcb;
     pcbList_h := NULL;
     semdTable := replicate (MAXPROC + 2) zero_semd;
     semd_h := NULL;
     semdFree_h := NULL;
     g_procCount := 0;
     g_softBlockCount := 0;
     g_startTOD := 0;
     g_endTOD := 0;
     g_accTime := 0;
     g_endOfInterval := 0;
     g_currentProc := NULL;
     g_readyQueue := NULL;
     g_deviceStatus := fun _ => 0;
     intMem := im;
     stateMem := sm;
     devRegs := dr;
     pendingMap := pm;
     timerReg := 0;
     statusReg := 0;
     todReads := tod;
     todCount := 0 |}.

(** ** Driving the nucleus

    What the processor does when an exception is raised, and a few
    observations on kernel states, so that the handlers can be run one
    after the other on a concrete machine. *)

(** The state in which a computation stopped or returned, and why it
    stopped. *)
Definition finalState {A : Type} (r : result A) : kstate :=
  match r with
  | Ret _ k => k
  | Stop _ k => k
  end.

Definition stoppedBy {A : Type} (r : result A) : option stop :=
  match r with
  | Ret _ _ => None
  | Stop e _ => Some e
  end.

(** The ProcBlk [p] points to ([zero_pcb] for a pointer that does not
    point into the table). *)
Definition pcbOf (k : kstate) (p : pcb_PTR) : pcb_t :=
  match p with
  | Some i => default zero_pcb (procTable k !! i)
  | None => zero_pcb
  end.

(** The processor state of the running process, as saved in its
    ProcBlk. *)
Definition currentState (k : kstate) : state_t := p_s (pcbOf k (g_currentProc k)).

(** A [SYSCALL (n, x, y, z)] of the running process: the processor saves
    its state, with the four argument registers, in the SYS old area. *)
Definition raiseSYS (n x y z : Z) (k : kstate) : kstate :=
  let s := currentState k in
  set_stateMem
    (store SYSOLDADD
       (Build_state_t n x y z (v1 s) (v2 s) (v3 s) (v4 s) (v5 s) (v6 s)
          (sl s) (fp s) (ip s) (sp s) (lr s) (pc s) (cpsr s) (CP15_Control s)
          (CP15_EntryHi s) (CP15_Cause s) (TOD_Hi s) (TOD_Low s))
       (stateMem k)) k.

(** An interrupt with the given lines asserted: the processor saves the
    state of the running process in the INT old area, with the
    prefetched [pc] and the lines in bits 24..31 of [CP15_Cause]. *)
Definition raiseINT (lines : Z) (k : kstate) : kstate :=
  let s := currentState k in
  set_stateMem
    (store INTOLDADD
       (set_CP15_Cause (Z.shiftl lines LINENUMOFFSET)
          (set_pc (wrap_uint (pc s + PCPREFETCH)) s))
       (stateMem k)) k.

(** The descriptors that follow the head of the ASL, in list order, when
    the list ends within the size of the table. *)
Fixpoint semdWalk (fuel : nat) (tbl : list semd_t) (p : semd_PTR)
  : option (list semd_t) :=
  match p with
  | None => Some []
  | Some i =>
    match fuel with
    | O => None
    | S fuel' =>
      match tbl !! i with
      | Some d => cons d <$> semdWalk fuel' tbl (s_next d)
      | None => None
      end
    end
  end.

Definition activeSemds (k : kstate) : option (list semd_t) :=
  match semd_h k with
  | None => None
  | Some h =>
    match semdTable k !! h with
    | Some d => semdWalk (length (semdTable k)) (semdTable k) (s_next d)
    | None => None
    end
  end.

(** The ProcBlks of a process queue from head to tail: follow [p_next]
    from [cur] until the tail [t] is met. *)
Fixpoint ringWalk (fuel : nat) (tbl : list pcb_t) (t cur : nat)
  : option (list nat) :=
  match fuel with
  | O => None
  | S fuel' =>
    if Nat.eqb cur t then Some [cur]
    else
      match tbl !! cur with
      | Some b =>
        match p_next b with
        | Some n => cons cur <$> ringWalk fuel' tbl t n
        | None => None
        end
      | None => None
      end
  end.

Definition procQueue (tbl : list pcb_t) (tp : pcb_PTR) : option (list nat) :=
  match tp with
  | None => Some []
  | Some t =>
    match tbl !! t with
    | Some b =>
      match p_next b with
      | Some h => ringWalk (length tbl) tbl t h
      | None => None
      end
    | None => None
    end
  end.

(** The processes blocked on the semaphore at [semAdd]: the queue of its
    descriptor, or nothing when the ASL holds no descriptor for it. *)
Definition blockedOn (k : kstate) (semAdd : Z) : option (list nat) :=
  match activeSemds k with
  | Some ds =>
    match filter (fun d => s_semAdd d = semAdd) ds with
    | d :: _ => procQueue (procTable k) (s_procQ d)
    | [] => Some []
    end
  | None => None
  end.

(** Invariant 7 of the specification at one device semaphore: the
    counter is non-negative and nobody waits, or it is negative and its
    absolute value is the number of waiters. *)
Definition counterMatchesQueue (c : Z) (q : list nat) : bool :=
  (Z.leb 0 c && Nat.eqb (length q) 0)
  || (Z.ltb c 0 && Z.eqb (Z.abs c) (Z.of_nat (length q))).

Definition deviceSemOk (L : layout) (k : kstate) (i : Z) : bool :=
  match blockedOn k (semAt L i) with
  | Some q => counterMatchesQueue (intMem k (semAt L i)) q
  | None => false
  end.

Definition deviceSemsOk (L : layout) (k : kstate) : bool :=
  forallb (fun n => deviceSemOk L k (Z.of_nat n)) (seq 0 (Z.to_nat MAXSEMA4)).

(** *** A concrete machine *)

Definition uarm : layout :=
  {| lotOfSemaphores := 0x9000;
     RAM_TOP := 0x10000;
     FRAME_SIZE := 0x1000;
     entry_SYSCallHandler := 0x8100;
     entry_PGMTrapHandler := 0x8200;
     entry_TLBTrapHandler := 0x8300;
     entry_interruptHandler := 0x8400;
     entry_test := 0x8500 |}.

(** The processor state handed to CreateProcess: kernel mode, interrupts
    enabled. *)
Definition childState : state_t :=
  set_cpsr SYSMODE (set_sp 0xE000 (set_pc 0x8600 zero_state)).
Definition childStateAddr : Z := 0xA000.

(** Disk 0 (line 3, device 0) has completed an operation: its status
    word is [DEVICEREADY] and its bit is set in the pending bitmap. *)
Definition bootMachine : kstate :=
  powerOn (fun _ => 0)
          (store childStateAddr childState (fun _ => zero_state))
          (store (deviceAddress 0) (Build_devreg_t DEVICEREADY 0 0 0)
                 (fun _ => Build_devreg_t 0 0 0 0))
          (store DISKINTMAP 1 (fun _ => 0))
          (fun n => 1000 + Z.of_nat n).

(** After [main]: the first process is running. *)
Definition booted : kstate := finalState (main uarm bootMachine).

(** The ASL as the data model describes it: the bottom dummy node, which
    [initASL] allocates but leaves unlinked, follows the top one.  No
    statement of the nucleus links it; the scenarios that start from
    [bootedBracketed] or [bootedAt] show what the handlers do on a list
    that can be searched. *)
Definition bracketASL (top bottom : nat) (k : kstate) : kstate :=
  set_semdTable
    (<[top := set_s_next (Some bottom) (default zero_semd (semdTable k !! top))]>
       (semdTable k)) k.

Definition bootedBracketed : kstate := bracketASL 21 20 booted.

(** One service request, one interrupt. *)
Definition sys (n x y z : Z) (k : kstate) : result unit :=
  SYSCallHandler uarm (raiseSYS n x y z k).
Definition int (lines : Z) (k : kstate) : result unit :=
  interruptHandler uarm (raiseINT lines k).

(** *** A family of three processes

    Process 0 creates process 1, which creates process 2; process 2
    registers a TLB-trap vector and waits for disk 0; process 1 then
    terminates itself, and with it process 2. *)

Definition TIMERLINE : Z := 0x04.
Definition DISKLINE : Z := 0x08.
Definition TERMINALLINE : Z := 0x80.

(** Process 0 runs; process 1 is ready. *)
Definition childCreated : kstate :=
  finalState (sys CREATEPROCESS childStateAddr 0 0 bootedBracketed).
(** End of the quantum of process 0: process 1 runs. *)
Definition childRuns : kstate := finalState (int TIMERLINE childCreated).
Definition grandchildCreated : kstate :=
  finalState (sys CREATEPROCESS childStateAddr 0 0 childRuns).
(** Two more quanta: process 0, then process 2. *)
Definition grandchildRuns : kstate :=
  finalState (int TIMERLINE (finalState (int TIMERLINE grandchildCreated))).
Definition grandchildRegistered : kstate :=
  finalState (sys SPECTRAPVEC TLBTRAP 0xB000 0xB100 grandchildRuns).
(** Process 2 is blocked on the semaphore of disk 0; process 1 runs. *)
Definition grandchildWaits : kstate :=
  finalState (sys WAITIO LINENUMTHREE 0 0 grandchildRegistered).
(** Process 1 has terminated itself and process 2; process 0 runs. *)
Definition childTerminated : kstate :=
  finalState (sys TERMINATEPROCESS 0 0 0 grandchildWaits).

(** The free list then ends with the ProcBlks of processes 2 and 1;
    seventeen allocations later the next ProcBlk handed out is that of
    process 2. *)
Definition poolBeforeReuse : kstate :=
  Nat.iter 17 (fun k => finalState (allocPcb k)) childTerminated.

(** Nineteen CreateProcess requests of the first process use up the
    pool of [MAXPROC] ProcBlks. *)
Definition poolExhausted : kstate :=
  Nat.iter 19 (fun k => finalState (sys CREATEPROCESS childStateAddr 0 0 k)) booted.

(** A machine on which [step] microseconds pass between two readings of
    the clock; no device is pending. *)
Definition clockedMachine (step : Z) : kstate :=
  powerOn (fun _ => 0)
          (store childStateAddr childState (fun _ => zero_state))
          (fun _ => Build_devreg_t 0 0 0 0)
          (fun _ => 0)
          (fun n => 1000 + step * Z.of_nat n).

Definition bootedAt (step : Z) : kstate :=
  bracketASL 21 20 (finalState (main uarm (clockedMachine step))).

(** With sixty milliseconds per reading the first interval of [INTERVAL]
    microseconds is over at the first timer interrupt; the first process
    has created a second one by then. *)
Definition lateTick : kstate :=
  raiseINT TIMERLINE
    (finalState (SYSCallHandler uarm
       (raiseSYS CREATEPROCESS childStateAddr 0 0 (bootedAt 60000)))).

(** With ten milliseconds per reading the first process waits for disk 0
    well before the end of the interval; nothing else is ready and the
    nucleus sits in its wait state. *)
Definition slowIdle : kstate :=
  finalState (SYSCallHandler uarm
    (raiseSYS WAITIO LINENUMTHREE 0 0 (bootedAt 10000))).

(** The same on the machine as [main] leaves it, with the ASL that
    [initASL] built. *)
Definition startedAt (step : Z) : kstate :=
  finalState (main uarm (clockedMachine step)).

Definition lateTickStarted : kstate :=
  raiseINT TIMERLINE
    (finalState (SYSCallHandler uarm
       (raiseSYS CREATEPROCESS childStateAddr 0 0 (startedAt 60000)))).

(** The first process asks to wait for disk 0, which is idle. *)
Definition waitsForIdleDisk : kstate := raiseSYS WAITIO LINENUMTHREE 0 0 booted.

(** A machine whose terminal 0 (line 7, device 0) interrupts with the
    given words in its receive-status and transmit-status registers.
    The low byte of a status word is the status code of the sub-device
    (0 to 5: not installed, ready, illegal operation, busy, error,
    character received or transmitted); the byte above it holds the
    character. *)
Definition terminalWith (recv transm : Z) : kstate :=
  powerOn (fun _ => 0)
          (fun _ => zero_state)
          (store (deviceAddress 32) (Build_devreg_t recv 0 transm 0)
                 (fun _ => Build_devreg_t 0 0 0 0))
          (store TERMINALINTMAP 1 (fun _ => 0))
          (fun n => 1000 + Z.of_nat n).

(** Status code 5 with the character [A] above it. *)
Definition charDone : Z := 0x4105.
(** The character was received; the transmitter is idle. *)
Definition terminalReceived : kstate :=
  raiseINT TERMINALLINE (finalState (main uarm (terminalWith charDone DEVICEREADY))).
(** The character was transmitted; the receiver is idle. *)
Definition terminalTransmitted : kstate :=
  raiseINT TERMINALLINE (finalState (main uarm (terminalWith DEVICEREADY charDone))).

(** A machine whose terminal 0 (line 7, device 0) shows [0x11] in its
    receive-status register. *)
Definition terminalMachine : kstate :=
  powerOn (fun _ => 0)
          (fun _ => zero_state)
          (store (deviceAddress 32) (Build_devreg_t 0x11 0 0 0)
                 (fun _ => Build_devreg_t 0 0 0 0))
          (store TERMINALINTMAP 1 (fun _ => 0))
          (fun n => 1000 + Z.of_nat n).

(** A semaphore of a process, at an address outside the nucleus, that
    was initialised to [-2]; the running process requests a V on it. *)
Definition userSemAddr : Z := 0xC000.

(** *** The behaviour the specification words for the line-2 handler *)

(** The first part of [intervalTimerHandler]: every process that waits
    for the pseudo-clock goes to the ready queue. *)
Definition wakeClockWaiters (L : layout) : M unit :=
  observedProcess <- removeBlocked (semAt L CLOCKINDEX) ;;
  fuel <- gets (fun k => S (length (procTable k))) ;;
  intervalTimerHandler_while L fuel observedProcess.

(** Section 4.5 of the specification: when the interval is over, wake
    the waiters, reset the semaphore, the interval and the timer, "then
    fall through to quantum-end behavior". *)
Definition lineTwoHandler_asSpecified (L : layout) : M unit :=
  now <- getTODLO ;;
  e <- gets g_endOfInterval ;;
  when (Z.leb (wrap_uint e) now)
    (wakeClockWaiters L ;;
     wrSem L CLOCKINDEX 0 ;;
     now <- getTODLO ;;
     modify (set_g_endOfInterval (wrap_int (now + INTERVAL))) ;;
     setTIMER QUANTUM) ;;
  endOfQuantum.

(** Section 4.3 of the specification for the wait state: "enable
    interrupts, program the timer to fire at [end_of_interval], enter a
    wait state"; [end_of_interval] itself is left alone. *)
Definition waitState_asSpecified : M unit :=
  setSTATUS (Z.lor (Z.land ALLOFF INTSENABLED) SYSMODE) ;;
  e <- gets g_endOfInterval ;;
  t <- getTODLO ;;
  setTIMER (e - t) ;;
  WAIT.

(** ** Vocabulary of the properties *)

(** [keeps f m]: the observation [f] of the kernel state is the same
    after [m] as before, whether [m] returns or stops. *)
Definition keeps {A B : Type} (f : kstate -> B) (m : M A) : Prop :=
  forall k, f (finalState (m k)) = f k.

(** The members of a ProcBlk other than the two queue links. *)
Definition payload (b : pcb_t)
  : pcb_PTR * pcb_PTR * pcb_PTR * pcb_PTR * state_t * Z * Z * list p_states :=
  (p_prnt b, p_child b, p_nextSib b, p_prevSib b, p_s b, p_time b, p_semAdd b,
   stateArray b).

(** The updates of a ProcBlk an observation may have to survive: any
    update, or the updates of the queue links only. *)
Definition anyUpdate (upd : pcb_t -> pcb_t) : Prop := True.
Definition linkUpdate (upd : pcb_t -> pcb_t) : Prop :=
  forall b, payload (upd b) = payload b.

(** An observation that does not see the allowed updates of a ProcBlk,
    nor what the descriptor table holds, nor the heads of the free lists
    and of the ready queue. *)
Record blindTo {B : Type} (allowed : (pcb_t -> pcb_t) -> Prop) (f : kstate -> B)
  : Prop := {
  blind_procTable : forall upd i b k,
    allowed upd -> procTable k !! i = Some b ->
    f (set_procTable (<[i := upd b]> (procTable k)) k) = f k;
  blind_semdTable : forall tbl k,
    length tbl = length (semdTable k) -> f (set_semdTable tbl k) = f k;
  blind_pcbList_h : forall v k, f (set_pcbList_h v k) = f k;
  blind_g_readyQueue : forall v k, f (set_g_readyQueue v k) = f k;
  blind_semdFree_h : forall v k, f (set_semdFree_h v k) = f k
}.


(** The ASL as [initASL] leaves it: the head is a descriptor without a
    successor. *)
Definition aslHeadAlone (k : kstate) : Prop :=
  exists h d, semd_h k = Some h /\ semdTable k !! h = Some d /\ s_next d = NULL.

(** The tail pointers outside the descriptors: the ready queue and the
    free list. *)
Definition offTheASL (tp : tailLoc) : Prop :=
  match tp with At_s_procQ _ => False | _ => True end.

(** [keepsHeadAlone m]: started on such an ASL, [m] returns or stops
    with the ASL still so. *)
Definition keepsHeadAlone {A : Type} (m : M A) : Prop :=
  forall k, aslHeadAlone k -> aslHeadAlone (finalState (m k)).

(** *** Device semaphores between two handlers *)


(** None of the [MAXSEMA4] semaphores of the nucleus is negative. *)
Definition countersNonNegative (L : layout) (k : kstate) : Prop :=
  forall i, 0 <= i < MAXSEMA4 -> 0 <= intMem k (semAt L i).


(** The ASL is as [initASL] left it and no semaphore of the nucleus is
    negative: nobody waits, by the queues and by the counters. *)
Definition nobodyWaits (L : layout) (k : kstate) : Prop :=
  aslHeadAlone k /\ countersNonNegative L k.




(** What the queue operations cannot change: the members of the
    ProcBlks other than the queue links, the words in memory, the
    counters, the running process. *)
Definition besidesQueueLinks (k : kstate) :=
  (payload <$> procTable k, intMem k, g_softBlockCount k, g_procCount k,
   g_currentProc k, g_deviceStatus k).


(** *** Process queues as lists *)

(** The queue links of the ProcBlk at index [x] ([NULL] outside the
    table). *)
Definition nextOf (tbl : list pcb_t) (x : nat) : pcb_PTR :=
  match tbl !! x with Some b => p_next b | None => NULL end.
Definition prevOf (tbl : list pcb_t) (x : nat) : pcb_PTR :=
  match tbl !! x with Some b => p_prev b | None => NULL end.

(** Each element of [l] is linked to the one that follows it in [l],
    forwards by [p_next] and backwards by [p_prev]. *)
Fixpoint linked (tbl : list pcb_t) (l : list nat) : Prop :=
  match l with
  | x :: l' =>
    match l' with
    | y :: _ => nextOf tbl x = Some y /\ prevOf tbl y = Some x /\ linked tbl l'
    | [] => True
    end
  | [] => True
  end.

(** [ring tbl tp q]: the tail pointer [tp] stands for the queue [q]
    (head first): [q] lists distinct ProcBlks of the table, linked in a
    circle both ways, and [tp] points to the last of them; an empty
    queue is a [NULL] tail pointer. *)
Definition ring (tbl : list pcb_t) (tp : pcb_PTR) (q : list nat) : Prop :=
  NoDup q /\
  Forall (fun x => (x < length tbl)%nat) q /\
  match q with
  | [] => tp = NULL
  | h :: _ => tp = Some (List.last q h) /\ linked tbl (q ++ [h])
  end.

(** The tail pointer stored at a location, when the location exists. *)
Definition tailAt (tp : tailLoc) (k : kstate) : option pcb_PTR :=
  match tp with
  | At_pcbList_h => Some (pcbList_h k)
  | At_g_readyQueue => Some (g_readyQueue k)
  | At_s_procQ (Some d) => s_procQ <$> semdTable k !! d
  | At_s_procQ None => None
  end.

(** The state with the tail pointer at a location replaced. *)
Definition setTail (tp : tailLoc) (v : pcb_PTR) (k : kstate) : kstate :=
  match tp with
  | At_pcbList_h => set_pcbList_h v k
  | At_g_readyQueue => set_g_readyQueue v k
  | At_s_procQ (Some d) => set_semdTable (alter (set_s_procQ v) d (semdTable k)) k
  | At_s_procQ None => k
  end.

(** The queue at a location. *)
Definition queueAt (tp : tailLoc) (k : kstate) (q : list nat) : Prop :=
  exists t, tailAt tp k = Some t /\ ring (procTable k) t q.

(** A list closed into a circle: its last element is linked to its
    first. *)
Definition cyclic (tbl : list pcb_t) (l : list nat) : Prop :=
  match l with
  | [] => True
  | h :: _ => linked tbl (l ++ [h])
  end.

(** The table after [p] has been taken out from between its neighbours
    [a] and [b]. *)
Definition bridged (a b : nat) (tbl : list pcb_t) : list pcb_t :=
  alter (set_p_next (Some b)) a (alter (set_p_prev (Some a)) b tbl).

(** *** Checking a queue on a given table *)

Fixpoint nodupb (l : list nat) : bool :=
  match l with
  | [] => true
  | x :: l' => negb (existsb (Nat.eqb x) l') && nodupb l'
  end.

Fixpoint linkedb (tbl : list pcb_t) (l : list nat) : bool :=
  match l with
  | x :: l' =>
    match l' with
    | y :: _ =>
      ptr_eqb (nextOf tbl x) (Some y) && ptr_eqb (prevOf tbl y) (Some x)
      && linkedb tbl l'
    | [] => true
    end
  | [] => true
  end.

Definition ringb (tbl : list pcb_t) (tp : pcb_PTR) (q : list nat) : bool :=
  nodupb q && forallb (fun x => Nat.ltb x (length tbl)) q &&
  match q with
  | [] => isNull tp
  | h :: _ => ptr_eqb tp (Some (List.last q h)) && linkedb tbl (q ++ [h])
  end.

Definition queueAtb (tp : tailLoc) (k : kstate) (q : list nat) : bool :=
  match tailAt tp k with
  | Some t => ringb (procTable k) t q
  | None => false
  end.

(** *** Process trees as lists *)

(** The members of a ProcBlk other than the four tree links. *)
Definition besidesTreeLinks (b : pcb_t)
  : pcb_PTR * pcb_PTR * state_t * Z * Z * list p_states :=
  (p_next b, p_prev b, p_s b, p_time b, p_semAdd b, stateArray b).

(** [c] is a child of [prnt] that stands between the siblings [newer]
    and [older]. *)
Definition sibling (tbl : list pcb_t) (prnt c : nat) (newer older : pcb_PTR) : Prop :=
  exists b, tbl !! c = Some b /\
    p_prnt b = Some prnt /\ p_nextSib b = newer /\ p_prevSib b = older.

(** A run of siblings, the newest first: each one points to the one
    before it by [p_nextSib] and to the one after it by [p_prevSib]. *)
Fixpoint siblings (tbl : list pcb_t) (prnt : nat) (newer : pcb_PTR) (l : list nat)
    (older : pcb_PTR) : Prop :=
  match l with
  | [] => True
  | c :: l' =>
    sibling tbl prnt c newer (match l' with [] => older | d :: _ => Some d end) /\
    siblings tbl prnt (Some c) l' older
  end.

(** [children tbl prnt cs]: [cs] lists the children of [prnt], the one
    inserted last first; [p_child] of [prnt] points to the first. *)
Definition children (tbl : list pcb_t) (prnt : nat) (cs : list nat) : Prop :=
  NoDup (prnt :: cs) /\
  (exists b, tbl !! prnt = Some b /\ p_child b = head cs) /\
  siblings tbl prnt NULL cs NULL.

(** A ProcBlk without parent and siblings. *)
Definition detached (tbl : list pcb_t) (c : nat) : Prop :=
  exists b, tbl !! c = Some b /\
    p_prnt b = NULL /\ p_nextSib b = NULL /\ p_prevSib b = NULL.

Definition siblingb (tbl : list pcb_t) (prnt c : nat) (newer older : pcb_PTR) : bool :=
  match tbl !! c with
  | Some b =>
    ptr_eqb (p_prnt b) (Some prnt) && ptr_eqb (p_nextSib b) newer
    && ptr_eqb (p_prevSib b) older
  | None => false
  end.

Fixpoint siblingsb (tbl : list pcb_t) (prnt : nat) (newer : pcb_PTR) (l : list nat)
    (older : pcb_PTR) : bool :=
  match l with
  | [] => true
  | c :: l' =>
    siblingb tbl prnt c newer (match l' with [] => older | d :: _ => Some d end)
    && siblingsb tbl prnt (Some c) l' older
  end.

Definition childrenb (tbl : list pcb_t) (prnt : nat) (cs : list nat) : bool :=
  nodupb (prnt :: cs) &&
  match tbl !! prnt with
  | Some b => ptr_eqb (p_child b) (head cs)
  | None => false
  end &&
  siblingsb tbl prnt NULL cs NULL.

(** *** Computations that hand control away *)

(** [neverReturns m]: whatever the state, [m] does not come back to its
    caller. *)
Definition neverReturns {A : Type} (m : M A) : Prop :=
  forall k, exists e k', m k = Stop e k'.
(** * Properties *)

(** Splits a conjunction into its parts, and nothing else. *)
Ltac splits := repeat match goal with |- _ /\ _ => split end.


(** ** The monad *)

Lemma bind_Ret {A B : Type} (m : M A) (f : A -> M B) k a k' :
  m k = Ret a k' -> bind m f k = f a k'.
Proof. intros H. unfold bind. now rewrite H. Qed.

Lemma bind_Stop {A B : Type} (m : M A) (f : A -> M B) k e k' :
  m k = Stop e k' -> bind m f k = Stop e k'.
Proof. intros H. unfold bind. now rewrite H. Qed.

Lemma rdSemd_Some {A : Type} (field : semd_t -> A) k i d :
  semdTable k !! i = Some d -> rdSemd (Some i) field k = Ret (field d) k.
Proof. intros H. unfold rdSemd. now rewrite H. Qed.

Lemma rdPcb_Some {A : Type} (field : pcb_t -> A) k i b :
  procTable k !! i = Some b -> rdPcb (Some i) field k = Ret (field b) k.
Proof. intros H. unfold rdPcb. now rewrite H. Qed.

(** ** The search of the ASL *)

Lemma semdWalk_length fuel tbl : forall p ds,
  semdWalk fuel tbl p = Some ds -> (length ds <= fuel)%nat.
Proof.
  induction fuel as [|fuel IH]; intros p ds H.
  - destruct p; simpl in H; [discriminate|]. injection H as <-. simpl. lia.
  - destruct p as [i|]; simpl in H.
    + destruct (tbl !! i) as [d|]; [|discriminate].
      destruct (semdWalk fuel tbl (s_next d)) as [ds'|] eqn:E; [|discriminate].
      simpl in H. injection H as <-. simpl. apply IH in E. lia.
    + injection H as <-. simpl. lia.
Qed.

(** On a list that holds a descriptor whose key is not below [semAdd],
    the loop stops in front of the first such descriptor and reads no
    [NULL] pointer. *)
Lemma findPrevSemd_while_stops semAdd k : forall ds f fuel c dc,
  semdTable k !! c = Some dc ->
  semdWalk f (semdTable k) (s_next dc) = Some ds ->
  Exists (fun d => semAdd <= s_semAdd d) ds ->
  (length ds <= fuel)%nat ->
  exists prev dprev n dn,
    findPrevSemd_while fuel semAdd (Some c) k = Ret (Some prev) k /\
    semdTable k !! prev = Some dprev /\
    s_next dprev = Some n /\
    semdTable k !! n = Some dn /\
    semAdd <= s_semAdd dn /\
    In dn ds.
Proof.
  induction ds as [|d ds IH]; intros f fuel c dc Hc Hwalk Hex Hlen.
  - inversion Hex.
  - destruct (s_next dc) as [i|] eqn:Hn; [|destruct f; discriminate].
    destruct f as [|f]; [discriminate|]. simpl in Hwalk.
    destruct (semdTable k !! i) as [di|] eqn:Hi; [|discriminate].
    destruct (semdWalk f (semdTable k) (s_next di)) as [ds'|] eqn:Hw; [|discriminate].
    simpl in Hwalk. injection Hwalk as -> ->.
    destruct fuel as [|fuel]; [simpl in Hlen; lia|].
    cbn [findPrevSemd_while].
    rewrite (bind_Ret _ _ _ _ _ (rdSemd_Some s_next k c dc Hc)), Hn.
    rewrite (bind_Ret _ _ _ _ _ (rdSemd_Some s_semAdd k i d Hi)).
    destruct (Z.ltb_spec (s_semAdd d) semAdd) as [Hlt|Hge].
    + rewrite (bind_Ret _ _ _ _ _ (rdSemd_Some s_next k c dc Hc)), Hn. cbn [isNull negb].
      rewrite (bind_Ret _ _ _ _ _ (rdSemd_Some s_next k c dc Hc)), Hn.
      destruct (IH f fuel i d Hi Hw) as (prev & dprev & n & dn & H1 & H2 & H3 & H4 & H5 & H6).
      * inversion Hex; subst; [lia | assumption].
      * simpl in Hlen. lia.
      * exists prev, dprev, n, dn. splits; auto. now right.
    + exists c, dc, i, d. splits; auto. now left.
Qed.

Lemma findPrevSemd_stops semAdd k ds :
  activeSemds k = Some ds ->
  Exists (fun d => semAdd <= s_semAdd d) ds ->
  exists prev dprev n dn,
    findPrevSemd semAdd k = Ret (Some prev) k /\
    semdTable k !! prev = Some dprev /\
    s_next dprev = Some n /\
    semdTable k !! n = Some dn /\
    semAdd <= s_semAdd dn /\
    In dn ds.
Proof.
  unfold activeSemds. intros Hact Hex.
  destruct (semd_h k) as [h|] eqn:Hh; [|discriminate].
  destruct (semdTable k !! h) as [dh|] eqn:Hdh; [|discriminate].
  pose proof (semdWalk_length _ _ _ _ Hact) as Hlen.
  destruct (findPrevSemd_while_stops semAdd k ds _ (S (length (semdTable k))) h dh Hdh Hact Hex)
    as (prev & dprev & n & dn & H1 & H2); [lia|].
  exists prev, dprev, n, dn. split; [|exact H2].
  unfold findPrevSemd, bind, gets. rewrite Hh. exact H1.
Qed.

(** No descriptor for [semAdd]: [removeBlocked] returns [NULL] and
    changes nothing. *)
Lemma removeBlocked_absent semAdd k ds :
  activeSemds k = Some ds ->
  Exists (fun d => semAdd <= s_semAdd d) ds ->
  ~ In semAdd (map s_semAdd ds) ->
  removeBlocked semAdd k = Ret NULL k.
Proof.
  intros Hact Hex Hnot.
  destruct (findPrevSemd_stops semAdd k ds Hact Hex)
    as (prev & dprev & n & dn & H1 & H2 & H3 & H4 & H5 & H6).
  assert (Habs : notOnASL (Some prev) semAdd k = Ret true k).
  { unfold notOnASL.
    rewrite (bind_Ret _ _ _ _ _ (rdSemd_Some s_next k prev dprev H2)), H3.
    rewrite (bind_Ret _ _ _ _ _ (rdSemd_Some s_semAdd k n dn H4)).
    destruct (Z.eqb_spec (s_semAdd dn) semAdd) as [E|E]; [|reflexivity].
    exfalso. apply Hnot. rewrite <- E. now apply in_map. }
  unfold removeBlocked.
  rewrite (bind_Ret _ _ _ _ _ H1), (bind_Ret _ _ _ _ _ Habs). reflexivity.
Qed.

Lemma bind_inv {A B : Type} (m : M A) (f : A -> M B) k b k' :
  bind m f k = Ret b k' -> exists a k1, m k = Ret a k1 /\ f a k1 = Ret b k'.
Proof.
  unfold bind. destruct (m k) as [a k1|e k1]; [|discriminate].
  intros H. now exists a, k1.
Qed.

Lemma bind_gets {A B : Type} (f : kstate -> A) (g : A -> M B) k :
  bind (gets f) g k = g (f k) k.
Proof. reflexivity. Qed.

Lemma bind_modify {B : Type} (f : kstate -> kstate) (g : unit -> M B) k :
  bind (modify f) g k = g tt (f k).
Proof. reflexivity. Qed.

Lemma bind_ret {A B : Type} (a : A) (g : A -> M B) k :
  bind (ret a) g k = g a k.
Proof. reflexivity. Qed.

Lemma bind_assoc {A B C : Type} (m : M A) (f : A -> M B) (g : B -> M C) k :
  bind (bind m f) g k = bind m (fun a => bind (f a) g) k.
Proof. unfold bind. destruct (m k); reflexivity. Qed.

Lemma state_eta (o : state_t) :
  Build_state_t (a1 o) (a2 o) (a3 o) (a4 o) (v1 o) (v2 o) (v3 o) (v4 o)
    (v5 o) (v6 o) (sl o) (fp o) (ip o) (sp o) (lr o) (pc o) (cpsr o)
    (CP15_Control o) (CP15_EntryHi o) (CP15_Cause o) (TOD_Hi o) (TOD_Low o) = o.
Proof. now destruct o. Qed.

Lemma rdState_nonnull a k : a <> 0 -> rdState a k = Ret (stateMem k a) k.
Proof. intros H. unfold rdState. destruct (Z.eqb_spec a 0); [contradiction|reflexivity]. Qed.

Lemma rdInt_nonnull a k : a <> 0 -> rdInt a k = Ret (intMem k a) k.
Proof. intros H. unfold rdInt. destruct (Z.eqb_spec a 0); [contradiction|reflexivity]. Qed.

Lemma wrInt_nonnull a v k :
  a <> 0 -> wrInt a v k = Ret tt (set_intMem (store a v (intMem k)) k).
Proof. intros H. unfold wrInt. destruct (Z.eqb_spec a 0); [contradiction|reflexivity]. Qed.

Lemma wrPcb_Some upd k i b :
  procTable k !! i = Some b ->
  wrPcb (Some i) upd k = Ret tt (set_procTable (<[i := upd b]> (procTable k)) k).
Proof. intros H. unfold wrPcb. now rewrite H. Qed.

Lemma store_same {A : Type} a (v : A) m : store a v m a = v.
Proof. unfold store. now rewrite Z.eqb_refl. Qed.

Lemma store_other {A : Type} a a' (v : A) m : a' <> a -> store a v m a' = m a'.
Proof. intros H. unfold store. destruct (Z.eqb_spec a' a); [contradiction|reflexivity]. Qed.

(** The copy of the SYS old area into the ProcBlk of the caller. *)
Lemma copyState_into_pcb a k c b :
  a <> 0 -> procTable k !! c = Some b ->
  copyState (AtAddr a) (At_p_s (Some c)) k
  = Ret tt (set_procTable (<[c := set_p_s (stateMem k a) b]> (procTable k)) k).
Proof.
  intros Ha Hc. unfold copyState. cbn [rdStateLoc wrStateLoc].
  rewrite (bind_Ret _ _ _ _ _ (rdState_nonnull a k Ha)).
  rewrite (bind_Ret _ _ _ _ _ (rdPcb_Some p_s k c b Hc)).
  rewrite state_eta. now apply wrPcb_Some.
Qed.

Lemma verhogen_panics k semAdd ds :
  semAdd <> 0 ->
  wrap_int (intMem k semAdd + 1) <= 0 ->
  activeSemds k = Some ds ->
  Exists (fun d => semAdd <= s_semAdd d) ds ->
  ~ In semAdd (map s_semAdd ds) ->
  verhogen semAdd k
  = Stop Panic (set_intMem (store semAdd (wrap_int (intMem k semAdd + 1)) (intMem k)) k).
Proof.
  intros Hnz Hle Hact Hex Hnot. unfold verhogen.
  rewrite (bind_Ret _ _ _ _ _ (rdInt_nonnull semAdd k Hnz)).
  rewrite (bind_Ret _ _ _ _ _ (wrInt_nonnull semAdd _ k Hnz)).
  rewrite (bind_Ret _ _ _ _ _ (rdInt_nonnull semAdd _ Hnz)).
  cbn [intMem set_intMem]. rewrite store_same.
  destruct (Z.leb_spec (wrap_int (intMem k semAdd + 1)) 0) as [_|?]; [|lia].
  unfold when. rewrite bind_assoc.
  erewrite bind_Ret; [|eapply removeBlocked_absent; eauto].
  reflexivity.
Qed.

(** ** initASL and the search of the ASL *)

(** C1.  [initASL] allocates the two dummy nodes but links neither to the
    other: the head of the ASL is the top dummy node (key 0) with a
    [NULL] successor, and the bottom dummy node (key [MAXADDR]) is not on
    the list.  From that state the search of every key reads through the
    [NULL] successor of the head, and so do [insertBlocked],
    [removeBlocked], [headBlocked] and [outBlocked]. *)
Theorem C1_initASL_search_reads_null_successor
    (im : Z -> Z) (sm : Z -> state_t) (dr : Z -> devreg_t) (pm : Z -> Z)
    (tod : nat -> Z) (semAdd : Z) (p : pcb_PTR) :
  let r := initASL (powerOn im sm dr pm tod) in
  let k := finalState r in
  stoppedBy r = None /\
  semd_h k = Some 21%nat /\
  semdTable k !! 21%nat = Some (Build_semd_t NULL 0 NULL) /\
  semdTable k !! 20%nat = Some (Build_semd_t NULL MAXADDR NULL) /\
  activeSemds k = Some [] /\
  findPrevSemd semAdd k = Stop NullDeref k /\
  insertBlocked semAdd p k = Stop NullDeref k /\
  removeBlocked semAdd k = Stop NullDeref k /\
  headBlocked semAdd k = Stop NullDeref k /\
  outBlocked (Some 0%nat) k = Stop NullDeref k.
Proof.
  cbv zeta. splits; vm_compute; reflexivity.
Qed.

(** ** The terminal sub-device test *)


(** The mask [ISOLATEREADY] keeps four bits, where its comment says
    eight.  The two tests part on a status byte of 16 or more, which is
    not one of the status codes of a terminal: with [0x11] in the
    receive-status register the handler would take the interrupt of
    terminal 0 for a transmit interrupt. *)
Lemma transmit_test_off_the_status_codes :
  let k := raiseINT TERMINALLINE (finalState (main uarm terminalMachine)) in
  let r := interruptHandler uarm k in
  recv_status (devRegs k (deviceAddress 32)) = 0x11 /\
  Z.land 0x11 0xFF <> DEVICEREADY /\
  isTransmitInterrupt 0x11 = true /\
  stoppedBy r = Some LoadState /\
  intMem (finalState r) (semAt uarm 32) = 0 /\
  intMem (finalState r) (semAt uarm (32 + 8)) = 1.
Proof.
  cbv zeta. splits; try (vm_compute; reflexivity). vm_compute. discriminate.
Qed.

(** ** CreateProcess *)

(** C4.  The first process requests CreateProcess.  When it resumes, its
    [a1] still holds the service number 1: the status 0 went into the
    [a1] of the state the request pointed to.  After nineteen successful
    requests the pool is empty; the next request resumes the caller with
    [a1 = 1] again, and the failure status (-1, as an unsigned word) is
    once more in the state pointed to. *)
Theorem C4_createProcess_status_misses_caller_a1 :
  let r := sys CREATEPROCESS childStateAddr 0 0 booted in
  let r' := sys CREATEPROCESS childStateAddr 0 0 poolExhausted in
  (stoppedBy r = Some LoadState /\
   g_currentProc (finalState r) = g_currentProc booted /\
   g_procCount (finalState r) = g_procCount booted + 1 /\
   a1 (currentState (finalState r)) = CREATEPROCESS /\
   a1 (stateMem (finalState r) childStateAddr) = wrap_uint SUCCESS) /\
  (pcbList_h poolExhausted = NULL /\
   stoppedBy r' = Some LoadState /\
   g_currentProc (finalState r') = g_currentProc poolExhausted /\
   g_procCount (finalState r') = g_procCount poolExhausted /\
   a1 (currentState (finalState r')) = CREATEPROCESS /\
   a1 (stateMem (finalState r') childStateAddr) = wrap_uint FAILURE).
Proof.
  cbv zeta. splits; vm_compute; reflexivity.
Qed.

(** ** allocPcb *)

(** [removeProcQ] on a queue that is not empty returns a ProcBlk. *)
Lemma removeProcQ_nonnull (tp : tailLoc) (k k' : kstate) (t : nat) (r : pcb_PTR) :
  rdTail tp k = Ret (Some t) k ->
  removeProcQ tp k = Ret r k' ->
  r <> NULL.
Proof.
  intros Ht H. unfold removeProcQ in H.
  rewrite (bind_Ret _ _ _ _ _ Ht) in H. cbn [emptyProcQ isNull] in H.
  apply bind_inv in H as (n & k1 & Hn & H).
  destruct (ptr_eqb n (Some t)).
  - apply bind_inv in H as (? & k2 & _ & H). injection H as <- _. discriminate.
  - apply bind_inv in H as (t' & k2 & _ & H).
    apply bind_inv in H as (r0 & k3 & _ & H).
    apply bind_inv in H as (nn & k4 & Hnn & H).
    destruct r0 as [j|]; [|discriminate Hnn].
    repeat (apply bind_inv in H as (? & ? & _ & H)).
    injection H as <- _. discriminate.
Qed.

(** [allocPcb] returns [NULL] only when the free list is empty. *)
Lemma allocPcb_null_only_when_empty (k k' : kstate) :
  allocPcb k = Ret NULL k' -> pcbList_h k = NULL.
Proof.
  unfold allocPcb. rewrite bind_gets.
  destruct (pcbList_h k) as [t|] eqn:Ht; [|reflexivity].
  cbn [isNull]. intros H. exfalso.
  apply bind_inv in H as (u & k1 & Hu & H).
  apply (removeProcQ_nonnull At_pcbList_h k k1 t u) in Hu;
    [|cbn [rdTail]; unfold gets; now rewrite Ht].
  repeat (apply bind_inv in H as (? & ? & _ & H)).
  injection H as -> _. now apply Hu.
Qed.

Lemma allocPcb_empty (k : kstate) :
  pcbList_h k = NULL -> allocPcb k = Ret NULL k.
Proof. intros H. unfold allocPcb. now rewrite bind_gets, H. Qed.

(** C5.  After process 2 was terminated while it waited for disk 0, its
    ProcBlk is back on the free list with the semaphore address and the
    TLB-trap vector it had.  When [allocPcb] hands this ProcBlk out
    again, the links and [p_time] are cleared, but [p_semAdd] and the
    first slot of [stateArray] still hold the old values. *)
Theorem C5_allocPcb_keeps_semAdd_and_trap_vectors :
  let r := allocPcb poolBeforeReuse in
  let b := pcbOf (finalState r) (Some 2%nat) in
  r = Ret (Some 2%nat) (finalState r) /\
  (p_next b = NULL /\ p_prev b = NULL /\ p_prnt b = NULL /\ p_child b = NULL /\
   p_nextSib b = NULL /\ p_prevSib b = NULL /\ p_time b = 0) /\
  p_semAdd b = semAt uarm 0 /\
  p_semAdd b <> 0 /\
  stateArray b !! 0%nat = Some (Build_p_states 0xB000 0xB100).
Proof.
  cbv zeta. splits; try (vm_compute; reflexivity). vm_compute. discriminate.
Qed.

(** ** Device interrupts and WaitIO *)

(** C7.  Disk 0 interrupts while the first process runs and nobody waits
    for it: the V operation takes the semaphore from 0 to 1 and the
    handler does nothing else, the status word [DEVICEREADY] of the disk
    is not stored and the disk is not acknowledged.  The WaitIO that
    follows does not block and leaves the soft-block count alone, but
    the [a1] it returns is the 0 that [g_deviceStatus] held all along,
    not the status word of the disk. *)
Theorem C7_overtaking_status_not_captured :
  let r := int DISKLINE booted in
  let k := finalState r in
  let r' := sys WAITIO LINENUMTHREE 0 0 k in
  let k' := finalState r' in
  status (devRegs booted (deviceAddress 0)) = DEVICEREADY /\
  stoppedBy r = Some LoadState /\
  intMem k (semAt uarm 0) = 1 /\
  g_deviceStatus k 0 = 0 /\
  command (devRegs k (deviceAddress 0)) = 0 /\
  stoppedBy r' = Some LoadState /\
  g_currentProc k' = g_currentProc k /\
  g_softBlockCount k' = g_softBlockCount k /\
  a1 (currentState k') = 0 /\
  a1 (currentState k') <> status (devRegs booted (deviceAddress 0)).
Proof.
  cbv zeta. splits; try (vm_compute; reflexivity). vm_compute. discriminate.
Qed.

(** C2.  Process 2 was terminated while it waited for disk 0, so the
    semaphore of the disk is -1 and nobody is blocked on it.  When the
    disk interrupts, the V operation gives 0, [removeBlocked] returns
    [NULL], the handler stores the status word in [g_deviceStatus] and
    then writes [p_semAdd] through the [NULL] pointer: it stops there,
    before the soft-block count is touched and before the ACK. *)
Theorem C2_no_waiter_branch_dereferences_null :
  let r := int DISKLINE childTerminated in
  let k := finalState r in
  intMem childTerminated (semAt uarm 0) = -1 /\
  blockedOn childTerminated (semAt uarm 0) = Some [] /\
  stoppedBy r = Some NullDeref /\
  intMem k (semAt uarm 0) = 0 /\
  g_deviceStatus k 0 = DEVICEREADY /\
  g_softBlockCount k = g_softBlockCount childTerminated /\
  command (devRegs k (deviceAddress 0)) = 0.
Proof.
  cbv zeta. splits; vm_compute; reflexivity.
Qed.

(** ** The wait state of the scheduler *)

(** C8, as amended.  With an empty ready queue, live processes and
    soft-blocked processes, the scheduler enables interrupts, sets
    [g_endOfInterval] to the time of day plus [INTERVAL], programs the
    timer with the distance from the time of day, read once more, to
    this new end of interval, and waits.  The end of the interval that
    was scheduled before plays no part. *)
Theorem C8_wait_state_restarts_interval (k : kstate) :
  g_readyQueue k = NULL ->
  0 < g_procCount k ->
  0 < g_softBlockCount k ->
  let t1 := wrap_uint (todReads k (todCount k)) in
  let t2 := wrap_uint (todReads k (S (todCount k))) in
  exists k',
    scheduler k = Stop Wait k' /\
    Z.land (statusReg k') INTSDISABLED = 0 /\
    g_endOfInterval k' = wrap_int (t1 + INTERVAL) /\
    timerReg k' = wrap_uint (wrap_int (t1 + INTERVAL) - t2) /\
    g_currentProc k' = g_currentProc k /\
    g_readyQueue k' = NULL.
Proof.
  intros Hrq Hpc Hsb t1 t2.
  eexists. split.
  - unfold scheduler. rewrite bind_gets, Hrq. cbn [emptyProcQ isNull].
    apply bind_Stop. unfold when at 1. rewrite bind_gets.
    destruct (Z.eqb_spec (g_procCount k) 0) as [E|_]; [lia|].
    unfold when at 1. rewrite bind_ret, bind_gets.
    destruct (Z.eqb_spec (g_softBlockCount k) 0) as [E|_]; [lia|].
    unfold when at 1. rewrite bind_ret.
    unfold setSTATUS, setTIMER, WAIT.
    rewrite bind_modify.
    unfold getTODLO at 1, bind at 1.
    rewrite bind_modify, bind_gets.
    unfold getTODLO at 1, bind at 1.
    rewrite bind_modify. unfold stopWith. reflexivity.
  - cbn. splits; auto.
Qed.

Lemma C8_wait_state_restarts_interval_witness :
  let k := slowIdle in
  let t1 := wrap_uint (todReads k (todCount k)) in
  let t2 := wrap_uint (todReads k (S (todCount k))) in
  exists k',
    scheduler k = Stop Wait k' /\
    Z.land (statusReg k') INTSDISABLED = 0 /\
    g_endOfInterval k' = wrap_int (t1 + INTERVAL) /\
    timerReg k' = wrap_uint (wrap_int (t1 + INTERVAL) - t2) /\
    g_currentProc k' = g_currentProc k /\
    g_readyQueue k' = NULL.
Proof.
  refine (C8_wait_state_restarts_interval slowIdle _ _ _);
    vm_compute; reflexivity.
Defined.

(** C8 as stated fails.  The nucleus is idle with the end of the
    interval scheduled at 151000 and the clock at 71000.  Re-entering the
    scheduler moves the end of the interval to 171000 and programs the
    timer with 90000, so that it fires at 171000; programming it for the
    scheduled end of the interval would have meant 80000. *)
Lemma C8_interval_pushed_later :
  g_readyQueue slowIdle = NULL /\
  0 < g_procCount slowIdle /\
  0 < g_softBlockCount slowIdle /\
  stoppedBy (scheduler slowIdle) = Some Wait /\
  g_endOfInterval slowIdle = 151000 /\
  g_endOfInterval (finalState (scheduler slowIdle)) = 171000 /\
  timerReg (finalState (scheduler slowIdle)) = 90000 /\
  g_endOfInterval (finalState (waitState_asSpecified slowIdle)) = 151000 /\
  timerReg (finalState (waitState_asSpecified slowIdle)) = 80000 /\
  g_endOfInterval (finalState (scheduler slowIdle)) <> g_endOfInterval slowIdle.
Proof.
  splits; try (vm_compute; reflexivity). vm_compute. discriminate.
Qed.

(** ** The line-2 handler at the end of an interval *)

(** With the bottom dummy node linked behind the head of the ASL, the
    search of the ASL works and the handler gets past the wake-up.
    Process 0 runs, process 1 is ready, and the timer interrupts after
    the end of the interval.  The handler resumes process 0 and leaves
    process 1 on the ready queue; falling through to the end of the
    quantum would have put process 0 behind process 1 and dispatched
    process 1. *)
Lemma bracketed_interval_tick_resumes_interrupted_process :
  g_currentProc lateTick = Some 0%nat /\
  procQueue (procTable lateTick) (g_readyQueue lateTick) = Some [1%nat] /\
  wrap_uint (g_endOfInterval lateTick)
    <= wrap_uint (todReads lateTick (S (todCount lateTick))) /\
  (let r := interruptHandler uarm lateTick in
   stoppedBy r = Some LoadState /\
   g_currentProc (finalState r) = Some 0%nat /\
   procQueue (procTable (finalState r)) (g_readyQueue (finalState r)) = Some [1%nat]) /\
  (let r := lineTwoHandler_asSpecified uarm lateTick in
   stoppedBy r = Some LoadState /\
   g_currentProc (finalState r) = Some 1%nat /\
   procQueue (procTable (finalState r)) (g_readyQueue (finalState r)) = Some [0%nat]) /\
  g_currentProc (finalState (lineTwoHandler uarm lateTick))
    <> g_currentProc (finalState (lineTwoHandler_asSpecified uarm lateTick)).
Proof.
  cbv zeta. splits; try (vm_compute; reflexivity); vm_compute; discriminate.
Qed.

(** ** Device semaphores and their queues *)

(** With the bottom dummy node linked behind the head of the ASL,
    processes can be blocked.  Process 2 waits for disk 0: the semaphore
    of the disk is -1 with one process in its queue, and every device
    semaphore matches its queue.  Process 1 terminates itself and, with
    it, process 2; the handler returns to process 0.  The semaphore of
    the disk is still -1, its queue is empty, and only the soft-block
    count went down. *)
Lemma bracketed_termination_leaves_counter :
  let r := sys TERMINATEPROCESS 0 0 0 grandchildWaits in
  let k := finalState r in
  deviceSemsOk uarm grandchildWaits = true /\
  intMem grandchildWaits (semAt uarm 0) = -1 /\
  blockedOn grandchildWaits (semAt uarm 0) = Some [2%nat] /\
  g_softBlockCount grandchildWaits = 1 /\
  stoppedBy r = Some LoadState /\
  g_currentProc k = Some 0%nat /\
  intMem k (semAt uarm 0) = -1 /\
  blockedOn k (semAt uarm 0) = Some [] /\
  g_softBlockCount k = 0 /\
  deviceSemOk uarm k 0 = false /\
  deviceSemsOk uarm k = false.
Proof.
  cbv zeta. splits; vm_compute; reflexivity.
Qed.

(** ** What the queue and list operations leave alone *)

Lemma keeps_ret {A B : Type} (f : kstate -> B) (a : A) : keeps f (ret a).
Proof. intros k. reflexivity. Qed.

Lemma keeps_gets {A B : Type} (f : kstate -> B) (g : kstate -> A) : keeps f (gets g).
Proof. intros k. reflexivity. Qed.

Lemma keeps_stopWith {A B : Type} (f : kstate -> B) (e : stop) :
  keeps f (@stopWith A e).
Proof. intros k. reflexivity. Qed.

Lemma keeps_modify {B : Type} (f : kstate -> B) (g : kstate -> kstate) :
  (forall k, f (g k) = f k) -> keeps f (modify g).
Proof. intros H k. apply H. Qed.

Lemma keeps_bind {A B C : Type} (f : kstate -> C) (m : M A) (g : A -> M B) :
  keeps f m -> (forall a, keeps f (g a)) -> keeps f (bind m g).
Proof.
  intros Hm Hg k. unfold bind. specialize (Hm k).
  destruct (m k) as [a k1|e k1]; cbn [finalState] in *.
  - now rewrite Hg.
  - exact Hm.
Qed.

Lemma keeps_when {B : Type} (f : kstate -> B) (c : bool) (m : M unit) :
  keeps f m -> keeps f (when c m).
Proof. intros H. destruct c; [exact H | apply keeps_ret]. Qed.

Lemma keeps_rdPcb {A B : Type} (f : kstate -> B) p (field : pcb_t -> A) :
  keeps f (rdPcb p field).
Proof.
  intros k. unfold rdPcb. destruct p as [i|]; [|reflexivity].
  now destruct (procTable k !! i).
Qed.

Lemma keeps_rdSemd {A B : Type} (f : kstate -> B) d (field : semd_t -> A) :
  keeps f (rdSemd d field).
Proof.
  intros k. unfold rdSemd. destruct d as [i|]; [|reflexivity].
  now destruct (semdTable k !! i).
Qed.

Lemma linkUpdate_next v : linkUpdate (set_p_next v).
Proof. intros b. reflexivity. Qed.

Lemma linkUpdate_prev v : linkUpdate (set_p_prev v).
Proof. intros b. reflexivity. Qed.

Section Frame.

Context {B : Type} (allowed : (pcb_t -> pcb_t) -> Prop) (f : kstate -> B).
Context (Hf : blindTo allowed f).
Context (Hnext : forall v, allowed (set_p_next v)).
Context (Hprev : forall v, allowed (set_p_prev v)).

Lemma keeps_wrPcb p upd : allowed upd -> keeps f (wrPcb p upd).
Proof.
  intros Hupd k. unfold wrPcb. destruct p as [i|]; [|reflexivity].
  destruct (procTable k !! i) eqn:E; [|reflexivity].
  cbn [finalState]. now apply (blind_procTable allowed f Hf).
Qed.

Lemma keeps_wrSemd d upd : keeps f (wrSemd d upd).
Proof.
  intros k. unfold wrSemd. destruct d as [i|]; [|reflexivity].
  destruct (semdTable k !! i); [|reflexivity].
  cbn [finalState]. apply (blind_semdTable allowed f Hf). apply length_insert.
Qed.

Lemma keeps_rdTail tp : keeps f (rdTail tp).
Proof. destruct tp; cbn [rdTail]; [apply keeps_gets .. | apply keeps_rdSemd]. Qed.

Lemma keeps_wrTail tp p : keeps f (wrTail tp p).
Proof.
  destruct tp; cbn [wrTail].
  - apply keeps_modify, (blind_pcbList_h allowed f Hf).
  - apply keeps_modify, (blind_g_readyQueue allowed f Hf).
  - apply keeps_wrSemd.
Qed.

(** One step of a structural proof of [keeps]. *)
Ltac keeps_step :=
  first
    [ apply keeps_bind; [|intros ?]
    | apply keeps_ret
    | apply keeps_gets
    | apply keeps_stopWith
    | apply keeps_rdPcb
    | apply keeps_rdSemd
    | apply keeps_wrPcb; first [ apply Hnext | apply Hprev ]
    | apply keeps_wrSemd
    | apply keeps_rdTail
    | apply keeps_wrTail
    | apply keeps_when
    | apply keeps_modify; first [ apply (blind_pcbList_h allowed f Hf)
                                | apply (blind_g_readyQueue allowed f Hf)
                                | apply (blind_semdFree_h allowed f Hf) ]
    | match goal with
      | |- keeps _ (if ?c then _ else _) => destruct c
      end ].

Lemma keeps_headProcQ tp : keeps f (headProcQ tp).
Proof. unfold headProcQ. repeat keeps_step. Qed.

Lemma keeps_insertProcQ tp p : keeps f (insertProcQ tp p).
Proof. unfold insertProcQ. repeat keeps_step. Qed.

Lemma keeps_removeProcQ tp : keeps f (removeProcQ tp).
Proof. unfold removeProcQ. repeat keeps_step. Qed.

Lemma keeps_outProcQ_while fuel tp p : forall q, keeps f (outProcQ_while fuel tp p q).
Proof.
  induction fuel as [|fuel IH]; intros q; cbn [outProcQ_while].
  - apply keeps_stopWith.
  - repeat first [ apply IH | keeps_step ].
Qed.

Lemma keeps_outProcQ tp p : keeps f (outProcQ tp p).
Proof.
  unfold outProcQ. repeat first [ apply keeps_outProcQ_while | keeps_step ].
Qed.

Lemma keeps_freePcb p : keeps f (freePcb p).
Proof. apply keeps_insertProcQ. Qed.

Lemma keeps_freeSemd d : keeps f (freeSemd d).
Proof. unfold freeSemd. repeat keeps_step. Qed.

Lemma keeps_allocateSemd : keeps f allocateSemd.
Proof. unfold allocateSemd. repeat keeps_step. Qed.

Lemma keeps_findPrevSemd_while fuel semAdd : forall c,
  keeps f (findPrevSemd_while fuel semAdd c).
Proof.
  induction fuel as [|fuel IH]; intros c; cbn [findPrevSemd_while].
  - apply keeps_stopWith.
  - repeat first [ apply IH | keeps_step ].
Qed.

Lemma keeps_findPrevSemd semAdd : keeps f (findPrevSemd semAdd).
Proof.
  unfold findPrevSemd. repeat first [ apply keeps_findPrevSemd_while | keeps_step ].
Qed.

Lemma keeps_notOnASL prev semAdd : keeps f (notOnASL prev semAdd).
Proof. unfold notOnASL. repeat keeps_step. Qed.

Lemma keeps_releaseIfEmpty prev : keeps f (releaseIfEmpty prev).
Proof. unfold releaseIfEmpty. repeat first [ apply keeps_freeSemd | keeps_step ]. Qed.

Lemma keeps_removeBlocked semAdd : keeps f (removeBlocked semAdd).
Proof.
  unfold removeBlocked.
  repeat first [ apply keeps_findPrevSemd | apply keeps_notOnASL
               | apply keeps_removeProcQ | apply keeps_releaseIfEmpty | keeps_step ].
Qed.

Lemma keeps_outBlocked p : keeps f (outBlocked p).
Proof.
  unfold outBlocked.
  repeat first [ apply keeps_findPrevSemd | apply keeps_notOnASL
               | apply keeps_outProcQ | apply keeps_releaseIfEmpty | keeps_step ].
Qed.

Lemma keeps_headBlocked semAdd : keeps f (headBlocked semAdd).
Proof.
  unfold headBlocked.
  repeat first [ apply keeps_findPrevSemd | apply keeps_notOnASL
               | apply keeps_headProcQ | keeps_step ].
Qed.

End Frame.

(** The operations that also write other members of a ProcBlk keep what
    is blind to any update. *)
Section FrameAny.

Context {B : Type} (f : kstate -> B) (Hf : blindTo anyUpdate f).

Ltac keeps_any :=
  first
    [ first [ eapply keeps_removeProcQ | eapply keeps_insertProcQ
            | eapply keeps_findPrevSemd | eapply keeps_allocateSemd ];
      first [ exact Hf | intros; exact I ]
    | apply keeps_bind; [|intros ?]
    | apply keeps_ret
    | apply keeps_gets
    | apply keeps_stopWith
    | apply keeps_rdPcb
    | apply keeps_rdSemd
    | apply (keeps_wrPcb anyUpdate f Hf); exact I
    | apply (keeps_wrSemd anyUpdate f Hf)
    | apply keeps_when
    | match goal with
      | |- keeps _ (if ?c then _ else _) => destruct c
      end ].

Lemma keeps_allocPcb : keeps f allocPcb.
Proof. unfold allocPcb. repeat keeps_any. Qed.

Lemma keeps_emptyChild p : keeps f (emptyChild p).
Proof. unfold emptyChild. repeat keeps_any. Qed.

Lemma keeps_insertChild prnt p : keeps f (insertChild prnt p).
Proof. unfold insertChild, emptyChild. repeat keeps_any. Qed.

Lemma keeps_removeChild prnt : keeps f (removeChild prnt).
Proof. unfold removeChild, emptyChild. repeat keeps_any. Qed.

Lemma keeps_outChild p : keeps f (outChild p).
Proof. unfold outChild. repeat first [ apply keeps_removeChild | keeps_any ]. Qed.

Lemma keeps_insertBlocked semAdd p : keeps f (insertBlocked semAdd p).
Proof. unfold insertBlocked. repeat keeps_any. Qed.

End FrameAny.

(** ** Process queues *)

(** *** Reads and writes of the table *)

Lemma insert_as_alter {A : Type} (f : A -> A) (l : list A) i x :
  l !! i = Some x -> <[i := f x]> l = alter f i l.
Proof.
  intros H. apply list_eq. intros j. destruct (decide (j = i)) as [->|Hne].
  - rewrite list_lookup_insert_eq by (now apply lookup_lt_Some in H).
    rewrite list_lookup_alter_eq, H. reflexivity.
  - rewrite list_lookup_insert_ne by congruence.
    now rewrite list_lookup_alter_ne by congruence.
Qed.

Lemma rdPcb_lt {A : Type} (field : pcb_t -> A) k i :
  (i < length (procTable k))%nat ->
  exists b, procTable k !! i = Some b /\ rdPcb (Some i) field k = Ret (field b) k.
Proof.
  intros H. destruct (lookup_lt_is_Some_2 _ _ H) as [b Hb].
  exists b. split; [exact Hb|now apply rdPcb_Some].
Qed.

Lemma rdPcb_next k i :
  (i < length (procTable k))%nat ->
  rdPcb (Some i) p_next k = Ret (nextOf (procTable k) i) k.
Proof.
  intros H. destruct (rdPcb_lt p_next k i H) as (b & Hb & ->).
  unfold nextOf. now rewrite Hb.
Qed.

Lemma rdPcb_prev k i :
  (i < length (procTable k))%nat ->
  rdPcb (Some i) p_prev k = Ret (prevOf (procTable k) i) k.
Proof.
  intros H. destruct (rdPcb_lt p_prev k i H) as (b & Hb & ->).
  unfold prevOf. now rewrite Hb.
Qed.

Lemma wrPcb_lt upd k i :
  (i < length (procTable k))%nat ->
  wrPcb (Some i) upd k = Ret tt (set_procTable (alter upd i (procTable k)) k).
Proof.
  intros H. destruct (lookup_lt_is_Some_2 _ _ H) as [b Hb].
  rewrite (wrPcb_Some upd k i b Hb). now rewrite (insert_as_alter upd _ _ _ Hb).
Qed.

Lemma nextOf_alter_next tbl i v x :
  (i < length tbl)%nat ->
  nextOf (alter (set_p_next v) i tbl) x = if decide (x = i) then v else nextOf tbl x.
Proof.
  intros H. unfold nextOf. destruct (decide (x = i)) as [->|Hne].
  - rewrite list_lookup_alter_eq. destruct (lookup_lt_is_Some_2 _ _ H) as [b ->].
    reflexivity.
  - now rewrite list_lookup_alter_ne by congruence.
Qed.

Lemma prevOf_alter_next tbl i v x :
  prevOf (alter (set_p_next v) i tbl) x = prevOf tbl x.
Proof.
  unfold prevOf. destruct (decide (x = i)) as [->|Hne].
  - rewrite list_lookup_alter_eq. now destruct (tbl !! i).
  - now rewrite list_lookup_alter_ne by congruence.
Qed.

Lemma prevOf_alter_prev tbl i v x :
  (i < length tbl)%nat ->
  prevOf (alter (set_p_prev v) i tbl) x = if decide (x = i) then v else prevOf tbl x.
Proof.
  intros H. unfold prevOf. destruct (decide (x = i)) as [->|Hne].
  - rewrite list_lookup_alter_eq. destruct (lookup_lt_is_Some_2 _ _ H) as [b ->].
    reflexivity.
  - now rewrite list_lookup_alter_ne by congruence.
Qed.

Lemma nextOf_alter_prev tbl i v x :
  nextOf (alter (set_p_prev v) i tbl) x = nextOf tbl x.
Proof.
  unfold nextOf. destruct (decide (x = i)) as [->|Hne].
  - rewrite list_lookup_alter_eq. now destruct (tbl !! i).
  - now rewrite list_lookup_alter_ne by congruence.
Qed.

Lemma payload_alter upd (i : nat) (tbl : list pcb_t) :
  linkUpdate upd -> payload <$> alter upd i tbl = payload <$> tbl.
Proof.
  intros H. apply list_eq. intros j. rewrite !list_lookup_fmap.
  destruct (decide (j = i)) as [->|Hne].
  - rewrite list_lookup_alter_eq. destruct (tbl !! i); [|reflexivity].
    cbn. now rewrite H.
  - now rewrite list_lookup_alter_ne by congruence.
Qed.

(** *** Tail pointers *)

Lemma rdTail_at tp k t : tailAt tp k = Some t -> rdTail tp k = Ret t k.
Proof.
  destruct tp as [| |[d|]]; cbn [tailAt rdTail]; intros H.
  - now injection H as <-.
  - now injection H as <-.
  - unfold rdSemd. destruct (semdTable k !! d); [|discriminate].
    cbn in H. now injection H as <-.
  - discriminate.
Qed.

Lemma tailAt_set_procTable tp tbl k : tailAt tp (set_procTable tbl k) = tailAt tp k.
Proof. now destruct tp as [| |[d|]]. Qed.

(** *** Linked lists of ProcBlks *)

Lemma linked_app tbl l1 x l2 :
  linked tbl (l1 ++ x :: l2) <-> linked tbl (l1 ++ [x]) /\ linked tbl (x :: l2).
Proof.
  induction l1 as [|a l1 IH]; cbn [app].
  - cbn [linked]. tauto.
  - destruct l1 as [|a' l1].
    + cbn [app linked] in *. tauto.
    + change ((a :: a' :: l1) ++ [x]) with (a :: (a' :: l1) ++ [x]).
      change (linked tbl (a :: (a' :: l1) ++ x :: l2))
        with (nextOf tbl a = Some a' /\ prevOf tbl a' = Some a /\
              linked tbl ((a' :: l1) ++ x :: l2)).
      change (linked tbl (a :: (a' :: l1) ++ [x]))
        with (nextOf tbl a = Some a' /\ prevOf tbl a' = Some a /\
              linked tbl ((a' :: l1) ++ [x])).
      tauto.
Qed.

Lemma last_cons_cons {A : Type} (a b : A) l d :
  List.last (a :: b :: l) d = List.last (b :: l) d.
Proof. reflexivity. Qed.

Lemma last_elem_of {A : Type} (a : A) l d : List.last (a :: l) d ∈ a :: l.
Proof.
  revert a. induction l as [|b l IH]; intros a.
  - cbn. (apply elem_of_cons; now left).
  - rewrite last_cons_cons. apply elem_of_cons; right; apply IH.
Qed.

Lemma last_default {A : Type} (a : A) l d d' :
  List.last (a :: l) d = List.last (a :: l) d'.
Proof.
  revert a. induction l as [|b l IH]; intros a; [reflexivity|].
  rewrite !last_cons_cons. apply IH.
Qed.

(** A table that agrees on the forward links of all but the last and on
    the backward links of all but the first element links the same
    list. *)
Lemma linked_ext tbl tbl' h l :
  NoDup (h :: l) ->
  (forall x, x ∈ h :: l -> x <> List.last (h :: l) h -> nextOf tbl' x = nextOf tbl x) ->
  (forall y, y ∈ l -> prevOf tbl' y = prevOf tbl y) ->
  linked tbl (h :: l) -> linked tbl' (h :: l).
Proof.
  revert h. induction l as [|a l IH]; intros h Hnd Hn Hp H; [exact I|].
  destruct H as (H1 & H2 & H3). cbn [linked].
  apply NoDup_cons in Hnd as [Hh Hnd].
  split; [|split].
  - rewrite Hn; [exact H1|(apply elem_of_cons; now left)|].
    rewrite last_cons_cons. intros E. apply Hh. rewrite E.
    rewrite (last_default a l h a). apply last_elem_of.
  - rewrite Hp; [exact H2|(apply elem_of_cons; now left)].
  - apply IH; [exact Hnd| | |exact H3].
    + intros x Hx Hl. apply Hn; [apply elem_of_cons; now right|].
      rewrite last_cons_cons, (last_default a l h a). exact Hl.
    + intros y Hy. apply Hp. apply elem_of_cons; now right.
Qed.

Lemma wrTail_at tp k t v :
  tailAt tp k = Some t -> wrTail tp v k = Ret tt (setTail tp v k).
Proof.
  destruct tp as [| |[d|]]; cbn [tailAt wrTail setTail]; intros H;
    try reflexivity; [|discriminate].
  unfold wrSemd. destruct (semdTable k !! d) as [x|] eqn:E; [|discriminate].
  now rewrite (insert_as_alter (set_s_procQ v) _ _ _ E).
Qed.

Lemma procTable_setTail tp v k : procTable (setTail tp v k) = procTable k.
Proof. now destruct tp as [| |[d|]]. Qed.

Lemma tailAt_setTail tp k t v :
  tailAt tp k = Some t -> tailAt tp (setTail tp v k) = Some v.
Proof.
  destruct tp as [| |[d|]]; cbn [tailAt setTail]; intros H; try reflexivity;
    [|discriminate].
  cbn [semdTable set_semdTable]. rewrite list_lookup_alter_eq.
  destruct (semdTable k !! d); [reflexivity|discriminate].
Qed.

Lemma linked_snoc tbl a l x :
  linked tbl ((a :: l) ++ [x]) <->
  linked tbl (a :: l) /\
  nextOf tbl (List.last (a :: l) a) = Some x /\
  prevOf tbl x = Some (List.last (a :: l) a).
Proof.
  revert a. induction l as [|b l IH]; intros a.
  - cbn. tauto.
  - rewrite last_cons_cons, (last_default b l a b).
    change (linked tbl ((a :: b :: l) ++ [x]))
      with (nextOf tbl a = Some b /\ prevOf tbl b = Some a /\
            linked tbl ((b :: l) ++ [x])).
    change (linked tbl (a :: b :: l))
      with (nextOf tbl a = Some b /\ prevOf tbl b = Some a /\ linked tbl (b :: l)).
    rewrite IH. tauto.
Qed.

(** *** Stepping through the table *)

Lemma set_procTable_id k : set_procTable (procTable k) k = k.
Proof. now destruct k. Qed.

Lemma wrPcb_on upd tbl k i :
  (i < length tbl)%nat ->
  wrPcb (Some i) upd (set_procTable tbl k)
  = Ret tt (set_procTable (alter upd i tbl) k).
Proof. intros H. now rewrite wrPcb_lt. Qed.

Lemma rdPcb_next_on tbl k i :
  (i < length tbl)%nat ->
  rdPcb (Some i) p_next (set_procTable tbl k)
  = Ret (nextOf tbl i) (set_procTable tbl k).
Proof. intros H. now rewrite rdPcb_next. Qed.

Lemma rdPcb_prev_on tbl k i :
  (i < length tbl)%nat ->
  rdPcb (Some i) p_prev (set_procTable tbl k)
  = Ret (prevOf tbl i) (set_procTable tbl k).
Proof. intros H. now rewrite rdPcb_prev. Qed.

Lemma rdTail_on tp tbl k t :
  tailAt tp k = Some t ->
  rdTail tp (set_procTable tbl k) = Ret t (set_procTable tbl k).
Proof. intros H. apply rdTail_at. now rewrite tailAt_set_procTable. Qed.

Lemma wrTail_on tp tbl k t v :
  tailAt tp k = Some t ->
  wrTail tp v (set_procTable tbl k) = Ret tt (setTail tp v (set_procTable tbl k)).
Proof. intros H. apply (wrTail_at _ _ t). now rewrite tailAt_set_procTable. Qed.

(** Membership in a list written with [::]. *)
Ltac in_list := rewrite ?elem_of_cons; auto.

(** One statement of a queue function, run on a table. *)
Ltac queue_run Htail :=
  first
    [ apply rdTail_on; exact Htail
    | apply rdPcb_next_on; rewrite ?length_alter; assumption
    | apply rdPcb_prev_on; rewrite ?length_alter; assumption
    | apply wrPcb_on; rewrite ?length_alter; assumption
    | eapply wrTail_on; exact Htail ].

Ltac queue_step Htail :=
  rewrite ?bind_assoc;
  first
    [ rewrite bind_ret
    | erewrite bind_Ret; [|queue_run Htail]
    | etransitivity; [queue_run Htail|] ].

Lemma ring_head_tail tbl t h q :
  ring tbl t (h :: q) ->
  let tl := List.last (h :: q) h in
  t = Some tl /\ (tl < length tbl)%nat /\ (h < length tbl)%nat /\
  linked tbl (h :: q) /\ nextOf tbl tl = Some h /\ prevOf tbl h = Some tl.
Proof.
  intros (Hnd & Hlt & Ht & Hl) tl.
  apply linked_snoc in Hl as (Hl & Hn & Hp).
  splits; auto.
  - rewrite Forall_forall in Hlt. apply Hlt, last_elem_of.
  - now inversion Hlt.
Qed.

Lemma ring_cons_intro tbl tp h l :
  NoDup (h :: l) ->
  Forall (fun x => (x < length tbl)%nat) (h :: l) ->
  tp = Some (List.last (h :: l) h) ->
  linked tbl ((h :: l) ++ [h]) ->
  ring tbl tp (h :: l).
Proof. intros. unfold ring. auto. Qed.

(** *** insertProcQ *)

(** On a well-formed queue [q], [insertProcQ] of a ProcBlk that is not
    in [q] returns with the queue [q ++ [p]]: the new element is the
    tail.  Only queue links of ProcBlks of the new queue are written. *)
Lemma insertProcQ_ring (tp : tailLoc) (k : kstate) (q : list nat) (p : nat) :
  queueAt tp k q ->
  (p < length (procTable k))%nat ->
  p ∉ q ->
  exists tbl',
    insertProcQ tp (Some p) k = Ret tt (setTail tp (Some p) (set_procTable tbl' k)) /\
    ring tbl' (Some p) (q ++ [p]) /\
    length tbl' = length (procTable k) /\
    payload <$> tbl' = payload <$> procTable k /\
    (forall x, x ∉ q -> x <> p -> tbl' !! x = procTable k !! x).
Proof.
  intros (t & Htail & Hring) Hp Hnotin.
  enough (H : exists tbl',
             insertProcQ tp (Some p) (set_procTable (procTable k) k)
             = Ret tt (setTail tp (Some p) (set_procTable tbl' k)) /\
             ring tbl' (Some p) (q ++ [p]) /\
             length tbl' = length (procTable k) /\
             payload <$> tbl' = payload <$> procTable k /\
             (forall x, x ∉ q -> x <> p -> tbl' !! x = procTable k !! x))
    by now rewrite set_procTable_id in H.
  set (tbl := procTable k) in *.
  unfold insertProcQ.
  destruct q as [|h q].
  - (* empty queue *)
    destruct Hring as (_ & _ & ->).
    queue_step Htail. cbn [emptyProcQ isNull].
    do 2 queue_step Htail. rewrite (wrTail_on _ _ _ _ _ Htail).
    eexists. split; [reflexivity|]. split; [|splits].
    + apply ring_cons_intro.
      * apply NoDup_singleton.
      * constructor; [|constructor]. now rewrite !length_alter.
      * reflexivity.
      * cbn [app linked].
        rewrite prevOf_alter_prev, nextOf_alter_prev, nextOf_alter_next
          by now rewrite ?length_alter.
        rewrite !decide_True by reflexivity. auto.
    + now rewrite !length_alter.
    + rewrite !payload_alter; [reflexivity|apply linkUpdate_next|apply linkUpdate_prev].
    + intros x _ Hx. now rewrite !list_lookup_alter_ne by congruence.
  - (* the queue has a head [h] and a tail [tl] *)
    pose proof (ring_head_tail _ _ _ _ Hring) as (-> & Htl & Hh & Hl & Hn & Hpv).
    destruct Hring as (Hnd & Hlt & _).
    set (tl := List.last (h :: q) h) in *.
    assert (Hptl : p <> tl).
    { intros ->. apply Hnotin, last_elem_of. }
    assert (Hph : p <> h).
    { intros ->. apply Hnotin, elem_of_cons. now left. }
    queue_step Htail. cbn [emptyProcQ isNull].
    queue_step Htail. queue_step Htail. rewrite Hn.
    queue_step Htail. queue_step Htail. queue_step Htail.
    rewrite nextOf_alter_next, decide_False by (assumption || congruence). rewrite Hn.
    queue_step Htail. queue_step Htail. queue_step Htail.
    queue_step Htail. queue_step Htail. rewrite (wrTail_on _ _ _ _ _ Htail).
    eexists. split; [reflexivity|].
    match goal with |- ring ?T _ _ /\ _ => set (tbl4 := T) end.
    assert (Hnx : forall x, nextOf tbl4 x
                  = if decide (x = tl) then Some p
                    else if decide (x = p) then Some h else nextOf tbl x).
    { intros x. subst tbl4.
      rewrite nextOf_alter_prev, nextOf_alter_next, nextOf_alter_prev,
        nextOf_alter_next by now rewrite ?length_alter.
      reflexivity. }
    assert (Hpx : forall x, prevOf tbl4 x
                  = if decide (x = p) then Some tl
                    else if decide (x = h) then Some p else prevOf tbl x).
    { intros x. subst tbl4.
      rewrite prevOf_alter_prev, prevOf_alter_next, prevOf_alter_prev,
        prevOf_alter_next by now rewrite ?length_alter.
      reflexivity. }
    assert (Hlast : List.last ((h :: q) ++ [p]) h = p) by apply List.last_last.
    split; [|splits].
    + change ((h :: q) ++ [p]) with (h :: (q ++ [p])). apply ring_cons_intro;
        change (h :: (q ++ [p])) with ((h :: q) ++ [p]).
      * apply NoDup_app. splits; [exact Hnd| |apply NoDup_singleton].
        intros x Hx Hx'. apply list_elem_of_singleton in Hx'. now subst.
      * apply Forall_app. split.
        -- eapply Forall_impl; [exact Hlt|]. intros x Hx. subst tbl4.
           now rewrite !length_alter.
        -- constructor; [|constructor]. subst tbl4. now rewrite !length_alter.
      * now rewrite Hlast.
      * change ((h :: q) ++ [p]) with (h :: (q ++ [p])).
        apply linked_snoc.
        change (h :: (q ++ [p])) with ((h :: q) ++ [p]). rewrite Hlast.
        splits.
        -- apply linked_snoc. fold tl. splits.
           ++ apply (linked_ext tbl); [exact Hnd| | |exact Hl].
              ** intros x Hx Hxl. fold tl in Hxl. rewrite Hnx.
                 rewrite decide_False by exact Hxl.
                 rewrite decide_False; [reflexivity|]. intros ->. now apply Hnotin.
              ** intros y Hy. rewrite Hpx.
                 rewrite decide_False.
                 --- rewrite decide_False; [reflexivity|].
                     intros ->. apply NoDup_cons in Hnd as [Hnd _]. now apply Hnd.
                 --- intros ->. apply Hnotin, elem_of_cons. now right.
           ++ rewrite Hnx. now rewrite decide_True.
           ++ rewrite Hpx. now rewrite decide_True.
        -- rewrite Hnx. rewrite decide_False by exact Hptl. now rewrite decide_True.
        -- rewrite Hpx. rewrite decide_False by congruence. now rewrite decide_True.
    + subst tbl4. now rewrite !length_alter.
    + subst tbl4.
      rewrite !payload_alter; [reflexivity|apply linkUpdate_next|apply linkUpdate_prev
                               |apply linkUpdate_next|apply linkUpdate_prev].
    + intros x Hx Hxp. subst tbl4.
      assert (x <> tl) by (intros ->; apply Hx, last_elem_of).
      assert (x <> h) by (intros ->; apply Hx, elem_of_cons; now left).
      now rewrite !list_lookup_alter_ne by congruence.
Qed.

(** *** removeProcQ *)

Lemma set_semdTable_id k : set_semdTable (semdTable k) k = k.
Proof. now destruct k. Qed.

Lemma setTail_same tp k t : tailAt tp k = Some t -> setTail tp t k = k.
Proof.
  destruct tp as [| |[d|]]; cbn [tailAt setTail]; intros H.
  - injection H as <-. now destruct k.
  - injection H as <-. now destruct k.
  - destruct (semdTable k !! d) as [x|] eqn:E; [|discriminate].
    cbn in H. injection H as <-.
    rewrite <- (insert_as_alter (set_s_procQ (s_procQ x)) _ _ _ E).
    replace (set_s_procQ (s_procQ x) x) with x by now destruct x.
    rewrite list_insert_id by exact E. apply set_semdTable_id.
  - discriminate.
Qed.

Lemma removeProcQ_on_empty (tp : tailLoc) (k : kstate) :
  queueAt tp k [] -> removeProcQ tp k = Ret NULL k.
Proof.
  intros (t & Htail & _ & _ & ->). unfold removeProcQ.
  now rewrite (bind_Ret _ _ _ _ _ (rdTail_at _ _ _ Htail)).
Qed.

Lemma ptr_eqb_refl p : ptr_eqb p p = true.
Proof. destruct p; cbn; [apply Nat.eqb_refl|reflexivity]. Qed.

Lemma ptr_eqb_neq (i j : nat) : i <> j -> ptr_eqb (Some i) (Some j) = false.
Proof. intros H. cbn. now apply Nat.eqb_neq. Qed.

(** On a well-formed queue [h :: q], [removeProcQ] returns the head [h]
    and leaves the queue [q]; the links of [h] are cleared unless it was
    the only element.  Only queue links of ProcBlks of the old queue are
    written. *)
Lemma removeProcQ_ring (tp : tailLoc) (k : kstate) (h : nat) (q : list nat) :
  queueAt tp k (h :: q) ->
  exists tbl' t',
    removeProcQ tp k = Ret (Some h) (setTail tp t' (set_procTable tbl' k)) /\
    ring tbl' t' q /\
    length tbl' = length (procTable k) /\
    payload <$> tbl' = payload <$> procTable k /\
    (forall x, x ∉ h :: q -> tbl' !! x = procTable k !! x).
Proof.
  intros (t & Htail & Hring).
  enough (H : exists tbl' t',
             removeProcQ tp (set_procTable (procTable k) k)
             = Ret (Some h) (setTail tp t' (set_procTable tbl' k)) /\
             ring tbl' t' q /\
             length tbl' = length (procTable k) /\
             payload <$> tbl' = payload <$> procTable k /\
             (forall x, x ∉ h :: q -> tbl' !! x = procTable k !! x))
    by now rewrite set_procTable_id in H.
  set (tbl := procTable k) in *.
  pose proof (ring_head_tail _ _ _ _ Hring) as (-> & Htl & Hh & Hl & Hn & Hpv).
  destruct Hring as (Hnd & Hlt & _).
  unfold removeProcQ.
  queue_step Htail. cbn [emptyProcQ isNull].
  queue_step Htail. rewrite Hn.
  destruct q as [|h2 q].
  - (* one element *)
    cbn [List.last]. rewrite ptr_eqb_refl.
    queue_step Htail. unfold ret.
    exists tbl, NULL. split; [reflexivity|].
    split; [|splits; auto]. unfold ring. splits; [constructor|constructor|reflexivity].
  - (* at least two elements *)
    set (tl := List.last (h :: h2 :: q) h) in *.
    assert (Hhtl : h <> tl).
    { intros E. apply NoDup_cons in Hnd as [Hnd _]. apply Hnd.
      rewrite E. unfold tl. rewrite last_cons_cons, (last_default h2 q h h2).
      apply last_elem_of. }
    rewrite (ptr_eqb_neq h tl Hhtl).
    destruct Hl as (Hhn & Hh2p & Hl2).
    assert (Hh2 : (h2 < length tbl)%nat).
    { rewrite Forall_forall in Hlt. apply Hlt. in_list. }
    queue_step Htail. queue_step Htail. rewrite Hn.
    queue_step Htail. rewrite Hhn.
    queue_step Htail. queue_step Htail. queue_step Htail.
    rewrite nextOf_alter_next, decide_True by (assumption || reflexivity).
    queue_step Htail. queue_step Htail. queue_step Htail. unfold ret.
    match goal with |- context [Ret _ (set_procTable ?T k)] => set (tbl4 := T) end.
    exists tbl4, (Some tl). split.
    { f_equal. symmetry. apply setTail_same. now rewrite tailAt_set_procTable. }
    assert (Hnx : forall x, nextOf tbl4 x
                  = if decide (x = h) then NULL
                    else if decide (x = tl) then Some h2 else nextOf tbl x).
    { intros x. subst tbl4.
      rewrite nextOf_alter_prev, nextOf_alter_next, nextOf_alter_prev,
        nextOf_alter_next by now rewrite ?length_alter.
      reflexivity. }
    assert (Hpx : forall x, prevOf tbl4 x
                  = if decide (x = h) then NULL
                    else if decide (x = h2) then Some tl else prevOf tbl x).
    { intros x. subst tbl4.
      rewrite prevOf_alter_prev, prevOf_alter_next, prevOf_alter_prev,
        prevOf_alter_next by now rewrite ?length_alter.
      reflexivity. }
    apply NoDup_cons in Hnd as [Hhq Hnd2].
    assert (Etl : List.last (h2 :: q) h2 = tl).
    { unfold tl. now rewrite last_cons_cons, (last_default h2 q h h2). }
    split; [|splits].
    + apply ring_cons_intro.
      * exact Hnd2.
      * inversion Hlt; subst. eapply Forall_impl; [eassumption|].
        intros x Hx. subst tbl4. now rewrite !length_alter.
      * now rewrite Etl.
      * apply linked_snoc. rewrite Etl. splits.
        -- apply (linked_ext tbl); [exact Hnd2| | |exact Hl2].
           ++ intros x Hx Hxl. rewrite Etl in Hxl. rewrite Hnx.
              rewrite decide_False by (intros ->; now apply Hhq).
              now rewrite decide_False.
           ++ intros y Hy. rewrite Hpx.
              rewrite decide_False by (intros ->; apply Hhq; in_list).
              rewrite decide_False; [reflexivity|].
              intros ->. apply NoDup_cons in Hnd2 as [Hnd2 _]. now apply Hnd2.
        -- rewrite Hnx. rewrite decide_False by congruence. now rewrite decide_True.
        -- rewrite Hpx.
           rewrite decide_False by (intros ->; apply Hhq; in_list).
           now rewrite decide_True.
    + subst tbl4. now rewrite !length_alter.
    + subst tbl4.
      rewrite !payload_alter; [reflexivity|apply linkUpdate_next|apply linkUpdate_prev
                               |apply linkUpdate_next|apply linkUpdate_prev].
    + intros x Hx. subst tbl4.
      assert (x <> tl) by (intros ->; apply Hx, last_elem_of).
      assert (x <> h) by (intros ->; apply Hx; in_list).
      assert (x <> h2) by (intros ->; apply Hx; in_list).
      now rewrite !list_lookup_alter_ne by congruence.
Qed.

(** *** headProcQ *)

Theorem headProcQ_peeks (t : pcb_PTR) (q : list nat) (k : kstate) :
  ring (procTable k) t q ->
  headProcQ t k = Ret (match q with [] => NULL | h :: _ => Some h end) k.
Proof.
  intros Hring. unfold headProcQ. destruct q as [|h q].
  - destruct Hring as (_ & _ & ->). reflexivity.
  - pose proof (ring_head_tail _ _ _ _ Hring) as (-> & Htl & _ & _ & Hn & _).
    cbn [emptyProcQ isNull]. now rewrite rdPcb_next, Hn.
Qed.

(** *** Rings, rotated *)

Lemma cyclic_rotate tbl l1 l2 : cyclic tbl (l1 ++ l2) <-> cyclic tbl (l2 ++ l1).
Proof.
  destruct l1 as [|h1 l1]; [now rewrite app_nil_r|].
  destruct l2 as [|h2 l2]; [now rewrite app_nil_r|].
  unfold cyclic. cbn [app].
  change (h1 :: l1 ++ h2 :: l2) with ((h1 :: l1) ++ h2 :: l2).
  change (h2 :: l2 ++ h1 :: l1) with ((h2 :: l2) ++ h1 :: l1).
  rewrite <- !app_assoc. cbn [app].
  rewrite (linked_app tbl (h1 :: l1) h2 (l2 ++ [h1])).
  rewrite (linked_app tbl (h2 :: l2) h1 (l1 ++ [h2])).
  tauto.
Qed.

Lemma linked_tail tbl a l : linked tbl (a :: l) -> linked tbl l.
Proof. destruct l as [|b l]; [easy|]. now intros (_ & _ & H). Qed.

Lemma linked_consecutive tbl l1 x y l2 :
  linked tbl (l1 ++ x :: y :: l2) -> nextOf tbl x = Some y /\ prevOf tbl y = Some x.
Proof.
  induction l1 as [|a l1 IH]; cbn [app].
  - now intros (H1 & H2 & _).
  - intros H. apply IH. exact (linked_tail _ _ _ H).
Qed.

Lemma ring_length tbl t q : ring tbl t q -> (length q <= length tbl)%nat.
Proof.
  intros (Hnd & Hlt & _).
  assert (E : length (seq 0 (length tbl)) = length tbl) by apply length_seq.
  etransitivity; [|apply Nat.eq_le_incl, E].
  apply submseteq_length, NoDup_submseteq; [exact Hnd|].
  intros x Hx. apply elem_of_seq. rewrite Forall_forall in Hlt.
  specialize (Hlt x Hx). lia.
Qed.

Lemma nextOf_bridged a b tbl x :
  (a < length tbl)%nat ->
  nextOf (bridged a b tbl) x = if decide (x = a) then Some b else nextOf tbl x.
Proof.
  intros H. unfold bridged.
  rewrite nextOf_alter_next by now rewrite length_alter.
  now rewrite nextOf_alter_prev.
Qed.

Lemma prevOf_bridged a b tbl x :
  (b < length tbl)%nat ->
  prevOf (bridged a b tbl) x = if decide (x = b) then Some a else prevOf tbl x.
Proof.
  intros H. unfold bridged.
  rewrite prevOf_alter_next. now rewrite prevOf_alter_prev.
Qed.

(** Taking the first element out of a circle of at least two: the rest
    is a circle in every table that bridges the gap and agrees with the
    old one elsewhere. *)
Lemma cyclic_drop_first tbl tbl' p b rest :
  NoDup (p :: b :: rest) ->
  cyclic tbl (p :: b :: rest) ->
  let a := List.last (b :: rest) b in
  nextOf tbl p = Some b /\ prevOf tbl p = Some a /\
  (nextOf tbl' a = Some b ->
   prevOf tbl' b = Some a ->
   (forall x, x <> a -> x <> p -> nextOf tbl' x = nextOf tbl x) ->
   (forall y, y <> b -> y <> p -> prevOf tbl' y = prevOf tbl y) ->
   cyclic tbl' (b :: rest)).
Proof.
  intros Hnd Hc a. unfold cyclic in Hc.
  change ((p :: b :: rest) ++ [p]) with (p :: ((b :: rest) ++ [p])) in Hc.
  destruct Hc as (Hn & Hp & Hl). cbn [app] in Hp.
  change (b :: rest ++ [p]) with ((b :: rest) ++ [p]) in Hl.
  apply linked_snoc in Hl as (Hl & Hna & Hpp). fold a in Hna, Hpp.
  apply NoDup_cons in Hnd as [Hpq Hnd].
  splits; auto.
  intros Hna' Hpb' Hnx Hpx. unfold cyclic.
  apply linked_snoc. fold a. splits; auto.
  apply (linked_ext tbl); [exact Hnd| | |exact Hl].
  - intros x Hx Hxa. apply Hnx; [exact Hxa|]. intros ->. now apply Hpq.
  - intros y Hy. apply Hpx.
    + intros ->. apply NoDup_cons in Hnd as [Hb _]. now apply Hb.
    + intros ->. apply Hpq. in_list.
Qed.

(** *** outProcQ *)

Lemma last_app_cons {A : Type} (l1 : list A) x l2 d :
  List.last (l1 ++ x :: l2) d = List.last (x :: l2) d.
Proof.
  induction l1 as [|a l1 IH]; [reflexivity|].
  cbn [app]. destruct (l1 ++ x :: l2) eqn:E.
  - now destruct l1.
  - rewrite last_cons_cons. exact IH.
Qed.

(** In a list without repetition only the last position holds the last
    element. *)
Lemma not_last_in_middle (l1 : list nat) x y l2 d :
  NoDup (l1 ++ x :: y :: l2) -> x <> List.last (l1 ++ x :: y :: l2) d.
Proof.
  intros Hnd E. rewrite last_app_cons, last_cons_cons in E.
  apply NoDup_app in Hnd as (_ & _ & Hnd). apply NoDup_cons in Hnd as [Hx _].
  apply Hx. rewrite E. rewrite (last_default y l2 d y). apply last_elem_of.
Qed.

(** The loop of [outProcQ] meets neither [p] nor anything to write when
    [p] is not in the part of the queue that lies ahead. *)
Lemma outProcQ_while_absent tp p tbl k tl :
  tailAt tp k = Some (Some tl) ->
  forall l2 l1 x fuel,
    NoDup (l1 ++ x :: l2) ->
    Forall (fun i => (i < length tbl)%nat) (l1 ++ x :: l2) ->
    linked tbl (l1 ++ x :: l2) ->
    List.last (l1 ++ x :: l2) x = tl ->
    p ∉ x :: l2 ->
    (length l2 < fuel)%nat ->
    outProcQ_while fuel tp (Some p) (Some x) (set_procTable tbl k)
    = Ret NULL (set_procTable tbl k).
Proof.
  intros Htail. induction l2 as [|y l2 IH]; intros l1 x fuel Hnd Hlt Hl Hlast Hp Hfuel;
    (destruct fuel as [|fuel]; [lia|]); cbn [outProcQ_while].
  - rewrite last_app_cons in Hlast. cbn in Hlast. subst x.
    queue_step Htail. now rewrite ptr_eqb_refl.
  - assert (Hx : x <> tl) by (rewrite <- Hlast; now apply not_last_in_middle).
    assert (Hxp : x <> p) by (intros ->; apply Hp; in_list).
    assert (Hxlt : (x < length tbl)%nat).
    { rewrite Forall_forall in Hlt. apply Hlt. rewrite elem_of_app. right. in_list. }
    queue_step Htail. rewrite (ptr_eqb_neq x tl Hx), (ptr_eqb_neq x p Hxp).
    queue_step Htail.
    destruct (linked_consecutive _ _ _ _ _ Hl) as [-> _].
    replace (l1 ++ x :: y :: l2) with ((l1 ++ [x]) ++ y :: l2) in *
      by now rewrite <- app_assoc.
    apply (IH (l1 ++ [x])); auto.
    + rewrite last_app_cons in Hlast |- *.
      now rewrite (last_default y l2 y x).
    + intros H. apply Hp. apply elem_of_cons. now right.
    + cbn in Hfuel. lia.
Qed.

(** What the loop does at [p], found between [a] and [b]. *)
Lemma outProcQ_while_found fuel tp p tbl k tl a b :
  tailAt tp k = Some (Some tl) ->
  p <> tl -> b <> p ->
  (p < length tbl)%nat -> (a < length tbl)%nat -> (b < length tbl)%nat ->
  nextOf tbl p = Some b -> prevOf tbl p = Some a ->
  outProcQ_while (S fuel) tp (Some p) (Some p) (set_procTable tbl k)
  = Ret (Some p)
      (set_procTable
         (alter (set_p_prev NULL) p (alter (set_p_next NULL) p (bridged a b tbl))) k).
Proof.
  intros Htail Hptl Hbp Hp Ha Hb Hn Hpv. cbn [outProcQ_while].
  queue_step Htail. rewrite (ptr_eqb_neq p tl Hptl), ptr_eqb_refl.
  queue_step Htail. rewrite Hn. queue_step Htail. rewrite Hpv.
  queue_step Htail. queue_step Htail.
  rewrite prevOf_alter_prev, decide_False by (assumption || congruence). rewrite Hpv.
  queue_step Htail. rewrite nextOf_alter_prev, Hn.
  queue_step Htail. queue_step Htail. queue_step Htail.
  reflexivity.
Qed.

(** The loop walks up to [p]. *)
Lemma outProcQ_while_reaches tp p tbl k tl :
  tailAt tp k = Some (Some tl) ->
  forall m1 l1 x m2 fuel,
    NoDup (l1 ++ (x :: m1) ++ p :: m2) ->
    Forall (fun i => (i < length tbl)%nat) (l1 ++ (x :: m1) ++ p :: m2) ->
    linked tbl (l1 ++ (x :: m1) ++ p :: m2) ->
    List.last (l1 ++ (x :: m1) ++ p :: m2) x = tl ->
    outProcQ_while (length (x :: m1) + fuel) tp (Some p) (Some x) (set_procTable tbl k)
    = outProcQ_while fuel tp (Some p) (Some p) (set_procTable tbl k).
Proof.
  intros Htail. induction m1 as [|y m1 IH]; intros l1 x m2 fuel Hnd Hlt Hl Hlast.
  - cbn [app length Nat.add outProcQ_while] in *.
    assert (Hx : x <> tl) by (rewrite <- Hlast; now apply not_last_in_middle).
    assert (Hxp : x <> p).
    { intros ->. apply NoDup_app in Hnd as (_ & _ & Hnd).
      apply NoDup_cons in Hnd as [Hnd _]. apply Hnd. in_list. }
    assert (Hxlt : (x < length tbl)%nat).
    { rewrite Forall_forall in Hlt. apply Hlt. rewrite elem_of_app. right. in_list. }
    queue_step Htail. rewrite (ptr_eqb_neq x tl Hx), (ptr_eqb_neq x p Hxp).
    queue_step Htail.
    now destruct (linked_consecutive _ _ _ _ _ Hl) as [-> _].
  - cbn [app length Nat.add outProcQ_while] in *.
    assert (Hx : x <> tl) by (rewrite <- Hlast; now apply not_last_in_middle).
    assert (Hxp : x <> p).
    { intros ->. apply NoDup_app in Hnd as (_ & _ & Hnd).
      apply NoDup_cons in Hnd as [Hnd _]. apply Hnd.
      rewrite !elem_of_cons, elem_of_app. right. right. in_list. }
    assert (Hxlt : (x < length tbl)%nat).
    { rewrite Forall_forall in Hlt. apply Hlt. rewrite elem_of_app. right. in_list. }
    queue_step Htail. rewrite (ptr_eqb_neq x tl Hx), (ptr_eqb_neq x p Hxp).
    queue_step Htail.
    destruct (linked_consecutive _ _ _ _ _ Hl) as [-> _].
    replace (l1 ++ x :: y :: m1 ++ p :: m2) with ((l1 ++ [x]) ++ (y :: m1) ++ p :: m2) in *
      by now rewrite <- app_assoc.
    apply (IH (l1 ++ [x]) y m2 fuel); auto.
    change ((y :: m1) ++ p :: m2) with (y :: (m1 ++ p :: m2)) in *.
    rewrite last_app_cons in Hlast |- *.
    now rewrite (last_default y _ y x).
Qed.

Lemma ring_cyclic tbl t q : ring tbl t q -> cyclic tbl q.
Proof. intros (_ & _ & H). destruct q; [exact I|apply H]. Qed.

Lemma ring_intro tbl h q :
  NoDup (h :: q) ->
  Forall (fun x => (x < length tbl)%nat) (h :: q) ->
  cyclic tbl (h :: q) ->
  ring tbl (Some (List.last (h :: q) h)) (h :: q).
Proof. intros. now apply ring_cons_intro. Qed.

(** Taking [p] out of a ring of at least two: [p] sits between the last
    and the first element of the ring read from behind [p], and the other
    elements form a ring in every table that bridges the gap and agrees
    with the old one elsewhere. *)
Lemma ring_unlink tbl tl l1 p l2 b rest :
  ring tbl (Some tl) (l1 ++ p :: l2) ->
  l2 ++ l1 = b :: rest ->
  let a := List.last (b :: rest) b in
  nextOf tbl p = Some b /\ prevOf tbl p = Some a /\
  (a < length tbl)%nat /\ (b < length tbl)%nat /\ (p < length tbl)%nat /\
  b <> p /\ a <> p /\
  (forall tbl',
     length tbl' = length tbl ->
     nextOf tbl' a = Some b ->
     prevOf tbl' b = Some a ->
     (forall x, x <> a -> x <> p -> nextOf tbl' x = nextOf tbl x) ->
     (forall y, y <> b -> y <> p -> prevOf tbl' y = prevOf tbl y) ->
     exists h q, l1 ++ l2 = h :: q /\
       ring tbl' (Some (List.last (h :: q) h)) (h :: q)).
Proof.
  intros Hring E a.
  pose proof (ring_cyclic _ _ _ Hring) as Hc.
  destruct Hring as (Hnd & Hlt & _).
  apply cyclic_rotate in Hc. change ((p :: l2) ++ l1) with (p :: (l2 ++ l1)) in Hc.
  assert (Hnd' : NoDup (p :: b :: rest)).
  { rewrite <- E. change (p :: l2 ++ l1) with ((p :: l2) ++ l1).
    now rewrite (Permutation_app_comm (p :: l2) l1). }
  assert (Hlt' : Forall (fun x => (x < length tbl)%nat) (p :: b :: rest)).
  { rewrite <- E. change (p :: l2 ++ l1) with ((p :: l2) ++ l1).
    now rewrite (Permutation_app_comm (p :: l2) l1). }
  rewrite E in Hc.
  destruct (cyclic_drop_first tbl tbl p b rest Hnd' Hc) as (Hn & Hp & _).
  fold a in Hp.
  assert (Ha : a ∈ b :: rest) by apply last_elem_of.
  rewrite Forall_forall in Hlt'.
  apply NoDup_cons in Hnd' as [Hpn Hnd'].
  splits; auto.
  - apply Hlt'. now apply elem_of_cons; right.
  - apply Hlt'. in_list.
  - apply Hlt'. in_list.
  - intros ->. apply Hpn. in_list.
  - intros ->. now apply Hpn.
  - intros tbl' Hlen Hna Hpb Hnx Hpx.
    destruct (cyclic_drop_first tbl tbl' p b rest) as (_ & _ & Hc');
      [now apply NoDup_cons|exact Hc|].
    specialize (Hc' Hna Hpb Hnx Hpx). rewrite <- E in Hc'.
    apply cyclic_rotate in Hc'.
    destruct (l1 ++ l2) as [|h q] eqn:E2.
    { apply (f_equal length) in E. apply (f_equal length) in E2.
      rewrite length_app in E, E2. cbn in E, E2. lia. }
    exists h, q. split; [reflexivity|].
    apply ring_intro; [| |exact Hc'].
    + rewrite <- E2, (Permutation_app_comm l1 l2), E. exact Hnd'.
    + rewrite Hlen. apply Forall_forall. intros x Hx. apply Hlt'.
      apply elem_of_cons. right. rewrite <- E, (Permutation_app_comm l2 l1), E2.
      exact Hx.
Qed.

(** [outProcQ] of a ProcBlk that is not in the queue returns [NULL] and
    changes nothing. *)
Theorem outProcQ_absent (tp : tailLoc) (k : kstate) (q : list nat) (p : nat) :
  queueAt tp k q ->
  p ∉ q ->
  outProcQ tp (Some p) k = Ret NULL k.
Proof.
  intros (t & Htail & Hring) Hp.
  rewrite <- (set_procTable_id k). set (tbl := procTable k) in *.
  unfold outProcQ. destruct q as [|h q].
  - destruct Hring as (_ & _ & ->). now queue_step Htail.
  - pose proof (ring_length _ _ _ Hring) as Hlen.
    pose proof (ring_head_tail _ _ _ _ Hring) as (-> & Htl & Hh & Hl & Hn & Hpv).
    destruct Hring as (Hnd & Hlt & _).
    set (tl := List.last (h :: q) h) in *.
    assert (Hptl : p <> tl) by (intros ->; apply Hp, last_elem_of).
    queue_step Htail. cbn [emptyProcQ isNull]. rewrite (ptr_eqb_neq p tl Hptl).
    queue_step Htail. rewrite Hn, bind_gets.
    cbn [procTable set_procTable]. cbn [length] in Hlen.
    apply (outProcQ_while_absent tp p tbl k tl Htail q [] h); auto; lia.
Qed.

(** [outProcQ] of a ProcBlk of the queue returns it and leaves the queue
    without it, in the same order.  Only queue links of ProcBlks of the
    old queue are written. *)
Theorem outProcQ_removes (tp : tailLoc) (k : kstate) (l1 l2 : list nat) (p : nat) :
  queueAt tp k (l1 ++ p :: l2) ->
  exists tbl' t',
    outProcQ tp (Some p) k = Ret (Some p) (setTail tp t' (set_procTable tbl' k)) /\
    ring tbl' t' (l1 ++ l2) /\
    length tbl' = length (procTable k) /\
    payload <$> tbl' = payload <$> procTable k /\
    (forall x, x ∉ l1 ++ p :: l2 -> tbl' !! x = procTable k !! x).
Proof.
  intros (t & Htail & Hring).
  enough (H : exists tbl' t',
             outProcQ tp (Some p) (set_procTable (procTable k) k)
             = Ret (Some p) (setTail tp t' (set_procTable tbl' k)) /\
             ring tbl' t' (l1 ++ l2) /\
             length tbl' = length (procTable k) /\
             payload <$> tbl' = payload <$> procTable k /\
             (forall x, x ∉ l1 ++ p :: l2 -> tbl' !! x = procTable k !! x))
    by now rewrite set_procTable_id in H.
  set (tbl := procTable k) in *.
  pose proof (ring_length _ _ _ Hring) as Hlen.
  assert (Ht : t = Some (List.last (l1 ++ p :: l2) p)).
  { destruct Hring as (_ & _ & H). destruct (l1 ++ p :: l2) eqn:E.
    - now destruct l1.
    - destruct H as [-> _]. f_equal. apply last_default. }
  subst t. set (tl := List.last (l1 ++ p :: l2) p) in *.
  unfold outProcQ. queue_step Htail. cbn [emptyProcQ isNull].
  destruct (l2 ++ l1) as [|b rest] eqn:E.
  - (* [p] is the only element *)
    apply app_eq_nil in E as [-> ->]. cbn [app] in *. subst tl. cbn [List.last] in *.
    pose proof (ring_head_tail _ _ _ _ Hring) as (_ & Hp & _ & _ & Hn & _).
    cbn [List.last] in *.
    rewrite ptr_eqb_refl. queue_step Htail. rewrite Hn, ptr_eqb_refl. cbn [negb].
    queue_step Htail. unfold ret.
    exists tbl, NULL. split; [reflexivity|].
    split; [|splits; auto]. unfold ring. splits; [constructor|constructor|reflexivity].
  - destruct (ring_unlink tbl tl l1 p l2 b rest Hring E)
      as (Hn & Hpv & Ha & Hb & Hp & Hbp & Hap & Hnew).
    set (a := List.last (b :: rest) b) in *.
    assert (Hframe : forall tbl' : list pcb_t,
               (forall x : nat, x <> a -> x <> b -> x <> p -> tbl' !! x = tbl !! x) ->
               forall x : nat, x ∉ l1 ++ p :: l2 -> tbl' !! x = tbl !! x).
    { intros tbl' H x Hx.
      assert (Hin : forall y, y ∈ b :: rest -> y ∈ l1 ++ p :: l2).
      { intros y Hy. rewrite <- E in Hy. rewrite elem_of_app in Hy.
        rewrite elem_of_app, elem_of_cons. tauto. }
      apply H.
      - intros ->. apply Hx, Hin, last_elem_of.
      - intros ->. apply Hx, Hin. in_list.
      - intros ->. apply Hx. rewrite elem_of_app. right. in_list. }
    destruct l2 as [|y l2].
    + (* [p] is the tail *)
      assert (Etl : tl = p) by (unfold tl; now rewrite last_app_cons).
      rewrite Etl in *. rewrite ptr_eqb_refl.
      queue_step Htail. rewrite Hn, (ptr_eqb_neq b p Hbp). cbn [negb].
      queue_step Htail. queue_step Htail. rewrite Hn.
      queue_step Htail. rewrite Hpv.
      queue_step Htail. queue_step Htail. queue_step Htail.
      rewrite prevOf_alter_prev by assumption. rewrite decide_False by congruence.
      rewrite Hpv.
      queue_step Htail. rewrite nextOf_alter_prev, Hn.
      queue_step Htail. queue_step Htail. queue_step Htail.
      rewrite prevOf_alter_next, prevOf_alter_prev by assumption.
      rewrite decide_False by congruence. rewrite Hpv. queue_step Htail. unfold ret.
      fold (bridged a b tbl).
      destruct (Hnew (bridged a b tbl)) as (h & q & E2 & Hring').
      * unfold bridged. now rewrite !length_alter.
      * rewrite nextOf_bridged by assumption. now rewrite decide_True.
      * rewrite prevOf_bridged by assumption. now rewrite decide_True.
      * intros x Hxa _. rewrite nextOf_bridged by assumption. now rewrite decide_False.
      * intros x Hxb _. rewrite prevOf_bridged by assumption. now rewrite decide_False.
      * exists (bridged a b tbl), (Some a). split; [reflexivity|].
        rewrite E2. rewrite app_nil_r in E2. cbn [app] in E. rewrite E2 in E.
        injection E as -> ->. fold a in Hring'.
        split; [exact Hring'|]. splits.
        -- unfold bridged. now rewrite !length_alter.
        -- unfold bridged. rewrite !payload_alter;
             [reflexivity|apply linkUpdate_prev|apply linkUpdate_next].
        -- apply Hframe. intros x Hxa Hxb _. unfold bridged.
           now rewrite !list_lookup_alter_ne by congruence.
    + (* [p] is not the tail *)
      pose proof (ring_cyclic _ _ _ Hring) as Hc.
      destruct Hring as (Hnd & Hlt & _).
      assert (Hptl : p <> tl) by (unfold tl; now apply not_last_in_middle).
      rewrite (ptr_eqb_neq p tl Hptl).
      assert (Hl : linked tbl (l1 ++ p :: y :: l2)).
      { destruct l1 as [|h l1]; cbn [app cyclic] in Hc |- *.
        - change (p :: y :: l2 ++ [p]) with ((p :: y :: l2) ++ [p]) in Hc.
          now apply linked_snoc in Hc.
        - change (h :: l1 ++ p :: y :: l2) with ((h :: l1) ++ p :: y :: l2).
          change (h :: (l1 ++ p :: y :: l2) ++ [h])
            with ((h :: l1 ++ p :: y :: l2) ++ [h]) in Hc.
          now apply linked_snoc in Hc. }
      assert (Hhd : exists h0 q0, l1 ++ p :: y :: l2 = h0 :: q0 /\
                      nextOf tbl tl = Some h0).
      { destruct l1 as [|h l1]; cbn [app cyclic] in Hc.
        - exists p, (y :: l2). split; [reflexivity|].
          change (p :: y :: l2 ++ [p]) with ((p :: y :: l2) ++ [p]) in Hc.
          apply linked_snoc in Hc. unfold tl. cbn [app]. tauto.
        - exists h, (l1 ++ p :: y :: l2). split; [reflexivity|].
          change (h :: (l1 ++ p :: y :: l2) ++ [h])
            with ((h :: l1 ++ p :: y :: l2) ++ [h]) in Hc.
          apply linked_snoc in Hc. unfold tl. cbn [app].
          rewrite (last_default h _ p h). tauto. }
      destruct Hhd as (h0 & q0 & E0 & Hntl).
      assert (Htl : (tl < length tbl)%nat).
      { rewrite Forall_forall in Hlt. apply Hlt. unfold tl. rewrite E0.
        rewrite (last_default h0 q0 p h0). apply last_elem_of. }
      queue_step Htail. rewrite Hntl, bind_gets. cbn [procTable set_procTable].
      set (tblF := alter (set_p_prev NULL) p (alter (set_p_next NULL) p (bridged a b tbl))).
      assert (Hrun : outProcQ_while (S (length tbl)) tp (Some p) (Some h0)
                       (set_procTable tbl k)
                     = Ret (Some p) (set_procTable tblF k)).
      { destruct l1 as [|x m1]; cbn [app] in E0; injection E0 as <- <-.
        - apply (outProcQ_while_found _ tp p tbl k tl a b); auto.
        - rewrite length_app in Hlen. cbn [length] in Hlen.
          replace (S (length tbl))
            with (length (x :: m1) + S (length tbl - length (x :: m1)))%nat
            by (cbn [length]; lia).
          rewrite (outProcQ_while_reaches tp p tbl k tl Htail m1 [] x (y :: l2)); auto.
          + apply (outProcQ_while_found _ tp p tbl k tl a b); auto.
          + unfold tl. cbn [app]. apply last_default. }
      rewrite Hrun.
      destruct (Hnew tblF) as (h & q & E2 & Hring').
      * unfold tblF, bridged. now rewrite !length_alter.
      * unfold tblF. rewrite nextOf_alter_prev, nextOf_alter_next, nextOf_bridged
          by (unfold bridged; now rewrite ?length_alter).
        rewrite decide_False by exact Hap. now rewrite decide_True.
      * unfold tblF. rewrite prevOf_alter_prev, prevOf_alter_next, prevOf_bridged
          by (unfold bridged; now rewrite ?length_alter).
        rewrite decide_False by exact Hbp. now rewrite decide_True.
      * intros x Hxa Hxp. unfold tblF.
        rewrite nextOf_alter_prev, nextOf_alter_next, nextOf_bridged
          by (unfold bridged; now rewrite ?length_alter).
        rewrite decide_False by exact Hxp. now rewrite decide_False.
      * intros x Hxb Hxp. unfold tblF.
        rewrite prevOf_alter_prev, prevOf_alter_next, prevOf_bridged
          by (unfold bridged; now rewrite ?length_alter).
        rewrite decide_False by exact Hxp. now rewrite decide_False.
      * exists tblF, (Some tl). split.
        { f_equal. symmetry. apply setTail_same. now rewrite tailAt_set_procTable. }
        assert (Etl : List.last (h :: q) h = tl).
        { rewrite <- E2. unfold tl. rewrite !last_app_cons, last_cons_cons.
          apply last_default. }
        rewrite Etl in Hring'. rewrite E2.
        split; [exact Hring'|]. splits.
        -- unfold tblF, bridged. now rewrite !length_alter.
        -- unfold tblF, bridged. rewrite !payload_alter;
             [reflexivity|apply linkUpdate_prev|apply linkUpdate_next
              |apply linkUpdate_next|apply linkUpdate_prev].
        -- apply Hframe. intros x Hxa Hxb Hxp. unfold tblF, bridged.
           now rewrite !list_lookup_alter_ne by congruence.
Qed.

(** *** Queues on a given table *)

Lemma ptr_eqb_eq p q : ptr_eqb p q = true -> p = q.
Proof.
  destruct p as [i|], q as [j|]; cbn [ptr_eqb]; try discriminate; [|reflexivity].
  intros H. apply Nat.eqb_eq in H. now subst.
Qed.

Lemma nodupb_sound l : nodupb l = true -> NoDup l.
Proof.
  induction l as [|x l IH]; cbn [nodupb]; intros H; [constructor|].
  apply andb_prop in H as [Hx Hl]. apply NoDup_cons. split; [|auto].
  intros Hin. apply negb_true_iff in Hx.
  assert (E : existsb (Nat.eqb x) l = true); [|congruence].
  apply existsb_exists. exists x. split; [|apply Nat.eqb_refl].
  now apply list_elem_of_In.
Qed.

Lemma linkedb_sound tbl l : linkedb tbl l = true -> linked tbl l.
Proof.
  induction l as [|x l IH]; [reflexivity|]. cbn [linkedb linked].
  destruct l as [|y l]; [reflexivity|]. intros H.
  apply andb_prop in H as [H Hl]. apply andb_prop in H as [Hn Hp].
  splits; [now apply ptr_eqb_eq|now apply ptr_eqb_eq|now apply IH].
Qed.

Lemma ringb_sound tbl tp q : ringb tbl tp q = true -> ring tbl tp q.
Proof.
  unfold ringb, ring. intros H.
  apply andb_prop in H as [H Hq]. apply andb_prop in H as [Hnd Hlt].
  split; [now apply nodupb_sound|]. split.
  - apply Forall_forall. intros x Hx. rewrite forallb_forall in Hlt.
    apply Nat.ltb_lt, Hlt. now apply list_elem_of_In.
  - destruct q as [|h q].
    + now destruct tp.
    + apply andb_prop in Hq as [Ht Hl]. split; [now apply ptr_eqb_eq|].
      now apply linkedb_sound.
Qed.

Lemma queueAtb_sound tp k q : queueAtb tp k q = true -> queueAt tp k q.
Proof.
  unfold queueAtb, queueAt. destruct (tailAt tp k) as [t|]; [|discriminate].
  intros H. exists t. split; [reflexivity|now apply ringb_sound].
Qed.

Lemma besidesQueueLinks_moved tp t tbl k :
  payload <$> tbl = payload <$> procTable k ->
  besidesQueueLinks (setTail tp t (set_procTable tbl k)) = besidesQueueLinks k.
Proof.
  intros H. unfold besidesQueueLinks. rewrite procTable_setTail.
  cbn [procTable set_procTable]. rewrite H.
  now destruct tp as [| |[d|]].
Qed.

Lemma queueAt_moved tp t t' tbl k q :
  tailAt tp k = Some t -> ring tbl t' q ->
  queueAt tp (setTail tp t' (set_procTable tbl k)) q.
Proof.
  intros Ht Hr. exists t'. split.
  - apply (tailAt_setTail tp _ t). now rewrite tailAt_set_procTable.
  - now rewrite procTable_setTail.
Qed.

(** [insertProcQ] puts the ProcBlk at the tail: a queue [q] that does
    not hold [p] becomes [q ++ [p]].  Nothing but queue links and the
    tail pointer is written. *)
Theorem insertProcQ_appends (tp : tailLoc) (k : kstate) (q : list nat) (p : nat) :
  queueAt tp k q ->
  (p < length (procTable k))%nat ->
  p ∉ q ->
  exists k',
    insertProcQ tp (Some p) k = Ret tt k' /\
    queueAt tp k' (q ++ [p]) /\
    besidesQueueLinks k' = besidesQueueLinks k.
Proof.
  intros Hq Hp Hnot.
  destruct (insertProcQ_ring tp k q p Hq Hp Hnot) as (tbl' & Hrun & Hring & _ & Hpay & _).
  destruct Hq as (t & Ht & _).
  eexists. split; [exact Hrun|]. split.
  - now apply (queueAt_moved tp t).
  - now apply besidesQueueLinks_moved.
Qed.

Lemma insertProcQ_appends_witness :
  exists k',
    insertProcQ At_g_readyQueue (Some 0%nat) childCreated = Ret tt k' /\
    queueAt At_g_readyQueue k' ([1%nat] ++ [0%nat]) /\
    besidesQueueLinks k' = besidesQueueLinks childCreated.
Proof.
  refine (insertProcQ_appends At_g_readyQueue childCreated [1%nat] 0%nat _ _ _).
  - apply queueAtb_sound. vm_compute. reflexivity.
  - vm_compute. lia.
  - intros H. apply list_elem_of_singleton in H. discriminate H.
Defined.

(** [removeProcQ] takes the ProcBlk at the head: on an empty queue it
    returns [NULL] and changes nothing; on [h :: q] it returns [h] and
    leaves [q].  Nothing but queue links and the tail pointer is
    written. *)
Theorem removeProcQ_pops (tp : tailLoc) (k : kstate) (q : list nat) :
  queueAt tp k q ->
  match q with
  | [] => removeProcQ tp k = Ret NULL k
  | h :: q' =>
    exists k',
      removeProcQ tp k = Ret (Some h) k' /\
      queueAt tp k' q' /\
      besidesQueueLinks k' = besidesQueueLinks k
  end.
Proof.
  intros Hq. destruct q as [|h q'].
  - now apply removeProcQ_on_empty.
  - destruct (removeProcQ_ring tp k h q' Hq) as (tbl' & t' & Hrun & Hring & _ & Hpay & _).
    destruct Hq as (t & Ht & _).
    eexists. split; [exact Hrun|]. split.
    + now apply (queueAt_moved tp t).
    + now apply besidesQueueLinks_moved.
Qed.

Lemma removeProcQ_pops_witness :
  exists k',
    removeProcQ At_pcbList_h childCreated = Ret (Some 2%nat) k' /\
    queueAt At_pcbList_h k' (seq 3 17) /\
    besidesQueueLinks k' = besidesQueueLinks childCreated.
Proof.
  refine (removeProcQ_pops At_pcbList_h childCreated (2%nat :: seq 3 17) _).
  apply queueAtb_sound. vm_compute. reflexivity.
Defined.

Lemma headProcQ_peeks_witness :
  headProcQ (Some 19%nat) childCreated
  = Ret (match seq 2 18 with [] => NULL | h :: _ => Some h end) childCreated.
Proof.
  refine (headProcQ_peeks (Some 19%nat) (seq 2 18) childCreated _).
  apply ringb_sound. vm_compute. reflexivity.
Defined.

Lemma outProcQ_absent_witness :
  outProcQ At_g_readyQueue (Some 0%nat) childCreated = Ret NULL childCreated.
Proof.
  refine (outProcQ_absent At_g_readyQueue childCreated [1%nat] 0%nat _ _).
  - apply queueAtb_sound. vm_compute. reflexivity.
  - intros H. apply list_elem_of_singleton in H. discriminate H.
Defined.

Lemma outProcQ_removes_witness :
  exists tbl' t',
    outProcQ At_pcbList_h (Some 4%nat) childCreated
    = Ret (Some 4%nat) (setTail At_pcbList_h t' (set_procTable tbl' childCreated)) /\
    ring tbl' t' ([2%nat; 3%nat] ++ seq 5 15) /\
    length tbl' = length (procTable childCreated) /\
    payload <$> tbl' = payload <$> procTable childCreated /\
    (forall x, x ∉ [2%nat; 3%nat] ++ 4%nat :: seq 5 15 ->
               tbl' !! x = procTable childCreated !! x).
Proof.
  refine (outProcQ_removes At_pcbList_h childCreated [2%nat; 3%nat] (seq 5 15) 4%nat _).
  apply queueAtb_sound. vm_compute. reflexivity.
Defined.

(** *** The pool of ProcBlks *)

Lemma linked_frame (tbl tbl' : list pcb_t) l :
  (forall x : nat, x ∈ l -> tbl' !! x = tbl !! x) ->
  linked tbl l -> linked tbl' l.
Proof.
  induction l as [|x l IH]; intros Hsame H; [exact I|].
  destruct l as [|y l]; [exact I|]. destruct H as (Hn & Hp & Hl).
  cbn [linked]. splits.
  - unfold nextOf in *. rewrite Hsame by in_list. exact Hn.
  - unfold prevOf in *. rewrite Hsame by in_list. exact Hp.
  - apply IH; [|exact Hl]. intros z Hz. apply Hsame.
    apply elem_of_cons. now right.
Qed.

(** A queue does not see what is written to ProcBlks outside it. *)
Lemma ring_frame (tbl tbl' : list pcb_t) t q :
  length tbl' = length tbl ->
  (forall x : nat, x ∈ q -> tbl' !! x = tbl !! x) ->
  ring tbl t q -> ring tbl' t q.
Proof.
  intros Hlen Hsame (Hnd & Hlt & H). unfold ring. rewrite Hlen. splits; auto.
  destruct q as [|h q]; [exact H|]. destruct H as [Ht Hl]. split; [exact Ht|].
  apply (linked_frame tbl); [|exact Hl].
  intros x Hx. apply Hsame. apply elem_of_app in Hx as [Hx|Hx]; [exact Hx|].
  apply list_elem_of_singleton in Hx as ->. in_list.
Qed.

Lemma forIndices_freePcb l : forall k q,
  queueAt At_pcbList_h k q ->
  NoDup (q ++ l) ->
  Forall (fun i => (i < length (procTable k))%nat) l ->
  exists k',
    forIndices l (fun i => freePcb (Some i)) k = Ret tt k' /\
    queueAt At_pcbList_h k' (q ++ l) /\
    besidesQueueLinks k' = besidesQueueLinks k.
Proof.
  induction l as [|i l IH]; intros k q Hq Hnd Hlt.
  - exists k. rewrite app_nil_r. now splits.
  - cbn [forIndices]. unfold freePcb at 1.
    apply Forall_cons in Hlt as [Hi Hlt].
    assert (Hnot : i ∉ q).
    { apply NoDup_app in Hnd as (_ & Hdis & _). intros Hin.
      apply (Hdis i Hin). in_list. }
    destruct (insertProcQ_ring At_pcbList_h k q i Hq Hi Hnot)
      as (tbl' & Hrun & Hring & Hlen & Hpay & _).
    destruct Hq as (t & Ht & _).
    rewrite (bind_Ret _ _ _ _ _ Hrun).
    destruct (IH (setTail At_pcbList_h (Some i) (set_procTable tbl' k)) (q ++ [i]))
      as (k' & Hrun' & Hq' & Hbes).
    + now apply (queueAt_moved At_pcbList_h t).
    + now rewrite <- app_assoc.
    + cbn [setTail procTable set_pcbList_h set_procTable]. now rewrite Hlen.
    + exists k'. rewrite <- app_assoc in Hq'. splits; auto.
      rewrite Hbes. now apply besidesQueueLinks_moved.
Qed.

(** [initPcbs] puts all [MAXPROC] ProcBlks of the table on the free
    list, in table order, whatever the table and the list held before;
    nothing but queue links and the head of the free list is written. *)
Theorem initPcbs_fills_free_list (k : kstate) :
  length (procTable k) = MAXPROC ->
  exists k',
    initPcbs k = Ret tt k' /\
    queueAt At_pcbList_h k' (seq 0 MAXPROC) /\
    besidesQueueLinks k' = besidesQueueLinks k.
Proof.
  intros Hlen. unfold initPcbs. rewrite bind_modify.
  destruct (forIndices_freePcb (seq 0 MAXPROC) (set_pcbList_h mkEmptyProcQ k) [])
    as (k' & Hrun & Hq & Hbes).
  - exists NULL. split; [reflexivity|]. unfold ring. splits; constructor.
  - apply NoDup_seq.
  - cbn [procTable set_pcbList_h]. rewrite Hlen. apply Forall_forall.
    intros x Hx. apply elem_of_seq in Hx. lia.
  - exists k'. splits; auto.
Qed.

Lemma initPcbs_fills_free_list_witness :
  exists k',
    initPcbs bootMachine = Ret tt k' /\
    queueAt At_pcbList_h k' (seq 0 MAXPROC) /\
    besidesQueueLinks k' = besidesQueueLinks bootMachine.
Proof.
  refine (initPcbs_fills_free_list bootMachine _). vm_compute. reflexivity.
Defined.

Lemma set_pcbList_h_set_procTable t tbl k :
  set_pcbList_h t (set_procTable tbl k) = set_procTable tbl (set_pcbList_h t k).
Proof. reflexivity. Qed.

(** [allocPcb] hands out the ProcBlk at the head of the free list and
    leaves the rest of the list.  In the ProcBlk handed out the six
    links and [p_time] are cleared; its processor state, its semaphore
    address and its trap vectors are what they were.  The other
    ProcBlks keep everything but queue links. *)
Theorem allocPcb_takes_head (k : kstate) (h : nat) (q : list nat) :
  queueAt At_pcbList_h k (h :: q) ->
  exists k' b b',
    allocPcb k = Ret (Some h) k' /\
    queueAt At_pcbList_h k' q /\
    procTable k !! h = Some b /\
    procTable k' !! h = Some b' /\
    (p_next b' = NULL /\ p_prev b' = NULL /\ p_prnt b' = NULL /\
     p_child b' = NULL /\ p_nextSib b' = NULL /\ p_prevSib b' = NULL /\
     p_time b' = 0) /\
    (p_s b' = p_s b /\ p_semAdd b' = p_semAdd b /\ stateArray b' = stateArray b) /\
    (forall x : nat, x <> h ->
       payload <$> (procTable k' !! x) = payload <$> (procTable k !! x)).
Proof.
  intros Hq.
  destruct (removeProcQ_ring At_pcbList_h k h q Hq)
    as (tbl' & t' & Hrun & Hring & Hlen & Hpay & _).
  destruct Hq as (t & Ht & Hr).
  pose proof (ring_head_tail _ _ _ _ Hr) as (Htl & _ & Hh & _).
  destruct Hr as (Hnd & _).
  cbn [tailAt] in Ht. injection Ht as Ht.
  assert (Hh' : (h < length tbl')%nat) by now rewrite Hlen.
  destruct (lookup_lt_is_Some_2 _ _ Hh) as [b Hb].
  destruct (lookup_lt_is_Some_2 _ _ Hh') as [b1 Hb1].
  assert (Hsame : forall x : nat,
             payload <$> (tbl' !! x) = payload <$> (procTable k !! x)).
  { intros x. now rewrite <- !list_lookup_fmap, Hpay. }
  pose proof (Hsame h) as Hbb. rewrite Hb, Hb1 in Hbb. cbn in Hbb.
  injection Hbb as _ _ _ _ Hs _ Hsem Harr.
  unfold allocPcb. rewrite bind_gets, Ht, Htl. cbn [isNull].
  rewrite (bind_Ret _ _ _ _ _ Hrun). cbn [setTail].
  rewrite set_pcbList_h_set_procTable.
  do 7 (erewrite bind_Ret; [|apply wrPcb_on; rewrite ?length_alter; exact Hh']).
  unfold ret.
  eexists. exists b. eexists. split; [reflexivity|].
  cbn [procTable set_procTable].
  split.
  { exists t'. split; [reflexivity|]. cbn [procTable set_procTable].
    apply (ring_frame tbl'); [now rewrite !length_alter| |exact Hring].
    intros x Hx. apply NoDup_cons in Hnd as [Hhq _].
    rewrite !list_lookup_alter_ne; [reflexivity|..]; intros ->; now apply Hhq. }
  split; [exact Hb|].
  split; [rewrite !list_lookup_alter_eq, Hb1; reflexivity|].
  split; [now splits|].
  split; [now splits|].
  intros x Hx. rewrite !list_lookup_alter_ne by congruence. apply Hsame.
Qed.

Lemma allocPcb_takes_head_witness :
  exists k' b b',
    allocPcb childCreated = Ret (Some 2%nat) k' /\
    queueAt At_pcbList_h k' (seq 3 17) /\
    procTable childCreated !! 2%nat = Some b /\
    procTable k' !! 2%nat = Some b' /\
    (p_next b' = NULL /\ p_prev b' = NULL /\ p_prnt b' = NULL /\
     p_child b' = NULL /\ p_nextSib b' = NULL /\ p_prevSib b' = NULL /\
     p_time b' = 0) /\
    (p_s b' = p_s b /\ p_semAdd b' = p_semAdd b /\ stateArray b' = stateArray b) /\
    (forall x : nat, x <> 2%nat ->
       payload <$> (procTable k' !! x) = payload <$> (procTable childCreated !! x)).
Proof.
  refine (allocPcb_takes_head childCreated 2%nat (seq 3 17) _).
  apply queueAtb_sound. vm_compute. reflexivity.
Defined.

(** ** Process trees *)

Lemma rdPcb_on {A : Type} (field : pcb_t -> A) tbl k (i : nat) b :
  tbl !! i = Some b ->
  rdPcb (Some i) field (set_procTable tbl k) = Ret (field b) (set_procTable tbl k).
Proof. intros H. now apply rdPcb_Some. Qed.

Lemma siblingb_sound tbl prnt c newer older :
  siblingb tbl prnt c newer older = true -> sibling tbl prnt c newer older.
Proof.
  unfold siblingb, sibling. destruct (tbl !! c) as [b|]; [|discriminate].
  intros H. apply andb_prop in H as [H H3]. apply andb_prop in H as [H1 H2].
  exists b. splits; [reflexivity|now apply ptr_eqb_eq..].
Qed.

Lemma siblingsb_sound tbl prnt l : forall newer older,
  siblingsb tbl prnt newer l older = true -> siblings tbl prnt newer l older.
Proof.
  induction l as [|c l IH]; intros newer older H; [exact I|].
  cbn [siblingsb siblings] in *. apply andb_prop in H as [H1 H2].
  split; [now apply siblingb_sound|now apply IH].
Qed.

Lemma childrenb_sound tbl prnt cs : childrenb tbl prnt cs = true -> children tbl prnt cs.
Proof.
  unfold childrenb, children. intros H.
  apply andb_prop in H as [H H3]. apply andb_prop in H as [H1 H2].
  splits; [now apply nodupb_sound| |now apply siblingsb_sound].
  destruct (tbl !! prnt) as [b|]; [|discriminate].
  exists b. split; [reflexivity|now apply ptr_eqb_eq].
Qed.

Lemma sibling_frame (tbl tbl' : list pcb_t) prnt (c : nat) newer older :
  tbl' !! c = tbl !! c -> sibling tbl prnt c newer older -> sibling tbl' prnt c newer older.
Proof. intros E (b & Hb & H). exists b. now rewrite E. Qed.

Lemma siblings_frame (tbl tbl' : list pcb_t) prnt l : forall newer older,
  (forall x : nat, x ∈ l -> tbl' !! x = tbl !! x) ->
  siblings tbl prnt newer l older -> siblings tbl' prnt newer l older.
Proof.
  induction l as [|c l IH]; intros newer older Hsame H; [exact I|].
  destruct H as [H1 H2]. split.
  - apply (sibling_frame tbl); [|exact H1]. apply Hsame. in_list.
  - apply IH; [|exact H2]. intros x Hx. apply Hsame. apply elem_of_cons. now right.
Qed.

(** A run of siblings cut in two. *)
Lemma siblings_app tbl prnt l1 l2 : forall newer older,
  siblings tbl prnt newer (l1 ++ l2) older <->
  siblings tbl prnt newer l1 (match l2 with [] => older | d :: _ => Some d end) /\
  siblings tbl prnt (List.last (Some <$> l1) newer) l2 older.
Proof.
  induction l1 as [|c l1 IH]; intros newer older; cbn [app].
  - cbn. tauto.
  - cbn [siblings]. rewrite IH.
    replace (List.last (Some <$> c :: l1) newer) with (List.last (Some <$> l1) (Some c)).
    2:{ cbn [fmap list_fmap]. destruct l1 as [|d l1]; [reflexivity|].
        cbn [fmap list_fmap]. rewrite last_cons_cons. apply last_default. }
    destruct l1 as [|d l1]; cbn [app]; [|tauto].
    destruct l2; tauto.
Qed.

Lemma besidesTreeLinks_alter upd (i : nat) (tbl : list pcb_t) :
  (forall b, besidesTreeLinks (upd b) = besidesTreeLinks b) ->
  besidesTreeLinks <$> alter upd i tbl = besidesTreeLinks <$> tbl.
Proof.
  intros H. apply list_eq. intros j. rewrite !list_lookup_fmap.
  destruct (decide (j = i)) as [->|Hne].
  - rewrite list_lookup_alter_eq. destruct (tbl !! i); [|reflexivity].
    cbn. now rewrite H.
  - now rewrite list_lookup_alter_ne by congruence.
Qed.

(** A lookup in a table written at known places. *)
Ltac tree_lookup :=
  repeat first [ rewrite list_lookup_alter_eq
               | rewrite list_lookup_alter_ne by congruence ];
  repeat match goal with
         | H : ?tbl !! ?i = Some _ |- context [?tbl !! ?i] => rewrite H
         end;
  reflexivity.

Ltac tree_fields :=
  cbn [p_child p_prnt p_nextSib p_prevSib
       set_p_child set_p_prnt set_p_nextSib set_p_prevSib fmap option_fmap option_map].

Ltac tree_rd :=
  rewrite ?bind_assoc;
  (erewrite bind_Ret; [|apply rdPcb_on; tree_lookup]); tree_fields.

Ltac tree_wr :=
  rewrite ?bind_assoc;
  first [ erewrite bind_Ret; [|apply wrPcb_on; rewrite ?length_alter; assumption]
        | etransitivity; [apply wrPcb_on; rewrite ?length_alter; assumption|] ].

Ltac tree_same :=
  rewrite ?besidesTreeLinks_alter by (intros ?; reflexivity); reflexivity.

Lemma insertChild_tree (tbl : list pcb_t) (k : kstate) (prnt : nat) (cs : list nat) (p : nat) :
  children tbl prnt cs ->
  p ∉ prnt :: cs ->
  (p < length tbl)%nat ->
  exists tbl',
    insertChild (Some prnt) (Some p) (set_procTable tbl k) = Ret tt (set_procTable tbl' k) /\
    children tbl' prnt (p :: cs) /\
    length tbl' = length tbl /\
    besidesTreeLinks <$> tbl' = besidesTreeLinks <$> tbl /\
    (forall x : nat, x ∉ p :: prnt :: take 1 cs -> tbl' !! x = tbl !! x).
Proof.
  intros (Hnd & (bp & Hbp & Hchild) & Hsib) Hp Hlt.
  assert (Hpp : p <> prnt) by (intros ->; apply Hp; in_list).
  assert (Hpp' : prnt <> p) by congruence.
  assert (Hpcs : p ∉ cs) by (intros H; apply Hp; apply elem_of_cons; now right).
  assert (Hprnt : (prnt < length tbl)%nat) by now apply lookup_lt_Some in Hbp.
  destruct (lookup_lt_is_Some_2 _ _ Hlt) as [b0 Hb0].
  apply NoDup_cons in Hnd as [Hprcs Hnd'].
  unfold insertChild, emptyChild. tree_rd. rewrite bind_ret, Hchild.
  destruct cs as [|c cs']; cbn [head isNull].
  - eexists. split; [do 3 tree_wr; apply wrPcb_on; now rewrite !length_alter|].
    split; [unfold children; splits|splits].
    + apply NoDup_cons. split; [|apply NoDup_cons; split; [|constructor]].
      * intros H. apply list_elem_of_singleton in H. congruence.
      * apply not_elem_of_nil.
    + eexists. split; [tree_lookup|]. reflexivity.
    + cbn [siblings]. split; [|exact I]. eexists. split; [tree_lookup|].
      now splits.
    + now rewrite !length_alter.
    + tree_same.
    + intros x Hx. rewrite !list_lookup_alter_ne; [reflexivity|..];
        intros ->; apply Hx; in_list.
  - destruct Hsib as [(bc & Hbc & Hc1 & Hc2 & Hc3) Hrest].
    assert (Hcp : c <> p) by (intros ->; apply Hpcs; in_list).
    assert (Hpc : p <> c) by congruence.
    assert (Hcprnt : c <> prnt) by (intros ->; apply Hprcs; in_list).
    assert (Hprntc : prnt <> c) by congruence.
    assert (Hc : (c < length tbl)%nat) by now apply lookup_lt_Some in Hbc.
    eexists. split.
    { tree_rd. rewrite Hchild. tree_wr. tree_rd. rewrite Hchild.
      do 3 tree_wr. apply wrPcb_on. now rewrite !length_alter. }
    split; [unfold children; splits|splits].
    + apply NoDup_cons. split; [|apply NoDup_cons; split; assumption].
      intros H. apply elem_of_cons in H as [H|H]; [congruence|]. now apply Hpcs.
    + eexists. split; [tree_lookup|]. reflexivity.
    + cbn [siblings]. split; [|split].
      * eexists. split; [tree_lookup|]. now splits.
      * eexists. split; [tree_lookup|]. tree_fields. now splits.
      * apply (siblings_frame tbl); [|exact Hrest].
        apply NoDup_cons in Hnd' as [Hccs _].
        intros x Hx. rewrite !list_lookup_alter_ne; [reflexivity|..]; intros ->;
          solve [ apply Hpcs; apply elem_of_cons; now right
                | apply Hprcs; apply elem_of_cons; now right
                | now apply Hccs ].
    + now rewrite !length_alter.
    + tree_same.
    + intros x Hx. cbn [take] in Hx.
      rewrite !list_lookup_alter_ne; [reflexivity|..]; intros ->; apply Hx; in_list.
Qed.

(** A clash with what [NoDup] says about the lists at hand. *)
Ltac unfold_in := repeat first [rewrite elem_of_app | rewrite elem_of_cons].

Ltac absurd_in :=
  repeat match goal with
         | H : _ ∈ _ :: _ |- _ => apply elem_of_cons in H
         | H : _ ∈ _ ++ _ |- _ => apply elem_of_app in H
         | H : _ ∈ [] |- _ => now apply elem_of_nil in H
         | H : _ \/ _ |- _ => destruct H
         end;
  match goal with
  | H : ?x ∉ ?l |- False => apply H; unfold_in; solve [intuition auto]
  | H : forall y, y ∈ _ -> y ∉ _ |- False =>
    eapply H; unfold_in; solve [intuition eauto]
  end.

Ltac outside := rewrite !list_lookup_alter_ne; [reflexivity|..]; intros ->; absurd_in.

Lemma removeChild_tree (tbl : list pcb_t) (k : kstate) (prnt c : nat) (cs : list nat) :
  children tbl prnt (c :: cs) ->
  exists tbl',
    removeChild (Some prnt) (set_procTable tbl k) = Ret (Some c) (set_procTable tbl' k) /\
    children tbl' prnt cs /\
    detached tbl' c /\
    length tbl' = length tbl /\
    besidesTreeLinks <$> tbl' = besidesTreeLinks <$> tbl /\
    (forall x : nat, x ∉ c :: prnt :: take 1 cs -> tbl' !! x = tbl !! x).
Proof.
  intros (Hnd & (bp & Hbp & Hchild) & (bc & Hbc & Hc1 & Hc2 & Hc3) & Hrest).
  apply NoDup_cons in Hnd as [Hprcs Hnd']. apply NoDup_cons in Hnd' as [Hccs Hnd''].
  assert (Hcprnt : c <> prnt) by (intros ->; absurd_in).
  assert (Hprntc : prnt <> c) by congruence.
  assert (Hprnt : (prnt < length tbl)%nat) by now apply lookup_lt_Some in Hbp.
  assert (Hc : (c < length tbl)%nat) by now apply lookup_lt_Some in Hbc.
  cbn [head] in Hchild.
  unfold removeChild, emptyChild. tree_rd. rewrite bind_ret, Hchild. cbn [isNull].
  tree_rd. rewrite Hchild. tree_rd. rewrite Hc3.
  destruct cs as [|d cs']; cbn [isNull].
  - eexists. split; [do 2 tree_wr; reflexivity|].
    split; [unfold children; splits|splits].
    + apply NoDup_cons. split; [apply not_elem_of_nil|constructor].
    + eexists. split; [tree_lookup|]. reflexivity.
    + exact I.
    + eexists. split; [tree_lookup|]. tree_fields. now splits.
    + now rewrite !length_alter.
    + tree_same.
    + intros x Hx. cbn [take] in Hx. outside.
  - destruct Hrest as [(bd & Hbd & Hd1 & Hd2 & Hd3) Hrest].
    assert (Hdc : d <> c) by (intros ->; absurd_in).
    assert (Hcd : c <> d) by congruence.
    assert (Hdprnt : d <> prnt) by (intros ->; absurd_in).
    assert (Hprntd : prnt <> d) by congruence.
    assert (Hd : (d < length tbl)%nat) by now apply lookup_lt_Some in Hbd.
    apply NoDup_cons in Hnd'' as [Hdcs Hnd''].
    eexists. split.
    { tree_rd. rewrite Hc3. tree_wr. tree_rd. rewrite Hc3. do 3 tree_wr. reflexivity. }
    split; [unfold children; splits|splits].
    + apply NoDup_cons. split; [|apply NoDup_cons; split; assumption].
      intros H. absurd_in.
    + eexists. split; [tree_lookup|]. reflexivity.
    + cbn [siblings]. split.
      * eexists. split; [tree_lookup|]. tree_fields. now splits.
      * apply (siblings_frame tbl); [|exact Hrest]. intros x Hx. outside.
    + eexists. split; [tree_lookup|]. tree_fields. now splits.
    + now rewrite !length_alter.
    + tree_same.
    + intros x Hx. cbn [take] in Hx. outside.
Qed.

(** [removeChild] takes the child that was inserted last: without
    children it returns [NULL] and changes nothing; otherwise the first
    child is returned without parent and siblings, and the others
    remain.  Only tree links are written. *)
Theorem removeChild_pops (k : kstate) (prnt : nat) (cs : list nat) :
  children (procTable k) prnt cs ->
  match cs with
  | [] => removeChild (Some prnt) k = Ret NULL k
  | c :: cs' =>
    exists tbl',
      removeChild (Some prnt) k = Ret (Some c) (set_procTable tbl' k) /\
      children tbl' prnt cs' /\
      detached tbl' c /\
      besidesTreeLinks <$> tbl' = besidesTreeLinks <$> procTable k
  end.
Proof.
  intros Hch. destruct cs as [|c cs'].
  - destruct Hch as (_ & (bp & Hbp & Hchild) & _).
    unfold removeChild, emptyChild.
    rewrite bind_assoc, (bind_Ret _ _ _ _ _ (rdPcb_Some p_child k prnt bp Hbp)).
    now rewrite bind_ret, Hchild.
  - destruct (removeChild_tree (procTable k) k prnt c cs' Hch)
      as (tbl' & Hrun & H1 & H2 & _ & H3 & _).
    rewrite set_procTable_id in Hrun. exists tbl'. now splits.
Qed.

(** [insertChild] makes [p] the first child of [prnt], in front of the
    children [prnt] had.  Only tree links are written. *)
Theorem insertChild_pushes (k : kstate) (prnt : nat) (cs : list nat) (p : nat) :
  children (procTable k) prnt cs ->
  p ∉ prnt :: cs ->
  (p < length (procTable k))%nat ->
  exists tbl',
    insertChild (Some prnt) (Some p) k = Ret tt (set_procTable tbl' k) /\
    children tbl' prnt (p :: cs) /\
    besidesTreeLinks <$> tbl' = besidesTreeLinks <$> procTable k /\
    (forall x : nat, x ∉ p :: prnt :: take 1 cs -> tbl' !! x = procTable k !! x).
Proof.
  intros Hch Hp Hlt.
  destruct (insertChild_tree (procTable k) k prnt cs p Hch Hp Hlt)
    as (tbl' & Hrun & H1 & _ & H2 & H3).
  rewrite set_procTable_id in Hrun. exists tbl'. now splits.
Qed.

Lemma head_app_cons {A : Type} (a : A) l1 l2 l3 :
  head ((l1 ++ [a]) ++ l2) = head ((l1 ++ [a]) ++ l3).
Proof. now destruct l1. Qed.

(** [outChild] takes [p] out of the children of its parent, wherever it
    stands among them; [p] is returned without parent and siblings and
    the other children keep their order.  Only tree links are
    written. *)
Theorem outChild_removes (k : kstate) (prnt : nat) (l1 l2 : list nat) (p : nat) :
  children (procTable k) prnt (l1 ++ p :: l2) ->
  exists tbl',
    outChild (Some p) k = Ret (Some p) (set_procTable tbl' k) /\
    children tbl' prnt (l1 ++ l2) /\
    detached tbl' p /\
    besidesTreeLinks <$> tbl' = besidesTreeLinks <$> procTable k.
Proof.
  intros Hch.
  enough (H : exists tbl',
             outChild (Some p) (set_procTable (procTable k) k)
             = Ret (Some p) (set_procTable tbl' k) /\
             children tbl' prnt (l1 ++ l2) /\
             detached tbl' p /\
             besidesTreeLinks <$> tbl' = besidesTreeLinks <$> procTable k)
    by now rewrite set_procTable_id in H.
  set (tbl := procTable k) in *.
  induction l1 as [|a l1 _] using rev_ind.
  - (* [p] is the first child *)
    cbn [app] in *.
    destruct (removeChild_tree tbl k prnt p l2 Hch) as (tbl' & Hrun & H1 & H2 & _ & H3 & _).
    destruct Hch as (_ & (bp & Hbp & Hchild) & (b & Hb & Hp1 & _) & _).
    cbn [head] in Hchild.
    exists tbl'. split; [|now splits].
    unfold outChild. tree_rd. rewrite Hp1. cbn [isNull].
    tree_rd. rewrite Hp1. tree_rd. rewrite Hchild. rewrite ptr_eqb_refl.
    tree_rd. rewrite Hp1. exact Hrun.
  - destruct Hch as (Hnd & (bp & Hbp & Hchild) & Hsib).
    rewrite <- app_assoc in Hsib. cbn [app] in Hsib.
    apply siblings_app in Hsib as (Hs1 & (ba & Hba & Ha1 & Ha2 & Ha3)
                                       & (b & Hb & Hp1 & Hp2 & Hp3) & Hs2).
    pose proof Hnd as Hnd0.
    rewrite <- Permutation_middle in Hnd.
    apply NoDup_cons in Hnd as [Hprnt Hnd]. apply NoDup_cons in Hnd as [Hp Hnd].
    apply NoDup_app in Hnd as (Hnd1 & Hdis & Hnd2).
    apply NoDup_app in Hnd1 as (Hnd1 & Hdis1 & _).
    assert (Hpa : p <> a) by (intros ->; absurd_in).
    assert (Hap : a <> p) by congruence.
    assert (Hprp : prnt <> p) by (intros ->; absurd_in).
    assert (Hppr : p <> prnt) by congruence.
    assert (Hpra : prnt <> a) by (intros ->; absurd_in).
    assert (Hapr : a <> prnt) by congruence.
    assert (Hlp : (p < length tbl)%nat) by now apply lookup_lt_Some in Hb.
    assert (Hla : (a < length tbl)%nat) by now apply lookup_lt_Some in Hba.
    assert (Hhead : exists h, head ((l1 ++ [a]) ++ p :: l2) = Some h /\ h <> p).
    { destruct l1 as [|h l1]; cbn [app head].
      - now exists a.
      - exists h. split; [reflexivity|]. intros ->. absurd_in. }
    destruct Hhead as (h & Hh & Hhp). rewrite Hh in Hchild.
    assert (Hne : ptr_eqb (Some p) (Some h) = false) by (apply ptr_eqb_neq; congruence).
    unfold outChild. tree_rd. rewrite Hp1. cbn [isNull].
    tree_rd. rewrite Hp1. tree_rd. rewrite Hchild, Hne.
    tree_rd. rewrite Hp3.
    destruct l2 as [|d l2]; cbn [isNull].
    + eexists. split.
      { tree_rd. rewrite Hp2. do 3 tree_wr. reflexivity. }
      split; [unfold children; splits|split].
      * rewrite app_nil_r. apply NoDup_cons. split; [|apply NoDup_app; splits; auto].
        -- intros H. absurd_in.
        -- apply NoDup_singleton.
      * eexists. split; [tree_lookup|].
        rewrite Hchild, <- Hh. apply head_app_cons.
      * rewrite app_nil_r. apply siblings_app. split.
        -- apply (siblings_frame tbl); [|exact Hs1]. intros x Hx. outside.
        -- split; [|exact I]. eexists. split; [tree_lookup|]. tree_fields.
           now splits.
      * eexists. split; [tree_lookup|]. tree_fields. now splits.
      * tree_same.
    + destruct Hs2 as [(bd & Hbd & Hd1 & Hd2 & Hd3) Hs2].
      apply NoDup_cons in Hnd2 as [Hdl2 Hnd2].
      assert (Hpd : p <> d) by (intros ->; absurd_in).
      assert (Hdp : d <> p) by congruence.
      assert (Had : a <> d) by (intros ->; absurd_in).
      assert (Hda : d <> a) by congruence.
      assert (Hprd : prnt <> d) by (intros ->; absurd_in).
      assert (Hdpr : d <> prnt) by congruence.
      assert (Hld : (d < length tbl)%nat) by now apply lookup_lt_Some in Hbd.
      eexists. split.
      { tree_rd. rewrite Hp2. tree_rd. rewrite Hp3. tree_wr.
        tree_rd. rewrite Hp3. tree_rd. rewrite Hp2. do 4 tree_wr. reflexivity. }
      split; [unfold children; splits|split].
      * apply NoDup_cons. split; [intros H; absurd_in|].
        apply NoDup_app. splits; auto.
        -- apply NoDup_app. splits; auto. apply NoDup_singleton.
        -- apply NoDup_cons. now split.
      * eexists. split; [tree_lookup|].
        rewrite Hchild, <- Hh. apply head_app_cons.
      * rewrite <- app_assoc. cbn [app]. apply siblings_app. split.
        -- apply (siblings_frame tbl); [|exact Hs1]. intros x Hx. outside.
        -- split; [|split].
           ++ eexists. split; [tree_lookup|]. tree_fields. now splits.
           ++ eexists. split; [tree_lookup|]. tree_fields. now splits.
           ++ apply (siblings_frame tbl); [|exact Hs2]. intros x Hx. outside.
      * eexists. split; [tree_lookup|]. tree_fields. now splits.
      * tree_same.
Qed.

Lemma insertChild_pushes_witness :
  exists tbl',
    insertChild (Some 0%nat) (Some 3%nat) grandchildCreated
    = Ret tt (set_procTable tbl' grandchildCreated) /\
    children tbl' 0%nat (3%nat :: [1%nat]) /\
    besidesTreeLinks <$> tbl' = besidesTreeLinks <$> procTable grandchildCreated /\
    (forall x : nat, x ∉ 3%nat :: 0%nat :: take 1 [1%nat] ->
                     tbl' !! x = procTable grandchildCreated !! x).
Proof.
  refine (insertChild_pushes grandchildCreated 0%nat [1%nat] 3%nat _ _ _).
  - apply childrenb_sound. vm_compute. reflexivity.
  - intros H. apply elem_of_cons in H as [H|H]; [discriminate H|].
    apply list_elem_of_singleton in H. discriminate H.
  - vm_compute. lia.
Defined.

Lemma removeChild_pops_witness :
  exists tbl',
    removeChild (Some 0%nat) poolExhausted
    = Ret (Some 19%nat) (set_procTable tbl' poolExhausted) /\
    children tbl' 0%nat [18%nat; 17%nat; 16%nat; 15%nat; 14%nat; 13%nat; 12%nat; 11%nat; 10%nat; 9%nat; 8%nat; 7%nat; 6%nat; 5%nat; 4%nat; 3%nat; 2%nat; 1%nat] /\
    detached tbl' 19%nat /\
    besidesTreeLinks <$> tbl' = besidesTreeLinks <$> procTable poolExhausted.
Proof.
  refine (removeChild_pops poolExhausted 0%nat [19%nat; 18%nat; 17%nat; 16%nat; 15%nat; 14%nat; 13%nat; 12%nat; 11%nat; 10%nat; 9%nat; 8%nat; 7%nat; 6%nat; 5%nat; 4%nat; 3%nat; 2%nat; 1%nat] _).
  apply childrenb_sound. vm_compute. reflexivity.
Defined.

Lemma outChild_removes_witness :
  exists tbl',
    outChild (Some 17%nat) poolExhausted
    = Ret (Some 17%nat) (set_procTable tbl' poolExhausted) /\
    children tbl' 0%nat ([19%nat; 18%nat] ++ [16%nat; 15%nat; 14%nat; 13%nat; 12%nat; 11%nat; 10%nat; 9%nat; 8%nat; 7%nat; 6%nat; 5%nat; 4%nat; 3%nat; 2%nat; 1%nat]) /\
    detached tbl' 17%nat /\
    besidesTreeLinks <$> tbl' = besidesTreeLinks <$> procTable poolExhausted.
Proof.
  refine (outChild_removes poolExhausted 0%nat [19%nat; 18%nat] [16%nat; 15%nat; 14%nat; 13%nat; 12%nat; 11%nat; 10%nat; 9%nat; 8%nat; 7%nat; 6%nat; 5%nat; 4%nat; 3%nat; 2%nat; 1%nat] 17%nat _).
  apply childrenb_sound. vm_compute. reflexivity.
Defined.

(** ** The scheduler *)

Lemma wrap_uint_nonneg z : 0 <= wrap_uint z.
Proof. unfold wrap_uint. apply Z.mod_pos_bound. reflexivity. Qed.

Lemma scheduler_idle (k : kstate) :
  g_readyQueue k = NULL ->
  g_procCount k = 0 \/ g_softBlockCount k = 0 ->
  scheduler k = Stop (if Z.eqb (g_procCount k) 0 then Halt else Panic) k.
Proof.
  intros Hrq Hc. unfold scheduler. rewrite bind_gets, Hrq.
  cbn [emptyProcQ isNull]. apply bind_Stop. unfold when at 1. rewrite bind_gets.
  destruct (Z.eqb_spec (g_procCount k) 0) as [E|E]; [reflexivity|].
  destruct Hc as [Hc|Hc]; [contradiction|].
  unfold when at 1. rewrite bind_ret, bind_gets, Hc. reflexivity.
Qed.

(** With a process ready, the scheduler makes the head of the ready
    queue the running process and loads its state. *)
Lemma scheduler_runs_head (k : kstate) (h : nat) (q : list nat) :
  queueAt At_g_readyQueue k (h :: q) ->
  let e := g_endOfInterval k in
  let t := fun i : nat => wrap_uint (todReads k (todCount k + i)%nat) in
  let partial := negb (Z.leb QUANTUM (wrap_uint (e - t 1%nat))) in
  exists k',
    scheduler k = Stop LoadState k' /\
    g_currentProc k' = Some h /\
    queueAt At_g_readyQueue k' q /\
    timerReg k' = (if partial then wrap_uint (e - t 2%nat) else wrap_uint QUANTUM) /\
    g_startTOD k' = wrap_int (t (if partial then 3%nat else 2%nat)) /\
    payload <$> procTable k' = payload <$> procTable k /\
    (g_procCount k', g_softBlockCount k', g_endOfInterval k', intMem k')
    = (g_procCount k, g_softBlockCount k, g_endOfInterval k, intMem k) /\
    (stateMem k', g_deviceStatus k', devRegs k', pcbList_h k',
     semdTable k', semd_h k', semdFree_h k')
    = (stateMem k, g_deviceStatus k, devRegs k, pcbList_h k,
       semdTable k, semd_h k, semdFree_h k) /\
    (forall x : nat, x ∉ h :: q -> procTable k' !! x = procTable k !! x).
Proof.
  intros Hq e t partial.
  destruct (removeProcQ_ring At_g_readyQueue k h q Hq)
    as (tbl' & t' & Hrun & Hring & Hlen & Hpay & Hframe).
  destruct Hq as (t0 & Ht0 & Hr).
  pose proof (ring_head_tail _ _ _ _ Hr) as (Htl & _ & Hh & _).
  cbn [tailAt] in Ht0. injection Ht0 as Ht0.
  assert (Hh' : (h < length tbl')%nat) by now rewrite Hlen.
  destruct (lookup_lt_is_Some_2 _ _ Hh') as [b1 Hb1].
  unfold scheduler. rewrite bind_gets, Ht0, Htl. cbn [emptyProcQ isNull when].
  rewrite bind_ret, (bind_Ret _ _ _ _ _ Hrun). cbn [setTail].
  rewrite bind_modify, bind_gets.
  unfold getTODLO at 1, bind at 1.
  assert (Hlt : forall z, Z.ltb (wrap_uint z) 0 = false).
  { intros z. apply Z.ltb_ge, wrap_uint_nonneg. }
  rewrite Hlt.
  unfold loadState, LDST, setTIMER.
  cbv [bind gets getTODLO ret modify stopWith rdPcb].
  cbn [todCount todReads g_endOfInterval g_currentProc procTable
       set_todCount set_g_currentProc set_g_readyQueue set_procTable
       set_timerReg set_g_startTOD].
  subst partial e t. cbv beta.
  replace (todCount k + 1)%nat with (S (todCount k)) by lia.
  replace (todCount k + 2)%nat with (S (S (todCount k))) by lia.
  destruct (Z.leb QUANTUM
              (wrap_uint (g_endOfInterval k - wrap_uint (todReads k (S (todCount k))))));
    cbn [negb todCount todReads g_endOfInterval g_currentProc procTable
         set_todCount set_g_currentProc set_g_readyQueue set_procTable
         set_timerReg set_g_startTOD];
    rewrite Hb1; (eexists; split; [reflexivity|]);
    cbn [todCount todReads g_endOfInterval g_currentProc procTable timerReg
         g_startTOD g_procCount g_softBlockCount intMem
         stateMem g_deviceStatus devRegs pcbList_h semdTable semd_h semdFree_h
         set_todCount set_g_currentProc set_g_readyQueue set_procTable
         set_timerReg set_g_startTOD];
    (splits; [reflexivity| |reflexivity| |exact Hpay|reflexivity|reflexivity
             |exact Hframe]).
  - exists t'. split; [reflexivity|exact Hring].
  - f_equal. f_equal. f_equal. lia.
  - exists t'. split; [reflexivity|exact Hring].
  - f_equal. f_equal. f_equal. lia.
Qed.

(** How the scheduler ends.  It never returns: with a process ready it
    loads the state of one; with nothing ready it halts when no process
    is left, panics when processes are left but none of them waits for
    a device or the clock, and waits otherwise.  When it halts or
    panics it has changed nothing. *)
Theorem scheduler_outcome (k : kstate) (q : list nat) :
  queueAt At_g_readyQueue k q ->
  stoppedBy (scheduler k)
  = Some (match q with
          | _ :: _ => LoadState
          | [] => if Z.eqb (g_procCount k) 0 then Halt
                  else if Z.eqb (g_softBlockCount k) 0 then Panic
                  else Wait
          end) /\
  (q = [] -> g_procCount k = 0 \/ g_softBlockCount k = 0 ->
   finalState (scheduler k) = k).
Proof.
  intros Hq. destruct q as [|h q].
  - destruct Hq as (t & Ht & _ & _ & ->). cbn [tailAt] in Ht. injection Ht as Hrq.
    split.
    + destruct (Z.eqb_spec (g_procCount k) 0) as [E|E].
      { rewrite (scheduler_idle k Hrq (or_introl E)).
        destruct (Z.eqb_spec (g_procCount k) 0); [reflexivity|contradiction]. }
      destruct (Z.eqb_spec (g_softBlockCount k) 0) as [E'|E'].
      { rewrite (scheduler_idle k Hrq (or_intror E')).
        destruct (Z.eqb_spec (g_procCount k) 0); [contradiction|reflexivity]. }
      unfold scheduler. rewrite bind_gets, Hrq. cbn [emptyProcQ isNull].
      erewrite bind_Stop; [reflexivity|].
      unfold when at 1. rewrite bind_gets.
      destruct (Z.eqb_spec (g_procCount k) 0) as [|_]; [contradiction|].
      unfold when at 1. rewrite bind_ret, bind_gets.
      destruct (Z.eqb_spec (g_softBlockCount k) 0) as [|_]; [contradiction|].
      unfold when at 1. rewrite bind_ret.
      unfold setSTATUS, setTIMER, WAIT.
      rewrite bind_modify.
      unfold getTODLO at 1, bind at 1.
      rewrite bind_modify, bind_gets.
      unfold getTODLO at 1, bind at 1.
      rewrite bind_modify. unfold stopWith. reflexivity.
    + intros _ Hc. now rewrite (scheduler_idle k Hrq Hc).
  - split; [|discriminate].
    destruct (scheduler_runs_head k h q Hq) as (k' & -> & _). reflexivity.
Qed.

Lemma scheduler_outcome_witness :
  stoppedBy (scheduler (set_g_currentProc NULL booted))
  = Some (match @nil nat with
          | _ :: _ => LoadState
          | [] => if Z.eqb (g_procCount (set_g_currentProc NULL booted)) 0 then Halt
                  else if Z.eqb (g_softBlockCount (set_g_currentProc NULL booted)) 0
                       then Panic
                       else Wait
          end) /\
  (@nil nat = [] ->
   g_procCount (set_g_currentProc NULL booted) = 0 \/
   g_softBlockCount (set_g_currentProc NULL booted) = 0 ->
   finalState (scheduler (set_g_currentProc NULL booted))
   = set_g_currentProc NULL booted).
Proof.
  refine (scheduler_outcome (set_g_currentProc NULL booted) [] _).
  apply queueAtb_sound. vm_compute. reflexivity.
Defined.

(** ** End of a quantum *)

(** Round robin: at the end of its quantum the running process goes to
    the tail of the ready queue and the process at the head of the
    queue runs next; alone, the running process runs again.  The timer
    gets a full [QUANTUM] unless less than that is left until the end
    of the interval; the remainder that is then programmed is computed
    from a later reading of the clock than the one tested. *)
Theorem endOfQuantum_round_robin (k : kstate) (c : nat) (q : list nat) :
  g_currentProc k = Some c ->
  (c < length (procTable k))%nat ->
  c ∉ q ->
  queueAt At_g_readyQueue k q ->
  let e := g_endOfInterval k in
  let t := fun i : nat => wrap_uint (todReads k (todCount k + i)%nat) in
  let partial := negb (Z.leb QUANTUM (wrap_uint (e - t 1%nat))) in
  exists k',
    endOfQuantum k = Stop LoadState k' /\
    g_currentProc k' = head (q ++ [c]) /\
    queueAt At_g_readyQueue k' (tail (q ++ [c])) /\
    timerReg k' = (if partial then wrap_uint (e - t 2%nat) else wrap_uint QUANTUM) /\
    payload <$> procTable k' = payload <$> procTable k /\
    (g_procCount k', g_softBlockCount k', g_endOfInterval k', intMem k')
    = (g_procCount k, g_softBlockCount k, g_endOfInterval k, intMem k).
Proof.
  intros Hc Hlt Hnot Hq e t partial.
  destruct (insertProcQ_ring At_g_readyQueue k q c Hq Hlt Hnot)
    as (tbl1 & Hrun & Hring & Hlen & Hpay & _).
  destruct Hq as (t0 & Ht0 & _).
  unfold endOfQuantum. rewrite bind_gets, Hc. cbn [isNull negb when].
  rewrite bind_assoc, bind_gets, Hc, bind_assoc, (bind_Ret _ _ _ _ _ Hrun), bind_modify.
  set (k2 := set_g_currentProc NULL _).
  assert (Hq2 : queueAt At_g_readyQueue k2 (q ++ [c])).
  { exists (Some c). split; [reflexivity|exact Hring]. }
  destruct (q ++ [c]) as [|h r] eqn:E; [now destruct q|].
  destruct (scheduler_runs_head k2 h r Hq2)
    as (k' & Hrun' & H1 & H2 & H3 & _ & H5 & H6 & _).
  exists k'. splits; auto.
  now rewrite H5.
Qed.

Lemma endOfQuantum_round_robin_witness :
  let k := childCreated in
  let e := g_endOfInterval k in
  let t := fun i : nat => wrap_uint (todReads k (todCount k + i)%nat) in
  let partial := negb (Z.leb QUANTUM (wrap_uint (e - t 1%nat))) in
  exists k',
    endOfQuantum k = Stop LoadState k' /\
    g_currentProc k' = head ([1%nat] ++ [0%nat]) /\
    queueAt At_g_readyQueue k' (tail ([1%nat] ++ [0%nat])) /\
    timerReg k' = (if partial then wrap_uint (e - t 2%nat) else wrap_uint QUANTUM) /\
    payload <$> procTable k' = payload <$> procTable k /\
    (g_procCount k', g_softBlockCount k', g_endOfInterval k', intMem k')
    = (g_procCount k, g_softBlockCount k, g_endOfInterval k, intMem k).
Proof.
  refine (endOfQuantum_round_robin childCreated 0%nat [1%nat] _ _ _ _).
  - vm_compute. reflexivity.
  - vm_compute. lia.
  - intros H. apply list_elem_of_singleton in H. discriminate H.
  - apply queueAtb_sound. vm_compute. reflexivity.
Defined.

(** ** Devices and their semaphores *)

Lemma wrap_int_small z : - 2 ^ 31 <= z < 2 ^ 31 -> wrap_int z = z.
Proof. intros H. unfold wrap_int. rewrite Z.mod_small by lia. lia. Qed.

(** The semaphores of the devices.  For the lines 3 to 7 and the
    devices 0 to 7 of a line, [getSemaphoreIndex] is [8 * (line - 3) +
    device], below 40; two devices share a semaphore only if they are
    the same device; the second semaphore of a terminal, [TOTALDEVICES]
    further, lies from 40 to 47: it is no semaphore of a device, and it
    is below [CLOCKINDEX]. *)
Theorem device_semaphores_distinct (l d l' d' : Z) :
  LINENUMTHREE <= l <= LINENUMSEVEN -> 0 <= d < TOTALDEVICES ->
  LINENUMTHREE <= l' <= LINENUMSEVEN -> 0 <= d' < TOTALDEVICES ->
  getSemaphoreIndex l d = TOTALDEVICES * (l - DEVICEOFFSET) + d /\
  0 <= getSemaphoreIndex l d < 40 /\
  (getSemaphoreIndex l d = getSemaphoreIndex l' d' -> l = l' /\ d = d') /\
  (let transmit := wrap_int (getSemaphoreIndex LINENUMSEVEN d + TOTALDEVICES) in
   40 <= transmit < CLOCKINDEX /\ transmit <> getSemaphoreIndex l' d').
Proof.
  unfold LINENUMTHREE, LINENUMSEVEN, TOTALDEVICES, DEVICEOFFSET, CLOCKINDEX.
  intros Hl Hd Hl' Hd'.
  assert (E : forall a b, 3 <= a <= 7 -> 0 <= b < 8 ->
                getSemaphoreIndex a b = 8 * (a - 3) + b).
  { intros a b Ha Hb. unfold getSemaphoreIndex, TOTALDEVICES, DEVICEOFFSET.
    rewrite (wrap_int_small (a - 3)) by lia.
    rewrite (wrap_int_small (8 * (a - 3))) by lia.
    apply wrap_int_small. lia. }
  rewrite (E l d), (E l' d'), (E 7 d) by lia.
  rewrite (wrap_int_small (8 * (7 - 3) + d + 8)) by lia.
  cbv zeta. lia.
Qed.

Lemma device_semaphores_distinct_witness :
  getSemaphoreIndex 3 0 = TOTALDEVICES * (3 - DEVICEOFFSET) + 0 /\
  0 <= getSemaphoreIndex 3 0 < 40 /\
  (getSemaphoreIndex 3 0 = getSemaphoreIndex 7 7 -> 3 = 7 /\ 0 = 7) /\
  (let transmit := wrap_int (getSemaphoreIndex LINENUMSEVEN 0 + TOTALDEVICES) in
   40 <= transmit < CLOCKINDEX /\ transmit <> getSemaphoreIndex 7 7).
Proof.
  refine (device_semaphores_distinct 3 0 7 7 _ _ _ _);
    unfold LINENUMTHREE, LINENUMSEVEN, TOTALDEVICES; lia.
Defined.

(** *** The lowest pending line and device *)

Lemma land_bit w j :
  0 <= j -> Z.eqb (Z.land w (2 ^ j)) 0 = negb (Z.testbit w j).
Proof.
  intros Hj.
  assert (E : Z.land w (2 ^ j) = if Z.testbit w j then 2 ^ j else 0).
  { apply Z.bits_inj'. intros n Hn. rewrite Z.land_spec, Z.pow2_bits_eqb by lia.
    destruct (Z.eqb_spec j n) as [->|Hne].
    - destruct (Z.testbit w n) eqn:E; cbn [andb].
      + now rewrite Z.pow2_bits_true.
      + now rewrite Z.bits_0.
    - rewrite andb_false_r. destruct (Z.testbit w j).
      + rewrite Z.pow2_bits_false by lia. reflexivity.
      + now rewrite Z.bits_0. }
  rewrite E. destruct (Z.testbit w j); cbn [negb]; [|reflexivity].
  apply Z.eqb_neq. apply Z.pow_nonzero; lia.
Qed.

(** The loops of [getLineNumber] and [getDeviceNumber] find the lowest
    of the bits 0 to 7 that is set, and nothing when none is. *)
Lemma firstBit_lowest (w : Z) :
  match firstBit w lineBits 0 with
  | Some i =>
    0 <= i < 8 /\ Z.testbit w i = true /\
    forall j, 0 <= j < i -> Z.testbit w j = false
  | None => forall j, 0 <= j < 8 -> Z.testbit w j = false
  end.
Proof.
  unfold lineBits. cbn [firstBit].
  change 0x01 with (2 ^ 0). change 0x02 with (2 ^ 1). change 0x04 with (2 ^ 2).
  change 0x08 with (2 ^ 3). change 0x10 with (2 ^ 4). change 0x20 with (2 ^ 5).
  change 0x40 with (2 ^ 6). change 0x80 with (2 ^ 7).
  rewrite !land_bit, !negb_involutive by lia. cbn [Z.add Pos.add Pos.succ].
  destruct (Z.testbit w 0) eqn:B0; [splits; [lia|lia|assumption|intros; lia]|].
  destruct (Z.testbit w 1) eqn:B1;
    [splits; [lia|lia|assumption|intros j Hj; assert (j = 0) as -> by lia; assumption]|].
  destruct (Z.testbit w 2) eqn:B2;
    [splits; [lia|lia|assumption|
       intros j Hj; assert (j = 0 \/ j = 1) as [->| ->] by lia; assumption]|].
  destruct (Z.testbit w 3) eqn:B3;
    [splits; [lia|lia|assumption|
       intros j Hj; assert (j = 0 \/ j = 1 \/ j = 2) as [->|[->| ->]] by lia;
       assumption]|].
  destruct (Z.testbit w 4) eqn:B4;
    [splits; [lia|lia|assumption|
       intros j Hj;
       assert (j = 0 \/ j = 1 \/ j = 2 \/ j = 3) as [->|[->|[->| ->]]] by lia;
       assumption]|].
  destruct (Z.testbit w 5) eqn:B5;
    [splits; [lia|lia|assumption|
       intros j Hj;
       assert (j = 0 \/ j = 1 \/ j = 2 \/ j = 3 \/ j = 4)
         as [->|[->|[->|[->| ->]]]] by lia;
       assumption]|].
  destruct (Z.testbit w 6) eqn:B6;
    [splits; [lia|lia|assumption|
       intros j Hj;
       assert (j = 0 \/ j = 1 \/ j = 2 \/ j = 3 \/ j = 4 \/ j = 5)
         as [->|[->|[->|[->|[->| ->]]]]] by lia;
       assumption]|].
  destruct (Z.testbit w 7) eqn:B7;
    [splits; [lia|lia|assumption|
       intros j Hj;
       assert (j = 0 \/ j = 1 \/ j = 2 \/ j = 3 \/ j = 4 \/ j = 5 \/ j = 6)
         as [->|[->|[->|[->|[->|[->| ->]]]]]] by lia;
       assumption]|].
  intros j Hj.
  assert (j = 0 \/ j = 1 \/ j = 2 \/ j = 3 \/ j = 4 \/ j = 5 \/ j = 6 \/ j = 7)
    as [->|[->|[->|[->|[->|[->|[->| ->]]]]]]] by lia;
    assumption.
Qed.

Lemma wrap_int_testbit z j : 0 <= j < 32 -> Z.testbit (wrap_int z) j = Z.testbit z j.
Proof.
  intros Hj.
  rewrite <- (Z.mod_pow2_bits_low (wrap_int z) 32 j) by lia.
  rewrite <- (Z.mod_pow2_bits_low z 32 j) by lia.
  f_equal. unfold wrap_int.
  rewrite Zminus_mod_idemp_l. f_equal. lia.
Qed.

(** Interrupt lines are served by priority: [getLineNumber] returns the
    lowest of the lines 0 to 7 whose bit is set in bits 24 to 31 of
    [CP15_Cause] of the saved state, and panics when none is set; the
    kernel state is not changed. *)
Theorem getLineNumber_lowest_line (k : kstate) (oldINT : Z) :
  oldINT <> 0 ->
  let cause := CP15_Cause (stateMem k oldINT) in
  match getLineNumber oldINT k with
  | Ret i k' =>
    k' = k /\ 0 <= i < 8 /\
    Z.testbit cause (i + LINENUMOFFSET) = true /\
    forall j, 0 <= j < i -> Z.testbit cause (j + LINENUMOFFSET) = false
  | Stop e k' =>
    e = Panic /\ k' = k /\
    forall j, 0 <= j < 8 -> Z.testbit cause (j + LINENUMOFFSET) = false
  end.
Proof.
  intros Hnz cause. unfold getLineNumber.
  rewrite (bind_Ret _ _ _ _ _ (rdState_nonnull oldINT k Hnz)). fold cause.
  assert (Hbit : forall j, 0 <= j < 8 ->
            Z.testbit (wrap_int (Z.shiftr cause LINENUMOFFSET)) j
            = Z.testbit cause (j + LINENUMOFFSET)).
  { intros j Hj. rewrite wrap_int_testbit by lia. apply Z.shiftr_spec. lia. }
  pose proof (firstBit_lowest (wrap_int (Z.shiftr cause LINENUMOFFSET))) as H.
  destruct (firstBit (wrap_int (Z.shiftr cause LINENUMOFFSET)) lineBits 0) as [i|].
  - destruct H as (Hi & Hset & Hlow). unfold ret. splits; auto; try lia.
    + now rewrite <- Hbit.
    + intros j Hj. rewrite <- Hbit by lia. now apply Hlow.
  - cbn. splits; auto. intros j Hj. rewrite <- Hbit by lia. now apply H.
Qed.

Lemma getLineNumber_lowest_line_witness :
  let cause := CP15_Cause (stateMem (raiseINT 0x0C booted) INTOLDADD) in
  match getLineNumber INTOLDADD (raiseINT 0x0C booted) with
  | Ret i k' =>
    k' = raiseINT 0x0C booted /\ 0 <= i < 8 /\
    Z.testbit cause (i + LINENUMOFFSET) = true /\
    forall j, 0 <= j < i -> Z.testbit cause (j + LINENUMOFFSET) = false
  | Stop e k' =>
    e = Panic /\ k' = raiseINT 0x0C booted /\
    forall j, 0 <= j < 8 -> Z.testbit cause (j + LINENUMOFFSET) = false
  end.
Proof.
  refine (getLineNumber_lowest_line (raiseINT 0x0C booted) INTOLDADD _).
  discriminate.
Defined.

(** Among the devices of a line, [getDeviceNumber] picks the lowest
    device whose bit is set in the pending-interrupt word of the line,
    and panics when none of the bits 0 to 7 is set; the kernel state is
    not changed. *)
Theorem getDeviceNumber_lowest_device (k : kstate) (pendingIntMap : Z) :
  pendingIntMap <> 0 ->
  let word := pendingMap k pendingIntMap in
  match getDeviceNumber pendingIntMap k with
  | Ret i k' =>
    k' = k /\ 0 <= i < 8 /\
    Z.testbit word i = true /\
    forall j, 0 <= j < i -> Z.testbit word j = false
  | Stop e k' =>
    e = Panic /\ k' = k /\ forall j, 0 <= j < 8 -> Z.testbit word j = false
  end.
Proof.
  intros Hnz word. unfold getDeviceNumber, bind at 1.
  destruct (Z.eqb_spec pendingIntMap 0) as [|_]; [contradiction|]. fold word.
  pose proof (firstBit_lowest word) as H. change deviceBits with lineBits.
  destruct (firstBit word lineBits 0) as [i|].
  - destruct H as (Hi & Hset & Hlow). unfold ret. splits; auto; lia.
  - cbn. splits; auto.
Qed.

Lemma getDeviceNumber_lowest_device_witness :
  let word := pendingMap booted DISKINTMAP in
  match getDeviceNumber DISKINTMAP booted with
  | Ret i k' =>
    k' = booted /\ 0 <= i < 8 /\
    Z.testbit word i = true /\
    forall j, 0 <= j < i -> Z.testbit word j = false
  | Stop e k' =>
    e = Panic /\ k' = booted /\ forall j, 0 <= j < 8 -> Z.testbit word j = false
  end.
Proof.
  refine (getDeviceNumber_lowest_device booted DISKINTMAP _). discriminate.
Defined.

(** ** Control never comes back *)

Lemma neverReturns_stopWith {A : Type} e : neverReturns (@stopWith A e).
Proof. intros k. now exists e, k. Qed.

Lemma neverReturns_bind_l {A B : Type} (m : M A) (f : A -> M B) :
  neverReturns m -> neverReturns (bind m f).
Proof.
  intros H k. destruct (H k) as (e & k' & E). exists e, k'. now apply bind_Stop.
Qed.

Lemma neverReturns_bind_r {A B : Type} (m : M A) (f : A -> M B) :
  (forall a, neverReturns (f a)) -> neverReturns (bind m f).
Proof.
  intros H k. unfold bind. destruct (m k) as [a k1|e k1].
  - apply H.
  - now exists e, k1.
Qed.

Lemma neverReturns_if {A : Type} (c : bool) (m1 m2 : M A) :
  neverReturns m1 -> neverReturns m2 -> neverReturns (if c then m1 else m2).
Proof. now destruct c. Qed.

Ltac never :=
  repeat first
    [ assumption
    | apply neverReturns_stopWith
    | apply neverReturns_if
    | apply neverReturns_bind_r; intros ? ].

Lemma neverReturns_loadState : neverReturns loadState.
Proof. unfold loadState, LDST. never. Qed.

Lemma neverReturns_scheduler : neverReturns scheduler.
Proof. unfold scheduler. pose proof neverReturns_loadState. never. Qed.

Lemma neverReturns_terminateProcess L : neverReturns (terminateProcess L).
Proof. unfold terminateProcess. pose proof neverReturns_scheduler. never. Qed.

Lemma neverReturns_passUpOrDie L t a : neverReturns (passUpOrDie L t a).
Proof. unfold passUpOrDie. pose proof neverReturns_loadState. never. Qed.

(** No entry point of the nucleus returns to its caller: the three
    exception handlers, the interrupt handler and [main] all end in
    [LDST], [HALT], [PANIC] or [WAIT] (or at a dereference that has no
    continuation), on every path and in every state. *)
Theorem entry_points_never_return (L : layout) :
  neverReturns (SYSCallHandler L) /\
  neverReturns (PGMTrapHandler L) /\
  neverReturns (TLBTrapHandler L) /\
  neverReturns (interruptHandler L) /\
  neverReturns (main L).
Proof.
  pose proof neverReturns_loadState as H1.
  pose proof neverReturns_scheduler as H2.
  pose proof (neverReturns_passUpOrDie L) as H3.
  splits.
  - unfold SYSCallHandler, PGMTrapHandler. never.
  - unfold PGMTrapHandler. never.
  - unfold TLBTrapHandler. never.
  - unfold interruptHandler, externalDeviceHandler. never.
  - unfold main, PANIC. never.
Qed.

(** ** Passing a trap up *)

Lemma copyState_mem a d k :
  a <> 0 -> d <> 0 ->
  copyState (AtAddr a) (AtAddr d) k
  = Ret tt (set_stateMem (store d (stateMem k a) (stateMem k)) k).
Proof.
  intros Ha Hd. unfold copyState. cbn [rdStateLoc wrStateLoc].
  rewrite (bind_Ret _ _ _ _ _ (rdState_nonnull a k Ha)).
  rewrite (bind_Ret _ _ _ _ _ (rdState_nonnull d k Hd)).
  rewrite state_eta. unfold wrState.
  destruct (Z.eqb_spec d 0); [contradiction|reflexivity].
Qed.

Lemma rdSlot_Some k c b trapType x :
  procTable k !! c = Some b ->
  0 <= trapType ->
  stateArray b !! Z.to_nat trapType = Some x ->
  rdSlot (Some c) trapType k = Ret x k.
Proof.
  intros Hb Ht Hx. unfold rdSlot.
  rewrite (bind_Ret _ _ _ _ _ (rdPcb_Some stateArray k c b Hb)).
  destruct (Z.ltb_spec trapType 0); [lia|]. now rewrite Hx.
Qed.

Lemma loadState_loads k c b :
  g_currentProc k = Some c -> procTable k !! c = Some b ->
  loadState k = Stop LoadState k.
Proof.
  intros Hc Hb. unfold loadState, LDST. rewrite bind_gets, Hc.
  now rewrite (bind_Ret _ _ _ _ _ (rdPcb_Some p_s k c b Hb)).
Qed.

(** Pass up: when the running process has registered a vector for the
    trap type, the state saved in the old area of the nucleus is copied
    to the old area of the process, and the state the process
    registered as new, read after that copy, becomes the state of the
    process and is loaded. *)
Theorem passUpOrDie_passes_up (L : layout) (k : kstate) (c : nat) (b : pcb_t)
    (trapType oldArea : Z) (x : p_states) :
  g_currentProc k = Some c ->
  procTable k !! c = Some b ->
  0 <= trapType ->
  stateArray b !! Z.to_nat trapType = Some x ->
  newState x <> 0 -> oldState x <> 0 -> oldArea <> 0 ->
  let sm' := store (oldState x) (stateMem k oldArea) (stateMem k) in
  passUpOrDie L trapType oldArea k
  = Stop LoadState
      (set_procTable (<[c := set_p_s (sm' (newState x)) b]> (procTable k))
         (set_stateMem sm' k)).
Proof.
  intros Hc Hb Ht Hx Hnew Hold Harea sm'. unfold passUpOrDie.
  rewrite bind_gets, Hc, (bind_Ret _ _ _ _ _ (rdSlot_Some k c b trapType x Hb Ht Hx)).
  destruct (Z.eqb_spec (newState x) 0) as [|_]; [contradiction|].
  cbn [when]. rewrite bind_ret, bind_gets, Hc.
  rewrite (bind_Ret _ _ _ _ _ (rdSlot_Some k c b trapType x Hb Ht Hx)).
  rewrite (bind_Ret _ _ _ _ _ (copyState_mem oldArea (oldState x) k Harea Hold)).
  fold sm'. set (k1 := set_stateMem sm' k).
  assert (Hb1 : procTable k1 !! c = Some b) by exact Hb.
  rewrite bind_gets. change (g_currentProc k1) with (g_currentProc k). rewrite Hc.
  rewrite (bind_Ret _ _ _ _ _ (rdSlot_Some k1 c b trapType x Hb1 Ht Hx)).
  rewrite bind_gets. change (g_currentProc k1) with (g_currentProc k). rewrite Hc.
  rewrite (bind_Ret _ _ _ _ _ (copyState_into_pcb (newState x) k1 c b Hnew Hb1)).
  apply (loadState_loads _ c (set_p_s (sm' (newState x)) b)); [exact Hc|].
  cbn [procTable set_procTable]. apply list_lookup_insert_eq.
  now apply lookup_lt_Some in Hb.
Qed.

Lemma passUpOrDie_passes_up_witness :
  let k := grandchildRegistered in
  let sm' := store 0xB000 (stateMem k TLBOLDADD) (stateMem k) in
  passUpOrDie uarm TLBTRAP TLBOLDADD k
  = Stop LoadState
      (set_procTable
         (<[2%nat := set_p_s (sm' 0xB100) (pcbOf k (Some 2%nat))]> (procTable k))
         (set_stateMem sm' k)).
Proof.
  refine (passUpOrDie_passes_up uarm grandchildRegistered 2%nat
            (pcbOf grandchildRegistered (Some 2%nat)) TLBTRAP TLBOLDADD
            (Build_p_states 0xB000 0xB100) _ _ _ _ _ _ _).
  - vm_compute. reflexivity.
  - vm_compute. reflexivity.
  - vm_compute. discriminate.
  - vm_compute. reflexivity.
  - discriminate.
  - discriminate.
  - discriminate.
Defined.

(** Die: without a registered vector the trap ends the running process
    and its progeny, exactly as a request to terminate does. *)
Theorem passUpOrDie_dies (L : layout) (k : kstate) (c : nat) (b : pcb_t)
    (trapType oldArea : Z) (x : p_states) :
  g_currentProc k = Some c ->
  procTable k !! c = Some b ->
  0 <= trapType ->
  stateArray b !! Z.to_nat trapType = Some x ->
  newState x = 0 ->
  passUpOrDie L trapType oldArea k = terminateProcess L k.
Proof.
  intros Hc Hb Ht Hx Hnew. unfold passUpOrDie.
  rewrite bind_gets, Hc, (bind_Ret _ _ _ _ _ (rdSlot_Some k c b trapType x Hb Ht Hx)).
  rewrite Hnew. cbn [Z.eqb when].
  destruct (neverReturns_terminateProcess L k) as (e & k' & E).
  rewrite E. now apply bind_Stop.
Qed.

Lemma passUpOrDie_dies_witness :
  passUpOrDie uarm PGMTRAP PGMTOLDADD grandchildRegistered
  = terminateProcess uarm grandchildRegistered.
Proof.
  refine (passUpOrDie_dies uarm grandchildRegistered 2%nat
            (pcbOf grandchildRegistered (Some 2%nat)) PGMTRAP PGMTOLDADD
            (Build_p_states 0 0) _ _ _ _ _).
  - vm_compute. reflexivity.
  - vm_compute. reflexivity.
  - vm_compute. discriminate.
  - vm_compute. reflexivity.
  - reflexivity.
Defined.

(** ** Registering trap vectors *)

Lemma wrSlot_Some k c b trapType x upd :
  procTable k !! c = Some b ->
  0 <= trapType ->
  stateArray b !! Z.to_nat trapType = Some x ->
  wrSlot (Some c) trapType upd k
  = Ret tt (set_procTable
              (<[c := set_stateArray (<[Z.to_nat trapType := upd x]> (stateArray b)) b]>
                 (procTable k)) k).
Proof.
  intros Hb Ht Hx. unfold wrSlot.
  rewrite (bind_Ret _ _ _ _ _ (rdSlot_Some k c b trapType x Hb Ht Hx)).
  rewrite (bind_Ret _ _ _ _ _ (rdPcb_Some stateArray k c b Hb)).
  now apply wrPcb_Some.
Qed.

(** A process registers the vector of a trap type once.  The first
    request stores the two addresses in the slot of the trap type and
    resumes the process; a request for a trap type whose slot already
    holds an old-state address ends the process and its progeny,
    exactly as a request to terminate does. *)
Theorem spectrapvec_once (L : layout) (k : kstate) (c : nat) (b : pcb_t)
    (trapType oldProcState newProcState : Z) (x : p_states) :
  g_currentProc k = Some c ->
  procTable k !! c = Some b ->
  0 <= trapType ->
  stateArray b !! Z.to_nat trapType = Some x ->
  spectrapvec L trapType oldProcState newProcState k
  = if Z.eqb (oldState x) 0
    then Stop LoadState
           (set_procTable
              (<[c := set_stateArray
                        (<[Z.to_nat trapType := Build_p_states oldProcState newProcState]>
                           (stateArray b)) b]> (procTable k)) k)
    else terminateProcess L k.
Proof.
  intros Hc Hb Ht Hx. unfold spectrapvec.
  rewrite bind_gets, Hc, (bind_Ret _ _ _ _ _ (rdSlot_Some k c b trapType x Hb Ht Hx)).
  destruct (Z.eqb (oldState x) 0); cbn [when]; [|now rewrite bind_ret].
  apply bind_Stop. rewrite bind_gets, Hc.
  rewrite (bind_Ret _ _ _ _ _ (wrSlot_Some k c b trapType x _ Hb Ht Hx)).
  set (b1 := set_stateArray _ b). set (k1 := set_procTable _ k).
  assert (Hlt : (c < length (procTable k))%nat) by now apply lookup_lt_Some in Hb.
  assert (Hi : (Z.to_nat trapType < length (stateArray b))%nat)
    by now apply lookup_lt_Some in Hx.
  assert (Hb1 : procTable k1 !! c = Some b1) by now apply list_lookup_insert_eq.
  assert (Hx1 : stateArray b1 !! Z.to_nat trapType = Some (set_oldState oldProcState x))
    by now apply list_lookup_insert_eq.
  rewrite bind_gets. change (g_currentProc k1) with (g_currentProc k). rewrite Hc.
  rewrite (bind_Ret _ _ _ _ _ (wrSlot_Some k1 c b1 trapType _ _ Hb1 Ht Hx1)).
  cbn [procTable set_procTable k1 stateArray set_stateArray b1].
  rewrite !list_insert_insert_eq.
  match goal with |- loadState ?s = Stop LoadState ?s' => change s with s' end.
  eapply (loadState_loads _ c); [exact Hc|].
  cbn [procTable set_procTable]. now apply list_lookup_insert_eq.
Qed.

Lemma spectrapvec_once_witness :
  let k := grandchildRuns in
  spectrapvec uarm TLBTRAP 0xB000 0xB100 k
  = if Z.eqb (oldState (Build_p_states 0 0)) 0
    then Stop LoadState
           (set_procTable
              (<[2%nat := set_stateArray
                            (<[Z.to_nat TLBTRAP := Build_p_states 0xB000 0xB100]>
                               (stateArray (pcbOf k (Some 2%nat))))
                            (pcbOf k (Some 2%nat))]> (procTable k)) k)
    else terminateProcess uarm k.
Proof.
  refine (spectrapvec_once uarm grandchildRuns 2%nat (pcbOf grandchildRuns (Some 2%nat))
            TLBTRAP 0xB000 0xB100 (Build_p_states 0 0) _ _ _ _).
  - vm_compute. reflexivity.
  - vm_compute. reflexivity.
  - vm_compute. discriminate.
  - vm_compute. reflexivity.
Defined.

(** ** Service requests in user mode *)

(** Requests that are not served.  A request for one of the services
    up to [WAITIO] by a process that does not run in system mode, and
    in any mode a request whose number is below [CREATEPROCESS], is
    handled as a program trap: the state saved in the SYS old area goes
    to the ProcBlk of the process and to the PgmTrap old area, there
    with [RI] as the cause, and [PGMTrapHandler] takes over. *)
Theorem SYSCallHandler_unserved_request_traps (L : layout) (k : kstate) (c : nat) (b : pcb_t) :
  g_currentProc k = Some c ->
  procTable k !! c = Some b ->
  let old := stateMem k oldSYS in
  wrap_int (a1 old) <= WAITIO ->
  Z.land (cpsr old) SYSMODE <> SYSMODE \/ wrap_int (a1 old) < CREATEPROCESS ->
  SYSCallHandler L k
  = PGMTrapHandler L
      (set_stateMem
         (store oldPGM (set_CP15_Cause RI old) (store oldPGM old (stateMem k)))
         (set_procTable (<[c := set_p_s old b]> (procTable k)) k)).
Proof.
  intros Hc Hb old Hnum Hcase. unfold SYSCallHandler.
  assert (Hsys : oldSYS <> 0) by discriminate.
  assert (Hpgm : oldPGM <> 0) by discriminate.
  rewrite bind_gets, Hc.
  rewrite (bind_Ret _ _ _ _ _ (copyState_into_pcb oldSYS k c b Hsys Hb)). fold old.
  set (k1 := set_procTable _ k).
  rewrite (bind_Ret _ _ _ _ _ (rdState_nonnull oldSYS k1 Hsys)).
  change (stateMem k1 oldSYS) with old.
  destruct (Z.ltb_spec WAITIO (wrap_int (a1 old))) as [|_]; [lia|].
  cbn [when]. rewrite bind_ret, bind_gets.
  change (g_currentProc k1) with (g_currentProc k). rewrite Hc.
  assert (Hb1 : procTable k1 !! c = Some (set_p_s old b)).
  { apply list_lookup_insert_eq. now apply lookup_lt_Some in Hb. }
  rewrite (bind_Ret _ _ _ _ _ (rdPcb_Some p_s k1 c _ Hb1)).
  cbn [p_s set_p_s].
  destruct Hcase as [Hmode|Hlow].
  1: destruct (Z.eqb_spec (Z.land (cpsr old) SYSMODE) SYSMODE) as [|_];
       [contradiction|].
  2: unfold CREATEPROCESS, TERMINATEPROCESS, VERHOGEN, PASSEREN, SPECTRAPVEC,
       GETCPUTIME, WAITCLOCK, WAITIO in *;
     repeat match goal with
            | |- context [Z.eqb (wrap_int (a1 old)) ?n] =>
              destruct (Z.eqb_spec (wrap_int (a1 old)) n); [lia|]
            end;
     destruct (Z.eqb (Z.land (cpsr old) SYSMODE) SYSMODE).
  all: cbn [when]; rewrite bind_ret;
    rewrite (bind_Ret _ _ _ _ _ (copyState_mem oldSYS oldPGM k1 Hsys Hpgm));
    change (stateMem k1) with (stateMem k); fold old;
    set (k2 := set_stateMem _ k1);
    rewrite (bind_Ret _ _ _ _ _ (rdState_nonnull oldPGM k2 Hpgm));
    cbn [stateMem set_stateMem k2]; rewrite store_same;
    unfold wrState, bind at 1; cbn [Z.eqb oldPGM PGMTOLDADD]; reflexivity.
Qed.

Lemma SYSCallHandler_unserved_request_traps_witness :
  let k := raiseSYS CREATEPROCESS childStateAddr 0 0
             (set_procTable
                (<[0%nat := set_p_s (set_cpsr USERMODE (p_s (pcbOf booted (Some 0%nat))))
                              (pcbOf booted (Some 0%nat))]> (procTable booted))
                booted) in
  let old := stateMem k oldSYS in
  SYSCallHandler uarm k
  = PGMTrapHandler uarm
      (set_stateMem
         (store oldPGM (set_CP15_Cause RI old) (store oldPGM old (stateMem k)))
         (set_procTable
            (<[0%nat := set_p_s old (pcbOf k (Some 0%nat))]> (procTable k)) k)).
Proof.
  intros k.
  refine (SYSCallHandler_unserved_request_traps uarm k 0%nat (pcbOf k (Some 0%nat)) _ _ _ _).
  - vm_compute. reflexivity.
  - vm_compute. reflexivity.
  - vm_compute. discriminate.
  - left. vm_compute. discriminate.
Defined.

(** ** Processor time *)

Lemma wrap_int_shift a q : wrap_int (a + 2 ^ 32 * q) = wrap_int a.
Proof.
  unfold wrap_int. f_equal.
  replace (a + 2 ^ 32 * q + 2 ^ 31) with (a + 2 ^ 31 + q * 2 ^ 32) by lia.
  apply Z_mod_plus_full.
Qed.

Lemma wrap_int_eqm a : exists q, wrap_int a = a + 2 ^ 32 * q.
Proof.
  exists (- ((a + 2 ^ 31) / 2 ^ 32)). unfold wrap_int.
  pose proof (Z.div_mod (a + 2 ^ 31) (2 ^ 32)) as H. lia.
Qed.

(** One call of [updateTime]. *)
Lemma updateTime_runs k c b :
  g_currentProc k = Some c ->
  procTable k !! c = Some b ->
  let now := wrap_int (wrap_uint (todReads k (todCount k))) in
  let acc := wrap_int (now - g_startTOD k) in
  updateTime k
  = Ret tt
      (set_g_startTOD now
         (set_procTable (<[c := set_p_time (wrap_int (p_time b + acc)) b]> (procTable k))
            (set_g_accTime acc (set_g_endTOD now (set_todCount (S (todCount k)) k))))).
Proof.
  intros Hc Hb now acc. unfold updateTime, getTODLO.
  unfold bind at 1. repeat first [rewrite bind_modify | rewrite bind_gets].
  cbn [g_endTOD set_g_endTOD g_startTOD set_todCount g_currentProc set_g_accTime].
  rewrite Hc. fold now. fold acc.
  erewrite bind_Ret; [|apply (rdPcb_Some p_time _ c b); exact Hb].
  rewrite bind_gets. cbn [g_accTime set_g_accTime].
  erewrite bind_Ret; [|apply (wrPcb_Some _ _ c b); exact Hb].
  rewrite bind_gets. reflexivity.
Qed.

(** Time accounting adds up.  Two calls of [updateTime] in a row charge
    the running process with the time from [g_startTOD] to the second
    reading of the clock, in 32-bit arithmetic: nothing is lost and
    nothing is charged twice; [g_startTOD] is then that second
    reading. *)
Theorem updateTime_adds_up (k : kstate) (c : nat) (b : pcb_t) :
  g_currentProc k = Some c ->
  procTable k !! c = Some b ->
  let second := wrap_uint (todReads k (S (todCount k))) in
  exists k',
    (updateTime ;; updateTime) k = Ret tt k' /\
    p_time (pcbOf k' (Some c)) = wrap_int (p_time b + (second - g_startTOD k)) /\
    g_startTOD k' = wrap_int second /\
    todCount k' = S (S (todCount k)) /\
    g_currentProc k' = Some c.
Proof.
  intros Hc Hb second.
  rewrite (bind_Ret _ _ _ _ _ (updateTime_runs k c b Hc Hb)).
  set (k1 := set_g_startTOD _ _).
  assert (Hlt : (c < length (procTable k))%nat) by now apply lookup_lt_Some in Hb.
  assert (Hb1 : procTable k1 !! c
                = Some (set_p_time
                          (wrap_int (p_time b
                             + wrap_int (wrap_int (wrap_uint (todReads k (todCount k)))
                                         - g_startTOD k))) b)).
  { cbn [k1 procTable set_g_startTOD set_procTable]. now apply list_lookup_insert_eq. }
  rewrite (updateTime_runs k1 c _ Hc Hb1).
  eexists. split; [reflexivity|].
  cbn [pcbOf procTable set_g_startTOD set_procTable g_startTOD todCount g_currentProc
       set_g_accTime set_g_endTOD set_todCount k1 todReads p_time set_p_time].
  rewrite list_insert_insert_eq, list_lookup_insert_eq by exact Hlt.
  cbn [default p_time set_p_time]. fold second. splits; auto.
  unfold id. cbn [p_time set_p_time].
  set (first := wrap_uint (todReads k (todCount k))).
  destruct (wrap_int_eqm first) as [q1 E1]. rewrite E1.
  destruct (wrap_int_eqm second) as [q2 E2]. rewrite E2.
  destruct (wrap_int_eqm (first + 2 ^ 32 * q1 - g_startTOD k)) as [q3 E3]. rewrite E3.
  destruct (wrap_int_eqm (p_time b + (first + 2 ^ 32 * q1 - g_startTOD k + 2 ^ 32 * q3)))
    as [q4 E4]. rewrite E4.
  destruct (wrap_int_eqm (second + 2 ^ 32 * q2 - (first + 2 ^ 32 * q1))) as [q5 E5].
  rewrite E5.
  rewrite <- (wrap_int_shift (p_time b + (second - g_startTOD k)) (q2 + q3 + q4 + q5)).
  f_equal. lia.
Qed.

Lemma updateTime_adds_up_witness :
  let k := booted in
  let second := wrap_uint (todReads k (S (todCount k))) in
  exists k',
    (updateTime ;; updateTime) k = Ret tt k' /\
    p_time (pcbOf k' (Some 0%nat))
    = wrap_int (p_time (pcbOf k (Some 0%nat)) + (second - g_startTOD k)) /\
    g_startTOD k' = wrap_int second /\
    todCount k' = S (S (todCount k)) /\
    g_currentProc k' = Some 0%nat.
Proof.
  refine (updateTime_adds_up booted 0%nat (pcbOf booted (Some 0%nat)) _ _).
  - vm_compute. reflexivity.
  - vm_compute. reflexivity.
Defined.

(** [getCPUTime] charges the running process up to the request and
    hands the total to it: the time from [g_startTOD] to the reading of
    the clock is added to [p_time], the sum is put into [a1] of the
    saved state of the process, nothing else of that state changes, and
    the state is loaded. *)
Theorem getCPUTime_reports (k : kstate) (c : nat) (b : pcb_t) :
  g_currentProc k = Some c ->
  procTable k !! c = Some b ->
  let now := wrap_uint (todReads k (todCount k)) in
  let total := wrap_int (p_time b + wrap_int (wrap_int now - g_startTOD k)) in
  exists k',
    getCPUTime k = Stop LoadState k' /\
    procTable k' !! c
    = Some (set_p_s (set_a1 (wrap_uint total) (p_s b)) (set_p_time total b)) /\
    g_startTOD k' = wrap_int now /\
    g_currentProc k' = Some c.
Proof.
  intros Hc Hb now total. unfold getCPUTime.
  rewrite (bind_Ret _ _ _ _ _ (updateTime_runs k c b Hc Hb)).
  fold now. fold total. set (k1 := set_g_startTOD _ _).
  assert (Hlt : (c < length (procTable k))%nat) by now apply lookup_lt_Some in Hb.
  assert (Hb1 : procTable k1 !! c = Some (set_p_time total b)).
  { cbn [k1 procTable set_g_startTOD set_procTable]. now apply list_lookup_insert_eq. }
  rewrite bind_gets. change (g_currentProc k1) with (g_currentProc k). rewrite Hc.
  rewrite (bind_Ret _ _ _ _ _ (rdPcb_Some p_time k1 c _ Hb1)).
  rewrite bind_gets. change (g_currentProc k1) with (g_currentProc k). rewrite Hc.
  rewrite (bind_Ret _ _ _ _ _ (rdPcb_Some p_s k1 c _ Hb1)).
  rewrite (bind_Ret _ _ _ _ _ (wrPcb_Some _ k1 c _ Hb1)).
  cbn [p_time set_p_time p_s].
  eexists. split.
  - eapply (loadState_loads _ c); [exact Hc|].
    cbn [procTable set_procTable]. apply list_lookup_insert_eq.
    cbn [k1 procTable set_g_startTOD set_procTable]. now rewrite length_insert.
  - cbn [procTable set_procTable g_startTOD g_currentProc k1 set_g_startTOD].
    splits; auto. apply list_lookup_insert_eq. now rewrite length_insert.
Qed.

Lemma getCPUTime_reports_witness :
  let k := booted in
  let b := pcbOf booted (Some 0%nat) in
  let now := wrap_uint (todReads k (todCount k)) in
  let total := wrap_int (p_time b + wrap_int (wrap_int now - g_startTOD k)) in
  exists k',
    getCPUTime k = Stop LoadState k' /\
    procTable k' !! 0%nat
    = Some (set_p_s (set_a1 (wrap_uint total) (p_s b)) (set_p_time total b)) /\
    g_startTOD k' = wrap_int now /\
    g_currentProc k' = Some 0%nat.
Proof.
  refine (getCPUTime_reports booted 0%nat (pcbOf booted (Some 0%nat)) _ _).
  - vm_compute. reflexivity.
  - vm_compute. reflexivity.
Defined.

(** ** P and V without contention *)

(** On a semaphore whose value is not negative and on which nobody
    waits by the counting, a V resumes the caller with the value one
    higher, and a P that follows resumes the caller with the value as
    it was; neither touches anything but the semaphore. *)
Theorem verhogen_then_passeren (k : kstate) (c : nat) (b : pcb_t) (semAdd : Z) :
  g_currentProc k = Some c ->
  procTable k !! c = Some b ->
  semAdd <> 0 ->
  0 <= intMem k semAdd < 2 ^ 31 - 1 ->
  let k1 := set_intMem (store semAdd (intMem k semAdd + 1) (intMem k)) k in
  let k2 := set_intMem (store semAdd (intMem k semAdd) (intMem k1)) k1 in
  verhogen semAdd k = Stop LoadState k1 /\
  passeren semAdd k1 = Stop LoadState k2.
Proof.
  intros Hc Hb Hnz Hv k1 k2. split.
  - unfold verhogen.
    rewrite (bind_Ret _ _ _ _ _ (rdInt_nonnull semAdd k Hnz)).
    rewrite (bind_Ret _ _ _ _ _ (wrInt_nonnull semAdd _ k Hnz)).
    rewrite (bind_Ret _ _ _ _ _ (rdInt_nonnull semAdd _ Hnz)).
    cbn [intMem set_intMem]. rewrite store_same.
    rewrite (wrap_int_small (intMem k semAdd + 1)) by lia.
    destruct (Z.leb_spec (intMem k semAdd + 1) 0) as [|_]; [lia|].
    cbn [when]. rewrite bind_ret. fold k1.
    now apply (loadState_loads k1 c b).
  - unfold passeren.
    rewrite (bind_Ret _ _ _ _ _ (rdInt_nonnull semAdd k1 Hnz)).
    rewrite (bind_Ret _ _ _ _ _ (wrInt_nonnull semAdd _ k1 Hnz)).
    rewrite (bind_Ret _ _ _ _ _ (rdInt_nonnull semAdd _ Hnz)).
    cbn [intMem set_intMem k1]. rewrite !store_same.
    replace (intMem k semAdd + 1 - 1) with (intMem k semAdd) by lia.
    rewrite (wrap_int_small (intMem k semAdd)) by lia.
    destruct (Z.ltb_spec (intMem k semAdd) 0) as [|_]; [lia|].
    cbn [when]. rewrite bind_ret.
    now apply (loadState_loads _ c b).
Qed.

Lemma verhogen_then_passeren_witness :
  let k := booted in
  let k1 := set_intMem (store userSemAddr (intMem k userSemAddr + 1) (intMem k)) k in
  let k2 := set_intMem (store userSemAddr (intMem k userSemAddr) (intMem k1)) k1 in
  verhogen userSemAddr k = Stop LoadState k1 /\
  passeren userSemAddr k1 = Stop LoadState k2.
Proof.
  refine (verhogen_then_passeren booted 0%nat (pcbOf booted (Some 0%nat)) userSemAddr
            _ _ _ _).
  - vm_compute. reflexivity.
  - vm_compute. reflexivity.
  - discriminate.
  - vm_compute. split; [discriminate|reflexivity].
Defined.

(** ** Start-up *)

(** The loop of [main] that clears the two arrays: it writes zeroes
    only, and the entries from [i0] on are zero after it. *)
Lemma clearDeviceArrays_zeroes (L : layout) (n : nat) : forall (i0 : Z) (k : kstate),
  let k' := finalState (clearDeviceArrays L n i0 k) in
  clearDeviceArrays L n i0 k = Ret tt k' /\
  (forall a, intMem k a = 0 -> intMem k' a = 0) /\
  (forall j, g_deviceStatus k j = 0 -> g_deviceStatus k' j = 0) /\
  (forall j, i0 <= j < i0 + Z.of_nat n ->
             intMem k' (semAt L j) = 0 /\ g_deviceStatus k' j = 0).
Proof.
  induction n as [|n IH]; intros i0 k; cbn [clearDeviceArrays].
  - cbn. splits; auto. intros j Hj. lia.
  - unfold wrSem. rewrite !bind_modify.
    set (k2 := set_g_deviceStatus _ _).
    destruct (IH (i0 + 1) k2) as (Hrun & Hmem & Hdev & Hzero).
    set (k' := finalState (clearDeviceArrays L n (i0 + 1) k2)) in *.
    assert (Hm2 : forall a, intMem k a = 0 -> intMem k2 a = 0).
    { intros a Ha. cbn [k2 intMem set_g_deviceStatus set_intMem]. unfold store.
      now destruct (Z.eqb a (semAt L i0)). }
    assert (Hd2 : forall j, g_deviceStatus k j = 0 -> g_deviceStatus k2 j = 0).
    { intros j Hj. cbn [k2 g_deviceStatus set_g_deviceStatus]. unfold store.
      now destruct (Z.eqb j i0). }
    splits; auto.
    + intros j Hj. destruct (Z.eq_dec j i0) as [->|Hne].
      * split; [apply Hmem|apply Hdev].
        -- cbn [k2 intMem set_g_deviceStatus set_intMem]. apply store_same.
        -- cbn [k2 g_deviceStatus set_g_deviceStatus]. apply store_same.
      * apply Hzero. lia.
Qed.

(** What [main] leaves behind.  Whatever the memories, the device
    registers and the clock hold at power-on, [main] ends by loading
    the state of the first process: it is the running process and the
    only one, it starts at [test] in system mode with its stack one
    frame below the top of memory; the ready queue is empty and the
    other nineteen ProcBlks are free; each of the four new areas holds
    its handler, the top of memory as the stack, system mode with
    interrupts off; the forty-nine semaphores and status words are
    zero. *)
Theorem main_boots (L : layout) (im : Z -> Z) (sm : Z -> state_t) (dr : Z -> devreg_t)
    (pm : Z -> Z) (tod : nat -> Z) :
  let r := main L (powerOn im sm dr pm tod) in
  let k' := finalState r in
  let newArea := fun area handler =>
    let st := stateMem k' area in
    pc st = wrap_uint handler /\ sp st = RAM_TOP L /\
    cpsr st = Z.lor INTSDISABLED SYSMODE /\ CP15_Control st = ALLOFF in
  stoppedBy r = Some LoadState /\
  g_currentProc k' = Some 0%nat /\
  g_procCount k' = 1 /\
  g_softBlockCount k' = 0 /\
  queueAt At_g_readyQueue k' [] /\
  queueAt At_pcbList_h k' (seq 1 19) /\
  p_s (pcbOf k' (Some 0%nat))
  = set_cpsr SYSMODE
      (set_sp (wrap_uint (RAM_TOP L - FRAME_SIZE L))
         (set_pc (wrap_uint (entry_test L)) zero_state)) /\
  newArea SYSNEWADD (entry_SYSCallHandler L) /\
  newArea PGMTNEWADD (entry_PGMTrapHandler L) /\
  newArea TLBNEWADD (entry_TLBTrapHandler L) /\
  newArea INTNEWADD (entry_interruptHandler L) /\
  (forall i, 0 <= i < MAXSEMA4 ->
             intMem k' (semAt L i) = 0 /\ g_deviceStatus k' i = 0).
Proof.
  intros r k' newArea.
  assert (E : exists k1,
             r = bind scheduler (fun _ => PANIC) k1 /\
             queueAtb At_g_readyQueue k1 [0%nat] = true /\
             queueAtb At_pcbList_h k1 (seq 1 19) = true /\
             (g_procCount k1, g_softBlockCount k1) = (1, 0) /\
             p_s <$> procTable k1 !! 0%nat
             = Some (set_cpsr SYSMODE
                       (set_sp (wrap_uint (RAM_TOP L - FRAME_SIZE L))
                          (set_pc (wrap_uint (entry_test L)) zero_state))) /\
             (forall area handler,
                 In (area, handler)
                    [(SYSNEWADD, entry_SYSCallHandler L);
                     (PGMTNEWADD, entry_PGMTrapHandler L);
                     (TLBNEWADD, entry_TLBTrapHandler L);
                     (INTNEWADD, entry_interruptHandler L)] ->
                 let st := stateMem k1 area in
                 pc st = wrap_uint handler /\ sp st = RAM_TOP L /\
                 cpsr st = Z.lor INTSDISABLED SYSMODE /\ CP15_Control st = ALLOFF) /\
             (let k0 := finalState (clearDeviceArrays L (Z.to_nat MAXSEMA4) 0
                                      (powerOn im sm dr pm tod)) in
              intMem k1 = intMem k0 /\ g_deviceStatus k1 = g_deviceStatus k0)).
  { eexists. split.
    - subst r. unfold main.
      cbv -[scheduler wrap_uint wrap_int Z.add Z.sub Z.mul Z.modulo semAt].
      reflexivity.
    - splits.
      + vm_compute. reflexivity.
      + vm_compute. reflexivity.
      + reflexivity.
      + reflexivity.
      + intros area handler Hin. cbn [In] in Hin.
        destruct Hin as [H|[H|[H|[H|[]]]]]; injection H as <- <-;
          cbv -[wrap_uint wrap_int Z.add Z.sub Z.mul Z.modulo]; now splits.
      + cbv -[wrap_uint wrap_int Z.add Z.sub Z.mul Z.modulo semAt]. now split. }
  destruct E as (k1 & Hr & Hq & Hfree & Hcount & Hps & Hareas & Hmem & Hdev).
  apply queueAtb_sound in Hq. apply queueAtb_sound in Hfree.
  destruct (scheduler_runs_head k1 0%nat [] Hq)
    as (k2 & Hrun & Hcur & Hready & _ & _ & Hpay & Hsame & Hsame' & Hframe).
  assert (Hk' : k' = k2).
  { subst k'. rewrite Hr. now rewrite (bind_Stop _ _ _ _ _ Hrun). }
  assert (Hstop : stoppedBy r = Some LoadState).
  { rewrite Hr. now rewrite (bind_Stop _ _ _ _ _ Hrun). }
  clearbody k'. clear Hr. clearbody r. subst k'.
  injection Hsame as Hpc Hsb _ Him. injection Hsame' as Hsm Hds _ Hfl _ _ _.
  injection Hcount as Hc1 Hc2.
  splits.
  - exact Hstop.
  - exact Hcur.
  - congruence.
  - congruence.
  - exact Hready.
  - destruct Hfree as (t & Ht & Hring). exists t. split.
    + cbn [tailAt] in *. congruence.
    + apply (ring_frame (procTable k1)); [| |exact Hring].
      * apply (f_equal length) in Hpay. now rewrite !length_fmap in Hpay.
      * intros x Hx. apply Hframe. intros Hin.
        apply list_elem_of_singleton in Hin as ->.
        apply elem_of_seq in Hx. lia.
  - unfold pcbOf.
    assert (H0 : payload <$> procTable k2 !! 0%nat = payload <$> procTable k1 !! 0%nat)
      by now rewrite <- !list_lookup_fmap, Hpay.
    destruct (procTable k1 !! 0%nat) as [b1|]; [|discriminate Hps].
    destruct (procTable k2 !! 0%nat) as [b2|]; [|discriminate H0].
    cbn [fmap option_fmap option_map] in Hps, H0. injection Hps as <-.
    injection H0 as _ _ _ _ H0 _ _ _. exact H0.
  - subst newArea. cbv beta. rewrite Hsm. apply Hareas. cbn [In]. tauto.
  - subst newArea. cbv beta. rewrite Hsm. apply Hareas. cbn [In]. tauto.
  - subst newArea. cbv beta. rewrite Hsm. apply Hareas. cbn [In]. tauto.
  - subst newArea. cbv beta. rewrite Hsm. apply Hareas. cbn [In]. tauto.
  - intros i Hi. rewrite Him, Hds, Hmem, Hdev.
    destruct (clearDeviceArrays_zeroes L (Z.to_nat MAXSEMA4) 0 (powerOn im sm dr pm tod))
      as (_ & _ & _ & Hzero).
    apply Hzero. unfold MAXSEMA4 in *. lia.
Qed.

(** ** The ASL as [initASL] leaves it

    [initASL] makes the top dummy node the head of the ASL and gives it
    no successor (C1).  Every search of such a list stops at the first
    test of its loop, and with it every operation on the ASL: nothing
    can be put on the queue of a semaphore, and nothing taken off. *)

Lemma aslHeadAlone_same (k k' : kstate) :
  semd_h k' = semd_h k -> semdTable k' = semdTable k ->
  aslHeadAlone k -> aslHeadAlone k'.
Proof.
  intros Hh Ht (h & d & H1 & H2 & H3). exists h, d.
  rewrite Hh, Ht. now splits.
Qed.

Lemma findPrevSemd_head_alone (semAdd : Z) (k : kstate) :
  aslHeadAlone k -> findPrevSemd semAdd k = Stop NullDeref k.
Proof.
  intros (h & d & Hh & Hd & Hn). unfold findPrevSemd.
  rewrite !bind_gets, Hh. cbn [findPrevSemd_while].
  rewrite (bind_Ret _ _ _ _ _ (rdSemd_Some s_next k h d Hd)), Hn.
  reflexivity.
Qed.

Lemma removeBlocked_head_alone (semAdd : Z) (k : kstate) :
  aslHeadAlone k -> removeBlocked semAdd k = Stop NullDeref k.
Proof.
  intros H. unfold removeBlocked. apply bind_Stop.
  now apply findPrevSemd_head_alone.
Qed.

Lemma insertBlocked_head_alone (semAdd : Z) (p : pcb_PTR) (k : kstate) :
  aslHeadAlone k -> insertBlocked semAdd p k = Stop NullDeref k.
Proof.
  intros H. unfold insertBlocked. apply bind_Stop.
  now apply findPrevSemd_head_alone.
Qed.

Lemma activeSemds_head_alone (k : kstate) :
  aslHeadAlone k -> activeSemds k = Some [].
Proof.
  intros (h & d & Hh & Hd & Hn). unfold activeSemds. rewrite Hh, Hd, Hn.
  now destruct (length (semdTable k)).
Qed.

Lemma blockedOn_head_alone (k : kstate) (semAdd : Z) :
  aslHeadAlone k -> blockedOn k semAdd = Some [].
Proof.
  intros H. unfold blockedOn. now rewrite (activeSemds_head_alone k H).
Qed.

(** *** V on a semaphore that stays at or below zero *)




(** *** A request that has to block *)

(** A process in system mode requests WaitIO for a device whose
    semaphore is 0, and the ASL is as [initASL] left it: nobody waits
    for the device, and the counter matches the queue.  The handler
    decrements the counter to -1, charges the caller for its time and
    calls [insertBlocked], whose search stops at the [NULL] successor
    of the head of the ASL.  The counter is -1 and the queue of the
    semaphore is empty; the caller is still the running process, the
    soft-block count has not moved and the scheduler was not entered. *)
Lemma blocking_WaitIO_stops_in_ASL_search
    (L : layout) (k : kstate) (c : nat) (b : pcb_t) :
  let old := stateMem k SYSOLDADD in
  let intlNO := wrap_int (a2 old) in
  let dnum := wrap_int (a3 old) in
  let waitForTermRead := wrap_int (a4 old) in
  let i := if Z.eqb intlNO LINENUMSEVEN && Z.eqb waitForTermRead 0
           then wrap_int (getSemaphoreIndex intlNO dnum + TOTALDEVICES)
           else getSemaphoreIndex intlNO dnum in
  g_currentProc k = Some c ->
  procTable k !! c = Some b ->
  wrap_int (a1 old) = WAITIO ->
  Z.land (cpsr old) SYSMODE = SYSMODE ->
  aslHeadAlone k ->
  intMem k (semAt L i) = 0 ->
  deviceSemOk L k i = true /\
  exists k',
    SYSCallHandler L k = Stop NullDeref k' /\
    insertBlocked (semAt L i) (Some c) k' = Stop NullDeref k' /\
    intMem k' (semAt L i) = -1 /\
    blockedOn k' (semAt L i) = Some [] /\
    deviceSemOk L k' i = false /\
    g_currentProc k' = Some c /\
    g_softBlockCount k' = g_softBlockCount k /\
    g_readyQueue k' = g_readyQueue k.
Proof.
  intros old intlNO dnum waitForTermRead i Hcur Hb Hnum Hmode Hasl Hzero.
  split.
  { unfold deviceSemOk. rewrite (blockedOn_head_alone k _ Hasl), Hzero. reflexivity. }
  set (k1 := set_procTable (<[c := set_p_s old b]> (procTable k)) k).
  assert (Hb1 : procTable k1 !! c = Some (set_p_s old b)).
  { apply list_lookup_insert_eq. now apply lookup_lt_Some in Hb. }
  assert (Hold : SYSOLDADD <> 0) by discriminate.
  set (k2 := set_intMem (store (semAt L i) (-1) (intMem k1)) k1).
  assert (Hb2 : procTable k2 !! c = Some (set_p_s old b)) by exact Hb1.
  assert (Hc2 : g_currentProc k2 = Some c) by exact Hcur.
  pose proof (updateTime_runs k2 c _ Hc2 Hb2) as Hup. cbv zeta in Hup.
  set (k3 := set_g_startTOD _ _) in Hup.
  assert (Hasl3 : aslHeadAlone k3) by now apply (aslHeadAlone_same k).
  assert (Hmem3 : intMem k3 (semAt L i) = -1).
  { cbn [k3 k2 intMem set_g_startTOD set_procTable set_g_accTime set_g_endTOD
         set_todCount set_intMem]. apply store_same. }
  exists k3. splits.
  - unfold SYSCallHandler. rewrite bind_gets, Hcur.
    rewrite (bind_Ret _ _ _ _ _ (copyState_into_pcb oldSYS k c b Hold Hb)).
    fold old k1.
    rewrite (bind_Ret _ _ _ _ _ (rdState_nonnull oldSYS k1 Hold)).
    change (stateMem k1 oldSYS) with old. rewrite Hnum.
    change (Z.ltb WAITIO WAITIO) with false. unfold when at 1. rewrite bind_ret.
    rewrite bind_gets. change (g_currentProc k1) with (g_currentProc k). rewrite Hcur.
    rewrite (bind_Ret _ _ _ _ _ (rdPcb_Some p_s k1 c _ Hb1)).
    cbn [p_s set_p_s]. rewrite Hmode, Z.eqb_refl. unfold when at 1.
    change (Z.eqb WAITIO CREATEPROCESS) with false.
    change (Z.eqb WAITIO TERMINATEPROCESS) with false.
    change (Z.eqb WAITIO VERHOGEN) with false.
    change (Z.eqb WAITIO PASSEREN) with false.
    change (Z.eqb WAITIO SPECTRAPVEC) with false.
    change (Z.eqb WAITIO GETCPUTIME) with false.
    change (Z.eqb WAITIO WAITCLOCK) with false.
    change (Z.eqb WAITIO WAITIO) with true. cbv iota.
    rewrite bind_assoc.
    rewrite (bind_Ret _ _ _ _ _ (rdState_nonnull oldSYS k1 Hold)).
    change (stateMem k1 oldSYS) with old.
    apply bind_Stop. unfold waitIO. cbv zeta.
    fold intlNO dnum waitForTermRead. fold i.
    unfold rdSem, wrSem. rewrite bind_gets, bind_modify, bind_gets.
    change (intMem k1) with (intMem k). rewrite Hzero.
    change (wrap_int (0 - 1)) with (-1). fold k1. fold k2.
    cbn [intMem set_intMem k2]. rewrite store_same.
    change (Z.ltb (-1) 0) with true. unfold when at 1.
    apply bind_Stop. rewrite (bind_Ret _ _ _ _ _ Hup).
    rewrite bind_gets. change (g_currentProc k3) with (g_currentProc k). rewrite Hcur.
    apply bind_Stop. now apply insertBlocked_head_alone.
  - now apply insertBlocked_head_alone.
  - exact Hmem3.
  - now apply blockedOn_head_alone.
  - unfold deviceSemOk. rewrite (blockedOn_head_alone k3 _ Hasl3), Hmem3. reflexivity.
  - exact Hcur.
  - reflexivity.
  - reflexivity.
Qed.

(** The first WaitIO after [main], for disk 0. *)
Lemma blocking_WaitIO_after_boot :
  let k := waitsForIdleDisk in
  let r := SYSCallHandler uarm k in
  deviceSemsOk uarm k = true /\
  stoppedBy r = Some NullDeref /\
  intMem (finalState r) (semAt uarm 0) = -1 /\
  blockedOn (finalState r) (semAt uarm 0) = Some [] /\
  deviceSemOk uarm (finalState r) 0 = false /\
  g_currentProc (finalState r) = Some 0%nat /\
  g_softBlockCount (finalState r) = g_softBlockCount k.
Proof.
  cbv zeta. splits; vm_compute; reflexivity.
Qed.

(** *** The timer interrupt at the end of an interval *)



(** The same interrupt on the machine as [main] left it, once the first
    process has created a second one: process 0 runs and process 1 is
    ready before the interrupt, and they still are when the handler has
    stopped. *)
Lemma interval_tick_after_boot :
  let k := lateTickStarted in
  let r := interruptHandler uarm k in
  g_currentProc k = Some 0%nat /\
  procQueue (procTable k) (g_readyQueue k) = Some [1%nat] /\
  wrap_uint (g_endOfInterval k) <= wrap_uint (todReads k (S (todCount k))) /\
  stoppedBy r = Some NullDeref /\
  g_currentProc (finalState r) = Some 0%nat /\
  procQueue (procTable (finalState r)) (g_readyQueue (finalState r)) = Some [1%nat] /\
  g_endOfInterval (finalState r) = g_endOfInterval k /\
  timerReg (finalState r) = timerReg k.
Proof.
  cbv zeta. splits; try (vm_compute; reflexivity). vm_compute. discriminate.
Qed.

(** ** The sub-device of a terminal interrupt *)


(** What the handlers of the nucleus leave alone: the words of
    [intMem] and the registers of the devices are not written by the
    queue, tree and ASL operations, by the clock, by [loadState] or by
    the scheduler. *)
Lemma intMem_blind : blindTo anyUpdate intMem.
Proof. split; reflexivity. Qed.


Lemma keeps_getTODLO {B : Type} (f : kstate -> B) :
  (forall n k, f (set_todCount n k) = f k) -> keeps f getTODLO.
Proof. intros H k. apply H. Qed.

Ltac frame_step Hblind :=
  first
    [ apply (keeps_removeBlocked anyUpdate _ Hblind); intros; exact I
    | apply (keeps_insertProcQ anyUpdate _ Hblind); intros; exact I
    | apply (keeps_removeProcQ anyUpdate _ Hblind); intros; exact I
    | apply (keeps_wrPcb anyUpdate _ Hblind); exact I
    | apply keeps_getTODLO; reflexivity
    | apply keeps_bind; [|intros ?]
    | apply keeps_ret
    | apply keeps_gets
    | apply keeps_stopWith
    | apply keeps_rdPcb
    | apply keeps_when
    | apply keeps_modify; reflexivity
    | apply keeps_modify; intros ?; cbn [devRegs set_devRegs];
      rewrite store_same; reflexivity
    | match goal with
      | |- keeps _ (if ?c then _ else _) => destruct c
      end ].

Lemma keeps_loadState {B : Type} (f : kstate -> B) : keeps f loadState.
Proof.
  unfold loadState, LDST.
  repeat first [ apply keeps_bind; [|intros ?] | apply keeps_gets | apply keeps_rdPcb
               | apply keeps_stopWith ].
Qed.

Lemma keeps_scheduler {B : Type} (f : kstate -> B) :
  blindTo anyUpdate f ->
  (forall v k, f (set_statusReg v k) = f k) ->
  (forall v k, f (set_timerReg v k) = f k) ->
  (forall v k, f (set_todCount v k) = f k) ->
  (forall v k, f (set_g_endOfInterval v k) = f k) ->
  (forall v k, f (set_g_currentProc v k) = f k) ->
  (forall v k, f (set_g_startTOD v k) = f k) ->
  keeps f scheduler.
Proof.
  intros Hf H1 H2 H3 H4 H5 H6.
  unfold scheduler, setSTATUS, setTIMER, HALT, PANIC, WAIT.
  repeat first [ apply keeps_loadState
               | apply keeps_getTODLO; exact H3
               | apply keeps_modify;
                 first [ apply H1 | apply H2 | apply H4 | apply H5 | apply H6 ]
               | frame_step Hf ].
Qed.



(** The two interrupts of terminal 0 on the machine as [main] left it.
    When a character has been received the receive-status word ends in
    the code 5 and the V goes to semaphore 32; when a character has
    been transmitted the receive-status word is the ready code and the
    V goes to semaphore 40. *)
Lemma terminal_interrupts_after_boot :
  (let k := terminalReceived in
   let r := interruptHandler uarm k in
   Z.land (recv_status (devRegs k (deviceAddress 32))) 0xFF = 5 /\
   stoppedBy r = Some LoadState /\
   intMem (finalState r) (semAt uarm 32) = 1 /\
   intMem (finalState r) (semAt uarm 40) = 0) /\
  (let k := terminalTransmitted in
   let r := interruptHandler uarm k in
   Z.land (recv_status (devRegs k (deviceAddress 32))) 0xFF = DEVICEREADY /\
   stoppedBy r = Some LoadState /\
   intMem (finalState r) (semAt uarm 32) = 0 /\
   intMem (finalState r) (semAt uarm 40) = 1).
Proof.
  cbv zeta. splits; vm_compute; reflexivity.
Qed.

(** ** The ASL stays as [initASL] left it

    Every write to the ASL sits behind a search of the list, and the
    search does not come back: whatever the handlers of the nucleus do,
    and however they end, the head of the ASL keeps its [NULL]
    successor.  No process is ever on the queue of a semaphore. *)

Lemma keepsHeadAlone_bind {A B : Type} (m : M A) (f : A -> M B) :
  keepsHeadAlone m -> (forall a, keepsHeadAlone (f a)) -> keepsHeadAlone (bind m f).
Proof.
  intros Hm Hf k Hk. unfold bind. specialize (Hm k Hk).
  destruct (m k) as [a k1|e k1]; cbn [finalState] in *; [now apply Hf|exact Hm].
Qed.

(** What does not write the descriptors keeps them. *)
Lemma keepsHeadAlone_same {A : Type} (m : M A) :
  (forall k, semd_h (finalState (m k)) = semd_h k /\
             semdTable (finalState (m k)) = semdTable k) ->
  keepsHeadAlone m.
Proof. intros H k Hk. destruct (H k). now apply (aslHeadAlone_same k). Qed.

Ltac same_descriptors :=
  apply keepsHeadAlone_same; intros ?;
  repeat match goal with
         | |- context [match ?x with _ => _ end] => destruct x
         end;
  split; reflexivity.

Lemma keepsHeadAlone_ret {A : Type} (a : A) : keepsHeadAlone (ret a).
Proof. same_descriptors. Qed.

Lemma keepsHeadAlone_gets {A : Type} (g : kstate -> A) : keepsHeadAlone (gets g).
Proof. same_descriptors. Qed.

Lemma keepsHeadAlone_stopWith {A : Type} (e : stop) : keepsHeadAlone (@stopWith A e).
Proof. same_descriptors. Qed.

Lemma keepsHeadAlone_modify (g : kstate -> kstate) :
  (forall k, semd_h (g k) = semd_h k) ->
  (forall k, semdTable (g k) = semdTable k) ->
  keepsHeadAlone (modify g).
Proof.
  intros H1 H2. apply keepsHeadAlone_same. intros k.
  cbn [modify finalState]. split; [apply H1|apply H2].
Qed.

Lemma keepsHeadAlone_rdPcb {A : Type} p (field : pcb_t -> A) :
  keepsHeadAlone (rdPcb p field).
Proof. unfold rdPcb. same_descriptors. Qed.

Lemma keepsHeadAlone_wrPcb p upd : keepsHeadAlone (wrPcb p upd).
Proof. unfold wrPcb. same_descriptors. Qed.

Lemma keepsHeadAlone_rdState a : keepsHeadAlone (rdState a).
Proof. unfold rdState. same_descriptors. Qed.

Lemma keepsHeadAlone_wrState a v : keepsHeadAlone (wrState a v).
Proof. unfold wrState. same_descriptors. Qed.

Lemma keepsHeadAlone_rdInt a : keepsHeadAlone (rdInt a).
Proof. unfold rdInt. same_descriptors. Qed.

Lemma keepsHeadAlone_wrInt a v : keepsHeadAlone (wrInt a v).
Proof. unfold wrInt. same_descriptors. Qed.

Lemma keepsHeadAlone_getTODLO : keepsHeadAlone getTODLO.
Proof. unfold getTODLO. same_descriptors. Qed.

Lemma keepsHeadAlone_when (c : bool) (m : M unit) :
  keepsHeadAlone m -> keepsHeadAlone (when c m).
Proof. intros H. destruct c; [exact H|apply keepsHeadAlone_ret]. Qed.

(** The operations on the ASL stop in their search. *)
Lemma keepsHeadAlone_insertBlocked semAdd p : keepsHeadAlone (insertBlocked semAdd p).
Proof. intros k H. now rewrite insertBlocked_head_alone. Qed.

Lemma keepsHeadAlone_removeBlocked semAdd : keepsHeadAlone (removeBlocked semAdd).
Proof. intros k H. now rewrite removeBlocked_head_alone. Qed.

Lemma keepsHeadAlone_outBlocked p : keepsHeadAlone (outBlocked p).
Proof.
  unfold outBlocked. apply keepsHeadAlone_bind; [apply keepsHeadAlone_rdPcb|intros a].
  intros k H. erewrite bind_Stop; [exact H|]. now apply findPrevSemd_head_alone.
Qed.

Ltac head_alone_step :=
  first
    [ apply keepsHeadAlone_insertBlocked
    | apply keepsHeadAlone_removeBlocked
    | apply keepsHeadAlone_outBlocked
    | apply keepsHeadAlone_ret
    | apply keepsHeadAlone_gets
    | apply keepsHeadAlone_stopWith
    | apply keepsHeadAlone_rdPcb
    | apply keepsHeadAlone_wrPcb
    | apply keepsHeadAlone_rdState
    | apply keepsHeadAlone_wrState
    | apply keepsHeadAlone_rdInt
    | apply keepsHeadAlone_wrInt
    | apply keepsHeadAlone_getTODLO
    | apply keepsHeadAlone_when
    | apply keepsHeadAlone_modify; reflexivity
    | match goal with
      | |- keepsHeadAlone (if ?c then _ else _) => destruct c
      | |- keepsHeadAlone (match ?x with _ => _ end) => destruct x
      end
    | apply keepsHeadAlone_bind; [|intros ?] ].

(** The ready queue and the free list; the queue of a descriptor is
    only touched behind a search of the ASL. *)
Lemma keepsHeadAlone_rdTail tp : offTheASL tp -> keepsHeadAlone (rdTail tp).
Proof. destruct tp; intros []; cbn [rdTail]; apply keepsHeadAlone_gets. Qed.

Lemma keepsHeadAlone_wrTail tp p : offTheASL tp -> keepsHeadAlone (wrTail tp p).
Proof.
  destruct tp; intros []; cbn [wrTail]; apply keepsHeadAlone_modify; reflexivity.
Qed.

Lemma keepsHeadAlone_insertProcQ tp p : offTheASL tp -> keepsHeadAlone (insertProcQ tp p).
Proof.
  intros H. unfold insertProcQ.
  repeat first [ now apply keepsHeadAlone_rdTail | now apply keepsHeadAlone_wrTail
               | head_alone_step ].
Qed.

Lemma keepsHeadAlone_removeProcQ tp : offTheASL tp -> keepsHeadAlone (removeProcQ tp).
Proof.
  intros H. unfold removeProcQ.
  repeat first [ now apply keepsHeadAlone_rdTail | now apply keepsHeadAlone_wrTail
               | head_alone_step ].
Qed.

Lemma keepsHeadAlone_outProcQ_while tp p : offTheASL tp ->
  forall fuel q, keepsHeadAlone (outProcQ_while fuel tp p q).
Proof.
  intros H. induction fuel as [|fuel IH]; intros q; cbn [outProcQ_while].
  - apply keepsHeadAlone_stopWith.
  - repeat first [ apply IH | now apply keepsHeadAlone_rdTail | head_alone_step ].
Qed.

Lemma keepsHeadAlone_outProcQ tp p : offTheASL tp -> keepsHeadAlone (outProcQ tp p).
Proof.
  intros H. unfold outProcQ.
  repeat first [ now apply keepsHeadAlone_outProcQ_while
               | now apply keepsHeadAlone_rdTail | now apply keepsHeadAlone_wrTail
               | head_alone_step ].
Qed.

Ltac queue_alone_step :=
  first
    [ apply keepsHeadAlone_insertProcQ; exact I
    | apply keepsHeadAlone_removeProcQ; exact I
    | apply keepsHeadAlone_outProcQ; exact I
    | head_alone_step ].

Ltac head_alone := repeat queue_alone_step.







Lemma keepsHeadAlone_loadState : keepsHeadAlone loadState.
Proof. unfold loadState, LDST. head_alone. Qed.


Lemma keepsHeadAlone_scheduler : keepsHeadAlone scheduler.
Proof.
  unfold scheduler, setSTATUS, setTIMER, HALT, PANIC, WAIT.
  repeat first [ apply keepsHeadAlone_loadState | queue_alone_step ].
Qed.



Section HeadAlone.

Variable L : layout.









End HeadAlone.



(** ** Device semaphores between two handlers

    Where nobody waits, every device semaphore matches its queue.  The
    handlers that come to an orderly end keep it so; a handler that has
    to block or to wake a process goes into the ASL and stops there. *)




Section Maintains.

Variable L : layout.
















End Maintains.

















Section MaintainsQueues.

Variable L : layout.







End MaintainsQueues.


Section MaintainsPhase1.

Variable L : layout.











End MaintainsPhase1.



Section MaintainsNucleus.

Variable L : layout.





End MaintainsNucleus.

Section MaintainsHandlers.

Variable L : layout.

















End MaintainsHandlers.

(** [main] leaves a machine on which nobody waits, whatever it holds at
    power-on: the ASL is as [initASL] built it and the forty-nine
    semaphores of the nucleus are zero. *)
Theorem main_leaves_nobody_waiting (L : layout) (im : Z -> Z) (sm : Z -> state_t)
    (dr : Z -> devreg_t) (pm : Z -> Z) (tod : nat -> Z) :
  nobodyWaits L (finalState (main L (powerOn im sm dr pm tod))).
Proof.
  assert (E : exists k1,
             main L (powerOn im sm dr pm tod) = bind scheduler (fun _ => PANIC) k1 /\
             semd_h k1 = Some 21%nat /\
             semdTable k1 !! 21%nat = Some (Build_semd_t NULL 0 NULL) /\
             intMem k1
             = intMem (finalState (clearDeviceArrays L (Z.to_nat MAXSEMA4) 0
                                     (powerOn im sm dr pm tod)))).
  { eexists. split.
    - unfold main.
      cbv -[scheduler wrap_uint wrap_int Z.add Z.sub Z.mul Z.modulo semAt].
      reflexivity.
    - splits; [reflexivity|reflexivity|].
      cbv -[wrap_uint wrap_int Z.add Z.sub Z.mul Z.modulo semAt]. reflexivity. }
  destruct E as (k1 & -> & Hh & Hd & Hmem).
  assert (Ha : aslHeadAlone k1)
    by (exists 21%nat, (Build_semd_t NULL 0 NULL); now splits).
  split.
  - apply (keepsHeadAlone_bind scheduler (fun _ => PANIC)); [| |exact Ha].
    + apply keepsHeadAlone_scheduler.
    + intros _. apply keepsHeadAlone_stopWith.
  - assert (Hk : keeps intMem (bind scheduler (fun _ => PANIC))).
    { apply keeps_bind; [|intros _; apply keeps_stopWith].
      apply keeps_scheduler; [exact intMem_blind|reflexivity..]. }
    intros i Hi. rewrite Hk, Hmem.
    destruct (clearDeviceArrays_zeroes L (Z.to_nat MAXSEMA4) 0 (powerOn im sm dr pm tod))
      as (_ & _ & _ & Hzero).
    destruct (Hzero i) as [-> _]; [unfold MAXSEMA4 in *; lia|lia].
Qed.


